(** * go-audio/aiff: the AIFF/AIFC container decoder

    A shallow embedding of the decoder of the [aiff] package (the chunk
    reader, the COMM scan of [ReadInfo], the drain loop with its chunk
    dispatch, the incremental PCM access and the sample codec table),
    followed by the properties the specification states about it.

    Conventions of the embedding.
    - Go's fixed-width integers are [Z]; where the source can wrap, the
      wrap-around is written out ([wrap32], [wrap64], [to_signed]).
    - A byte is a [Byte.byte]; a [[4]byte] identifier is a [list byte].
    - The [io.ReadSeeker] a decoder wraps is an in-memory stream (the
      behaviour of [bytes.Reader] and of a regular [os.File]): a byte
      sequence, a cursor, and the trace of the requests made on it.
      Cursor arithmetic is unbounded: the data of a stream is far shorter
      than 2^63 bytes.
    - [error] values are symbolic; [nil] is [None].
    - A method with a pointer receiver is a function from the decoder state
      to a result and the new state; a receiver that may be [nil] is an
      [option Decoder]. *)

From Stdlib Require Import ZArith List Lia Bool String.
From Stdlib.Strings Require Import Byte.
Import ListNotations.
Open Scope Z_scope.

(** ** Integers and bytes *)

Definition wrap32 (x : Z) : Z := x mod 2 ^ 32.
Definition wrap64 (x : Z) : Z := (x + 2 ^ 63) mod 2 ^ 64 - 2 ^ 63.

(** The conversion [intN(x)] of an unsigned [w]-bit pattern. *)
Definition to_signed (w : Z) (x : Z) : Z :=
  let m := x mod 2 ^ w in
  if m <? 2 ^ (w - 1) then m else m - 2 ^ w.

Definition byte_val (b : byte) : Z := Z.of_N (Byte.to_N b).

Definition byte_of_Z (z : Z) : byte :=
  match Byte.of_N (Z.to_N (z mod 256)) with
  | Some b => b
  | None => x00
  end.

(** [binary.BigEndian] and [binary.LittleEndian] on a byte slice. *)
Definition be_uint (bs : list byte) : Z :=
  fold_left (fun acc b => acc * 256 + byte_val b) bs 0.

Definition le_uint (bs : list byte) : Z := be_uint (rev bs).

Fixpoint be_bytes (n : nat) (x : Z) : list byte :=
  match n with
  | O => []
  | S k => be_bytes k (x / 256) ++ [byte_of_Z x]
  end.

Definition bytes_eqb (a b : list byte) : bool :=
  if list_eq_dec Byte.byte_eq_dec a b then true else false.

Definition len {A : Type} (l : list A) : Z := Z.of_nat (List.length l).

(** The slices [l[:n]] and [l[n:]] for an integer [n]; a count beyond
    the length stands for the length. *)
Definition take {A : Type} (n : Z) (l : list A) : list A :=
  firstn (Z.to_nat (Z.min n (len l))) l.

Definition drop {A : Type} (n : Z) (l : list A) : list A :=
  skipn (Z.to_nat (Z.min n (len l))) l.

Inductive ByteOrder : Type := BigEndian | LittleEndian.

Definition order_uint (o : ByteOrder) (bs : list byte) : Z :=
  match o with
  | BigEndian => be_uint bs
  | LittleEndian => le_uint bs
  end.

(** ** Errors *)

Inductive error : Type :=
| EOF                                   (* io.EOF *)
| ErrUnexpectedEOF                      (* io.ErrUnexpectedEOF *)
| ErrSeek                               (* Seek: negative position or bad whence *)
| ErrFmtNotSupported (id : list byte)   (* "%s - %#v", ErrFmtNotSupported, id *)
| ErrBitDepth (bitDepth : Z)            (* "%v bit depth not supported" *)
| ErrNilDecoder                         (* "can't calculate the duration of a nil pointer" *)
| ErrChunkID (kind : string) (id : list byte) (* "unexpected <kind> chunk ID: %q" *)
| Errorf (context : string) (cause : error).  (* "<context> - %v", cause *)

Definition is_EOF (e : option error) : bool :=
  match e with Some EOF => true | _ => false end.

Definition is_ErrUnexpectedEOF (e : option error) : bool :=
  match e with Some ErrUnexpectedEOF => true | _ => false end.

(** ** The underlying stream *)

Inductive IOEvent : Type :=
| IORead (n : Z)                 (* a request for up to [n] bytes *)
| IOSeek (offset whence : Z).    (* Seek(offset, whence) *)

(** [trace] has the most recent request first. *)
Record Stream : Type := mkStream {
  data : list byte;
  pos : Z;
  trace : list IOEvent
}.

Definition SeekStart : Z := 0.
Definition SeekCurrent : Z := 1.
Definition SeekEnd : Z := 2.

(** The bytes a request for [n] bytes finds at the cursor. (A cursor is
    never negative: [stream_Seek] refuses to set one.) *)
Definition stream_peek (n : Z) (s : Stream) : list byte :=
  if pos s <? 0 then [] else take n (drop (pos s) (data s)).

(** Reading up to [n] bytes at the cursor. *)
Definition stream_read (n : Z) (s : Stream) : list byte * Stream :=
  let bs := stream_peek n s in
  (bs, {| data := data s; pos := pos s + len bs; trace := IORead n :: trace s |}).

Definition stream_Seek (offset whence : Z) (s : Stream)
  : (Z * option error) * Stream :=
  let logged p := {| data := data s; pos := p; trace := IOSeek offset whence :: trace s |} in
  let target :=
    if whence =? SeekStart then Some offset
    else if whence =? SeekCurrent then Some (pos s + offset)
    else if whence =? SeekEnd then Some (len (data s) + offset)
    else None in
  match target with
  | Some abs =>
      if abs <? 0 then ((0, Some ErrSeek), logged (pos s))
      else ((abs, None), logged abs)
  | None => ((0, Some ErrSeek), logged (pos s))
  end.

(** The error of [io.ReadFull] after [bs] arrived for a request of [n]. *)
Definition read_full_err (n : Z) (bs : list byte) : option error :=
  if len bs =? n then None
  else if len bs =? 0 then Some EOF
  else Some ErrUnexpectedEOF.

(** [binary.Read(r, order, &x)] for an [x] of [n] bytes, on the stream. *)
Definition binary_Read (n : Z) (s : Stream) : (list byte * option error) * Stream :=
  let '(bs, s') := stream_read n s in
  ((bs, read_full_err n bs), s').

(** [io.CopyN(dst, r, n)] from the stream into a buffer. *)
Definition io_CopyN (n : Z) (s : Stream) : (list byte * option error) * Stream :=
  if n <=? 0 then (([], None), s)
  else
    let '(bs, s') := stream_read n s in
    ((bs, if len bs =? n then None else Some EOF), s').

(** [binary.Read] on a [bytes.Buffer]: the value bytes, the error, and what
    is left in the buffer. *)
Definition buf_Read (n : Z) (b : list byte) : (list byte * option error) * list byte :=
  let bs := firstn (Z.to_nat n) b in
  ((bs, read_full_err n bs), skipn (Z.to_nat n) b).

(** ** Chunks *)

(** Modelled from the spec: the [Chunk] type, whose declaration is missing
    from the sources: a 4-byte identifier, a declared size, a reader bounded
    to that size and a cursor, the fields the decoder names. [R] is the
    number of bytes the [io.LimitReader] over the decoder's stream still
    lets through: the reader shares the decoder's stream, so the bytes
    themselves are read from the decoder state. *)
Module Chunk.
Record t : Type := mk {
  ID : list byte;
  Size : Z;
  R : Z;
  Pos : Z
}.
End Chunk.

(** [Read(p)] of an [io.LimitedReader] with [len(p) = n] on the stream. *)
Definition limited_Read (n : Z) (lim : Z) (s : Stream)
  : (list byte * option error) * (Z * Stream) :=
  if lim <=? 0 then (([], Some EOF), (lim, s))
  else
    let n' := Z.min n lim in
    let '(bs, s') := stream_read n' s in
    if len (data s) <=? pos s then (([], Some EOF), (lim, s'))
    else ((bs, None), (lim - len bs, s')).

(** [io.ReadFull] through the limited reader, as [binary.Read(chunk.R, ...)]
    performs it. *)
Definition limited_ReadFull (n : Z) (lim : Z) (s : Stream)
  : (list byte * option error) * (Z * Stream) :=
  if n <=? 0 then (([], None), (lim, s))
  else if lim <=? 0 then (([], Some EOF), (lim, s))
  else
    let '(bs, s') := stream_read (Z.min n lim) s in
    ((bs, read_full_err n bs), (lim - len bs, s')).

(** ** Conversions of the go-audio/audio package

    The decoder calls three conversion functions of its dependency
    [github.com/go-audio/audio], which is not part of this repository. They
    are an interface here; the laws record their Go result type [int32]. *)

Class AudioLib : Type := {
  IEEEFloatToInt : list byte -> Z;
  Int24BETo32 : list byte -> Z;
  Int24LETo32 : list byte -> Z;
  Int24BETo32_int32 : forall bs, - 2 ^ 31 <= Int24BETo32 bs < 2 ^ 31;
  Int24LETo32_int32 : forall bs, - 2 ^ 31 <= Int24LETo32 bs < 2 ^ 31
}.

(** ** Identifiers (the package's variables) *)

Definition formID : list byte := list_byte_of_string "FORM".
Definition aiffID : list byte := list_byte_of_string "AIFF".
Definition aifcID : list byte := list_byte_of_string "AIFC".
Definition COMMID : list byte := list_byte_of_string "COMM".
Definition COMTID : list byte := list_byte_of_string "COMT".
Definition SSNDID : list byte := list_byte_of_string "SSND".
Definition chanID : list byte := list_byte_of_string "CHAN".
Definition bascID : list byte := list_byte_of_string "basc".
Definition trnsID : list byte := list_byte_of_string "trns".
Definition cateID : list byte := list_byte_of_string "cate".
Definition encNone : list byte := list_byte_of_string "NONE".
Definition encSowt : list byte := list_byte_of_string "sowt".

(** The zero value of a [[4]byte]. *)
Definition zero4 : list byte := [x00; x00; x00; x00].

(** [clen] and [nullTermStr]. *)
Fixpoint clen (n : list byte) : nat :=
  match n with
  | [] => O
  | b :: rest => if Byte.eqb b x00 then O else S (clen rest)
  end.

Definition nullTermStr (b : list byte) : list byte := firstn (clen b) b.

(** [bytes.TrimRight(b, "\x00")]. *)
Fixpoint trim_right_nul (b : list byte) : list byte :=
  match b with
  | [] => []
  | x :: rest =>
      match trim_right_nul rest with
      | [] => if Byte.eqb x x00 then [] else [x]
      | rest' => x :: rest'
      end
  end.

(** ** The decoder state *)

(** [AppleMetadata]. *)
Record AppleMetadata : Type := mkAppleMetadata {
  Beats : Z;
  Note : Z;
  Scale : Z;
  Numerator : Z;
  Denominator : Z;
  IsLooping : bool;
  Tags : list (list byte)
}.

Definition no_AppleMetadata : AppleMetadata :=
  {| Beats := 0; Note := 0; Scale := 0; Numerator := 0; Denominator := 0;
     IsLooping := false; Tags := [] |}.

(** [Decoder]. [r] is the stream; [PCMChunk] is [None] for a nil pointer,
    [err] is [None] for a nil error, and strings are byte sequences. *)
Record Decoder : Type := mkDecoder {
  r : Stream;
  ID : list byte;
  Size : Z;
  Form : list byte;
  commSize : Z;
  NumChans : Z;
  NumSampleFrames : Z;
  BitDepth : Z;
  SampleRate : Z;
  PCMSize : Z;
  PCMChunk : option Chunk.t;
  Comments : list (list byte);
  Encoding : list byte;
  EncodingName : list byte;
  HasAppleInfo : bool;
  AppleInfo : AppleMetadata;
  err : option error;
  pcmDataAccessed : bool;
  byteOrder : ByteOrder;
  rewindBytes : Z
}.

(** Assignments to the fields of a decoder. *)

Definition set_r (v : Stream) (d : Decoder) : Decoder :=
  {| r := v; ID := ID d; Size := Size d; Form := Form d;
     commSize := commSize d; NumChans := NumChans d;
     NumSampleFrames := NumSampleFrames d; BitDepth := BitDepth d;
     SampleRate := SampleRate d; PCMSize := PCMSize d;
     PCMChunk := PCMChunk d; Comments := Comments d; Encoding := Encoding d;
     EncodingName := EncodingName d; HasAppleInfo := HasAppleInfo d;
     AppleInfo := AppleInfo d; err := err d;
     pcmDataAccessed := pcmDataAccessed d; byteOrder := byteOrder d;
     rewindBytes := rewindBytes d |}.

Definition set_ID (v : list byte) (d : Decoder) : Decoder :=
  {| r := r d; ID := v; Size := Size d; Form := Form d;
     commSize := commSize d; NumChans := NumChans d;
     NumSampleFrames := NumSampleFrames d; BitDepth := BitDepth d;
     SampleRate := SampleRate d; PCMSize := PCMSize d;
     PCMChunk := PCMChunk d; Comments := Comments d; Encoding := Encoding d;
     EncodingName := EncodingName d; HasAppleInfo := HasAppleInfo d;
     AppleInfo := AppleInfo d; err := err d;
     pcmDataAccessed := pcmDataAccessed d; byteOrder := byteOrder d;
     rewindBytes := rewindBytes d |}.

Definition set_Size (v : Z) (d : Decoder) : Decoder :=
  {| r := r d; ID := ID d; Size := v; Form := Form d; commSize := commSize d;
     NumChans := NumChans d; NumSampleFrames := NumSampleFrames d;
     BitDepth := BitDepth d; SampleRate := SampleRate d;
     PCMSize := PCMSize d; PCMChunk := PCMChunk d; Comments := Comments d;
     Encoding := Encoding d; EncodingName := EncodingName d;
     HasAppleInfo := HasAppleInfo d; AppleInfo := AppleInfo d; err := err d;
     pcmDataAccessed := pcmDataAccessed d; byteOrder := byteOrder d;
     rewindBytes := rewindBytes d |}.

Definition set_Form (v : list byte) (d : Decoder) : Decoder :=
  {| r := r d; ID := ID d; Size := Size d; Form := v; commSize := commSize d;
     NumChans := NumChans d; NumSampleFrames := NumSampleFrames d;
     BitDepth := BitDepth d; SampleRate := SampleRate d;
     PCMSize := PCMSize d; PCMChunk := PCMChunk d; Comments := Comments d;
     Encoding := Encoding d; EncodingName := EncodingName d;
     HasAppleInfo := HasAppleInfo d; AppleInfo := AppleInfo d; err := err d;
     pcmDataAccessed := pcmDataAccessed d; byteOrder := byteOrder d;
     rewindBytes := rewindBytes d |}.

Definition set_commSize (v : Z) (d : Decoder) : Decoder :=
  {| r := r d; ID := ID d; Size := Size d; Form := Form d; commSize := v;
     NumChans := NumChans d; NumSampleFrames := NumSampleFrames d;
     BitDepth := BitDepth d; SampleRate := SampleRate d;
     PCMSize := PCMSize d; PCMChunk := PCMChunk d; Comments := Comments d;
     Encoding := Encoding d; EncodingName := EncodingName d;
     HasAppleInfo := HasAppleInfo d; AppleInfo := AppleInfo d; err := err d;
     pcmDataAccessed := pcmDataAccessed d; byteOrder := byteOrder d;
     rewindBytes := rewindBytes d |}.

Definition set_NumChans (v : Z) (d : Decoder) : Decoder :=
  {| r := r d; ID := ID d; Size := Size d; Form := Form d;
     commSize := commSize d; NumChans := v;
     NumSampleFrames := NumSampleFrames d; BitDepth := BitDepth d;
     SampleRate := SampleRate d; PCMSize := PCMSize d;
     PCMChunk := PCMChunk d; Comments := Comments d; Encoding := Encoding d;
     EncodingName := EncodingName d; HasAppleInfo := HasAppleInfo d;
     AppleInfo := AppleInfo d; err := err d;
     pcmDataAccessed := pcmDataAccessed d; byteOrder := byteOrder d;
     rewindBytes := rewindBytes d |}.

Definition set_NumSampleFrames (v : Z) (d : Decoder) : Decoder :=
  {| r := r d; ID := ID d; Size := Size d; Form := Form d;
     commSize := commSize d; NumChans := NumChans d; NumSampleFrames := v;
     BitDepth := BitDepth d; SampleRate := SampleRate d;
     PCMSize := PCMSize d; PCMChunk := PCMChunk d; Comments := Comments d;
     Encoding := Encoding d; EncodingName := EncodingName d;
     HasAppleInfo := HasAppleInfo d; AppleInfo := AppleInfo d; err := err d;
     pcmDataAccessed := pcmDataAccessed d; byteOrder := byteOrder d;
     rewindBytes := rewindBytes d |}.

Definition set_BitDepth (v : Z) (d : Decoder) : Decoder :=
  {| r := r d; ID := ID d; Size := Size d; Form := Form d;
     commSize := commSize d; NumChans := NumChans d;
     NumSampleFrames := NumSampleFrames d; BitDepth := v;
     SampleRate := SampleRate d; PCMSize := PCMSize d;
     PCMChunk := PCMChunk d; Comments := Comments d; Encoding := Encoding d;
     EncodingName := EncodingName d; HasAppleInfo := HasAppleInfo d;
     AppleInfo := AppleInfo d; err := err d;
     pcmDataAccessed := pcmDataAccessed d; byteOrder := byteOrder d;
     rewindBytes := rewindBytes d |}.

Definition set_SampleRate (v : Z) (d : Decoder) : Decoder :=
  {| r := r d; ID := ID d; Size := Size d; Form := Form d;
     commSize := commSize d; NumChans := NumChans d;
     NumSampleFrames := NumSampleFrames d; BitDepth := BitDepth d;
     SampleRate := v; PCMSize := PCMSize d; PCMChunk := PCMChunk d;
     Comments := Comments d; Encoding := Encoding d;
     EncodingName := EncodingName d; HasAppleInfo := HasAppleInfo d;
     AppleInfo := AppleInfo d; err := err d;
     pcmDataAccessed := pcmDataAccessed d; byteOrder := byteOrder d;
     rewindBytes := rewindBytes d |}.

Definition set_PCMSize (v : Z) (d : Decoder) : Decoder :=
  {| r := r d; ID := ID d; Size := Size d; Form := Form d;
     commSize := commSize d; NumChans := NumChans d;
     NumSampleFrames := NumSampleFrames d; BitDepth := BitDepth d;
     SampleRate := SampleRate d; PCMSize := v; PCMChunk := PCMChunk d;
     Comments := Comments d; Encoding := Encoding d;
     EncodingName := EncodingName d; HasAppleInfo := HasAppleInfo d;
     AppleInfo := AppleInfo d; err := err d;
     pcmDataAccessed := pcmDataAccessed d; byteOrder := byteOrder d;
     rewindBytes := rewindBytes d |}.

Definition set_PCMChunk (v : option Chunk.t) (d : Decoder) : Decoder :=
  {| r := r d; ID := ID d; Size := Size d; Form := Form d;
     commSize := commSize d; NumChans := NumChans d;
     NumSampleFrames := NumSampleFrames d; BitDepth := BitDepth d;
     SampleRate := SampleRate d; PCMSize := PCMSize d; PCMChunk := v;
     Comments := Comments d; Encoding := Encoding d;
     EncodingName := EncodingName d; HasAppleInfo := HasAppleInfo d;
     AppleInfo := AppleInfo d; err := err d;
     pcmDataAccessed := pcmDataAccessed d; byteOrder := byteOrder d;
     rewindBytes := rewindBytes d |}.

Definition set_Comments (v : list (list byte)) (d : Decoder) : Decoder :=
  {| r := r d; ID := ID d; Size := Size d; Form := Form d;
     commSize := commSize d; NumChans := NumChans d;
     NumSampleFrames := NumSampleFrames d; BitDepth := BitDepth d;
     SampleRate := SampleRate d; PCMSize := PCMSize d;
     PCMChunk := PCMChunk d; Comments := v; Encoding := Encoding d;
     EncodingName := EncodingName d; HasAppleInfo := HasAppleInfo d;
     AppleInfo := AppleInfo d; err := err d;
     pcmDataAccessed := pcmDataAccessed d; byteOrder := byteOrder d;
     rewindBytes := rewindBytes d |}.

Definition set_Encoding (v : list byte) (d : Decoder) : Decoder :=
  {| r := r d; ID := ID d; Size := Size d; Form := Form d;
     commSize := commSize d; NumChans := NumChans d;
     NumSampleFrames := NumSampleFrames d; BitDepth := BitDepth d;
     SampleRate := SampleRate d; PCMSize := PCMSize d;
     PCMChunk := PCMChunk d; Comments := Comments d; Encoding := v;
     EncodingName := EncodingName d; HasAppleInfo := HasAppleInfo d;
     AppleInfo := AppleInfo d; err := err d;
     pcmDataAccessed := pcmDataAccessed d; byteOrder := byteOrder d;
     rewindBytes := rewindBytes d |}.

Definition set_EncodingName (v : list byte) (d : Decoder) : Decoder :=
  {| r := r d; ID := ID d; Size := Size d; Form := Form d;
     commSize := commSize d; NumChans := NumChans d;
     NumSampleFrames := NumSampleFrames d; BitDepth := BitDepth d;
     SampleRate := SampleRate d; PCMSize := PCMSize d;
     PCMChunk := PCMChunk d; Comments := Comments d; Encoding := Encoding d;
     EncodingName := v; HasAppleInfo := HasAppleInfo d;
     AppleInfo := AppleInfo d; err := err d;
     pcmDataAccessed := pcmDataAccessed d; byteOrder := byteOrder d;
     rewindBytes := rewindBytes d |}.

Definition set_HasAppleInfo (v : bool) (d : Decoder) : Decoder :=
  {| r := r d; ID := ID d; Size := Size d; Form := Form d;
     commSize := commSize d; NumChans := NumChans d;
     NumSampleFrames := NumSampleFrames d; BitDepth := BitDepth d;
     SampleRate := SampleRate d; PCMSize := PCMSize d;
     PCMChunk := PCMChunk d; Comments := Comments d; Encoding := Encoding d;
     EncodingName := EncodingName d; HasAppleInfo := v;
     AppleInfo := AppleInfo d; err := err d;
     pcmDataAccessed := pcmDataAccessed d; byteOrder := byteOrder d;
     rewindBytes := rewindBytes d |}.

Definition set_AppleInfo (v : AppleMetadata) (d : Decoder) : Decoder :=
  {| r := r d; ID := ID d; Size := Size d; Form := Form d;
     commSize := commSize d; NumChans := NumChans d;
     NumSampleFrames := NumSampleFrames d; BitDepth := BitDepth d;
     SampleRate := SampleRate d; PCMSize := PCMSize d;
     PCMChunk := PCMChunk d; Comments := Comments d; Encoding := Encoding d;
     EncodingName := EncodingName d; HasAppleInfo := HasAppleInfo d;
     AppleInfo := v; err := err d; pcmDataAccessed := pcmDataAccessed d;
     byteOrder := byteOrder d; rewindBytes := rewindBytes d |}.

Definition set_err (v : option error) (d : Decoder) : Decoder :=
  {| r := r d; ID := ID d; Size := Size d; Form := Form d;
     commSize := commSize d; NumChans := NumChans d;
     NumSampleFrames := NumSampleFrames d; BitDepth := BitDepth d;
     SampleRate := SampleRate d; PCMSize := PCMSize d;
     PCMChunk := PCMChunk d; Comments := Comments d; Encoding := Encoding d;
     EncodingName := EncodingName d; HasAppleInfo := HasAppleInfo d;
     AppleInfo := AppleInfo d; err := v;
     pcmDataAccessed := pcmDataAccessed d; byteOrder := byteOrder d;
     rewindBytes := rewindBytes d |}.

Definition set_pcmDataAccessed (v : bool) (d : Decoder) : Decoder :=
  {| r := r d; ID := ID d; Size := Size d; Form := Form d;
     commSize := commSize d; NumChans := NumChans d;
     NumSampleFrames := NumSampleFrames d; BitDepth := BitDepth d;
     SampleRate := SampleRate d; PCMSize := PCMSize d;
     PCMChunk := PCMChunk d; Comments := Comments d; Encoding := Encoding d;
     EncodingName := EncodingName d; HasAppleInfo := HasAppleInfo d;
     AppleInfo := AppleInfo d; err := err d; pcmDataAccessed := v;
     byteOrder := byteOrder d; rewindBytes := rewindBytes d |}.

Definition set_byteOrder (v : ByteOrder) (d : Decoder) : Decoder :=
  {| r := r d; ID := ID d; Size := Size d; Form := Form d;
     commSize := commSize d; NumChans := NumChans d;
     NumSampleFrames := NumSampleFrames d; BitDepth := BitDepth d;
     SampleRate := SampleRate d; PCMSize := PCMSize d;
     PCMChunk := PCMChunk d; Comments := Comments d; Encoding := Encoding d;
     EncodingName := EncodingName d; HasAppleInfo := HasAppleInfo d;
     AppleInfo := AppleInfo d; err := err d;
     pcmDataAccessed := pcmDataAccessed d; byteOrder := v;
     rewindBytes := rewindBytes d |}.

Definition set_rewindBytes (v : Z) (d : Decoder) : Decoder :=
  {| r := r d; ID := ID d; Size := Size d; Form := Form d;
     commSize := commSize d; NumChans := NumChans d;
     NumSampleFrames := NumSampleFrames d; BitDepth := BitDepth d;
     SampleRate := SampleRate d; PCMSize := PCMSize d;
     PCMChunk := PCMChunk d; Comments := Comments d; Encoding := Encoding d;
     EncodingName := EncodingName d; HasAppleInfo := HasAppleInfo d;
     AppleInfo := AppleInfo d; err := err d;
     pcmDataAccessed := pcmDataAccessed d; byteOrder := byteOrder d;
     rewindBytes := v |}.

(** [NewDecoder]: every field but the stream and the byte order has its
    zero value. *)
Definition NewDecoder (s : Stream) : Decoder :=
  {| r := s; ID := zero4; Size := 0; Form := zero4;
     commSize := 0; NumChans := 0; NumSampleFrames := 0; BitDepth := 0;
     SampleRate := 0; PCMSize := 0; PCMChunk := None; Comments := [];
     Encoding := zero4; EncodingName := []; HasAppleInfo := false;
     AppleInfo := no_AppleMetadata; err := None; pcmDataAccessed := false;
     byteOrder := BigEndian; rewindBytes := 0 |}.

(** A stream over [bs], as a caller opens it. *)
Definition open_stream (bs : list byte) : Stream :=
  {| data := bs; pos := 0; trace := [] |}.

(** *** Queries that accept a nil receiver *)

Definition SampleBitDepth (d : option Decoder) : Z :=
  match d with
  | None => 0
  | Some d => BitDepth d
  end.

Definition PCMLen (d : option Decoder) : Z :=
  match d with
  | None => 0
  | Some d => PCMSize d
  end.

Definition WasPCMAccessed (d : option Decoder) : bool :=
  match d with
  | None => false
  | Some d => pcmDataAccessed d
  end.

(** [audio.Format]: the channel count and the sample rate. *)
Record Format_t : Type := mkFormat { NumChannels : Z; FormatSampleRate : Z }.

Definition Format (d : option Decoder) : option Format_t :=
  match d with
  | None => None
  | Some d => Some {| NumChannels := NumChans d; FormatSampleRate := SampleRate d |}
  end.

(** [Err]: the recorded error, unless it is [io.EOF]. *)
Definition Err (d : Decoder) : option error :=
  if is_EOF (err d) then None else err d.

(** [Reset]. *)
Definition Reset (d : Decoder) : Decoder :=
  let d := set_ID zero4 d in
  let d := set_Size 0 d in
  let d := set_Form zero4 d in
  let d := set_commSize 0 d in
  let d := set_NumChans 0 d in
  let d := set_NumSampleFrames 0 d in
  let d := set_BitDepth 0 d in
  let d := set_SampleRate 0 d in
  let d := set_Encoding zero4 d in
  let d := set_EncodingName [] d in
  let d := set_err None d in
  let d := set_pcmDataAccessed false d in
  set_r (snd (stream_Seek 0 0 (r d))) d.

(** What running a loop of the decoder comes to. *)
Inductive run (A : Type) : Type :=
| Returns (a : A)
| Panics           (* a nil pointer dereference *)
| OutOfFuel.       (* the loop needs more passes than were given *)
Arguments Returns {A} a.
Arguments Panics {A}.
Arguments OutOfFuel {A}.

(** ** Reading the container *)

Section Decoding.
Context `{lib : AudioLib}.

(** Recording an error on the decoder and returning it. *)
Definition fail (e : error) (d : Decoder) : option error * Decoder :=
  (Some e, set_err (Some e) d).

(** [iDnSize]: the next identifier and block size. A failed [binary.Read]
    leaves its destination at the zero value. *)
Definition iDnSize (d : Decoder) : ((list byte * Z) * option error) * Decoder :=
  let '((idb, e), s) := binary_Read 4 (r d) in
  let d := set_err e (set_r s d) in
  match e with
  | Some _ => (((zero4, 0), e), d)
  | None =>
      let '((szb, e), s) := binary_Read 4 (r d) in
      let d := set_err e (set_r s d) in
      match e with
      | Some _ => (((idb, 0), e), d)
      | None => (((idb, be_uint szb), None), d)
      end
  end.

(** [readHeaders]: the 12-byte FORM header, read once. *)
Definition readHeaders (d : Decoder) : option error * Decoder :=
  if 0 <? Size d then (None, d)
  else
    let '((src, e), s) := io_CopyN 12 (r d) in
    let d := set_err e (set_r s d) in
    let '((v, e), src) := buf_Read 4 src in
    let d := set_err e d in
    match e with
    | Some _ => (e, d)
    | None =>
        let d := set_ID v d in
        if negb (bytes_eqb (ID d) formID) then fail (ErrFmtNotSupported (ID d)) d
        else
          let '((v, e), src) := buf_Read 4 src in
          let d := set_err e d in
          match e with
          | Some _ => (e, d)
          | None =>
              let d := set_Size (be_uint v) d in
              let '((v, e), src) := buf_Read 4 src in
              let d := set_err e d in
              match e with
              | Some _ => (e, d)
              | None =>
                  let d := set_Form v d in
                  if negb (bytes_eqb (Form d) aiffID) && negb (bytes_eqb (Form d) aifcID)
                  then fail (ErrFmtNotSupported (Form d)) d
                  else (err d, d)
              end
          end
    end.

(** [jumpTo]. *)
Definition jumpTo (bytesAhead : Z) (d : Decoder) : option error * Decoder :=
  if 0 <? bytesAhead then
    let '((_, e), s) := stream_Seek bytesAhead SeekCurrent (r d) in
    (e, set_r s d)
  else (None, d).

(** The AIFC part of [parseCommChunk], from the buffer [src]. *)
Definition parseCommChunk_aifc (src : list byte) (d : Decoder) : option error * Decoder :=
  let '((v, e), src) := buf_Read 4 src in
  match e with
  | Some x => fail (Errorf "AIFC encoding failed to parse" x) d
  | None =>
      let d := set_Encoding v (set_err None d) in
      let d := if bytes_eqb (Encoding d) encSowt then set_byteOrder LittleEndian d else d in
      let '((v, e), src) := buf_Read 1 src in
      match e with
      | Some x => fail (Errorf "AIFC encoding failed to parse" x) d
      | None =>
          let d := set_err None d in
          let encNameSize := be_uint v in
          if 0 <? encNameSize then
            let '((desc, e), src) := buf_Read encNameSize src in
            match e with
            | Some x => fail (Errorf "AIFC encoding failed to parse" x) d
            | None => (None, set_EncodingName desc (set_err None d))
            end
          else (err d, d)
      end
  end.

(** [parseCommChunk]. The chunk body is copied from the stream into a
    buffer first; what the buffer holds beyond the parsed fields is
    discarded with the buffer. *)
Definition parseCommChunk (size : Z) (d : Decoder) : option error * Decoder :=
  if 0 <? NumChans d then (None, d)
  else
    let d := set_commSize size d in
    let '((src, e), s) := io_CopyN size (r d) in
    let d := set_err e (set_r s d) in
    let '((v, e), src) := buf_Read 2 src in
    match e with
    | Some x => fail (Errorf "num of channels failed to parse" x) d
    | None =>
        let d := set_NumChans (be_uint v) (set_err None d) in
        let '((v, e), src) := buf_Read 4 src in
        match e with
        | Some x => fail (Errorf "num of sample frames failed to parse" x) d
        | None =>
            let d := set_NumSampleFrames (be_uint v) (set_err None d) in
            let '((v, e), src) := buf_Read 2 src in
            match e with
            | Some x => fail (Errorf "sample size failed to parse" x) d
            | None =>
                let d := set_BitDepth (be_uint v) (set_err None d) in
                let '((srBytes, e), src) := buf_Read 10 src in
                match e with
                | Some x => fail (Errorf "sample rate failed to parse" x) d
                | None =>
                    let d := set_SampleRate (IEEEFloatToInt srBytes) (set_err None d) in
                    if bytes_eqb (Form d) aifcID then parseCommChunk_aifc src d
                    else (err d, d)
                end
            end
        end
    end.

(** The comment loop of [parseCommentsChunk]: an 8-byte marker and
    timestamp field, a length byte, the text. Reads past the end of the
    buffer yield nothing, and the text keeps its zero padding until
    trimmed. *)
Fixpoint read_comments (n : nat) (br : list byte) (acc : list (list byte))
  : list (list byte) :=
  match n with
  | O => acc
  | S n' =>
      let br := skipn 8 br in
      let b := match br with [] => 0 | x :: _ => byte_val x end in
      let br := skipn 1 br in
      let got := firstn (Z.to_nat b) br in
      let textB := got ++ repeat x00 (Z.to_nat b - List.length got) in
      read_comments n' (skipn (Z.to_nat b) br) (acc ++ [trim_right_nul textB])
  end.

(** [parseCommentsChunk]: the body is copied from the decoder's stream
    itself, [chunk.Size] bytes of it. *)
Definition parseCommentsChunk (chunk : Chunk.t) (d : Decoder) : option error * Decoder :=
  if negb (bytes_eqb (Chunk.ID chunk) COMTID)
  then (Some (ErrChunkID "comments" (Chunk.ID chunk)), d)
  else
    let '((br, e), s) := io_CopyN (Chunk.Size chunk) (r d) in
    let d := set_err e (set_r s d) in
    match e with
    | Some _ => (e, d)
    | None =>
        let '((v, e), br) := buf_Read 2 br in
        let nbrComments := match e with None => be_uint v | Some _ => 0 end in
        (None, set_Comments (read_comments (Z.to_nat nbrComments) br (Comments d)) d)
    end.

(** The scan loop of [ReadInfo], with its local [rewindBytes]. [None]
    stands for an exhausted [fuel]. *)
Fixpoint ReadInfo_scan (fuel : nat) (rewind : Z) (d : Decoder) : option Decoder :=
  if is_EOF (err d) then Some d
  else
    match fuel with
    | O => None
    | S fuel' =>
        let '(((id, size), e), d) := iDnSize d in
        let d := set_err e d in
        match e with
        | Some x => Some (set_err (Some (Errorf "error reading chunk header" x)) d)
        | None =>
            if bytes_eqb id COMMID then
              let '(_, d) := parseCommChunk size d in
              if 0 <? rewind then
                let off := wrap64 (- wrap64 (wrap64 (rewind + size) + 8)) in
                Some (set_r (snd (stream_Seek off SeekCurrent (r d))) d)
              else Some d
            else if bytes_eqb id COMTID then
              let chunk := {| Chunk.ID := id; Chunk.Size := size; Chunk.R := size; Chunk.Pos := 0 |} in
              let '(_, d) := parseCommentsChunk chunk d in
              ReadInfo_scan fuel' rewind d
            else
              let rewind :=
                if SampleRate d =? 0 then wrap64 (rewind + wrap64 (size + 8)) else rewind in
              let '(e, d) := jumpTo size d in
              let d := set_err e d in
              match e with
              | Some _ => Some d
              | None => ReadInfo_scan fuel' rewind d
              end
        end
    end.

(** Every pass of the scan consumes a chunk header, so this many passes
    suffice ([ReadInfo_scan_terminates]). *)
Definition scan_fuel (d : Decoder) : nat :=
  S (Z.to_nat (len (data (r d)) - pos (r d))).

(** [ReadInfo] on a non-nil decoder. The scan returns within [scan_fuel]
    passes ([ReadInfo_scan_terminates]): the last branch is never taken. *)
Definition ReadInfo (d : Decoder) : Decoder :=
  if 0 <? SampleRate d then d
  else
    let '(e, d) := readHeaders d in
    let d := set_err e d in
    match e with
    | Some x => set_err (Some (Errorf "failed to read header" x)) d
    | None =>
        match ReadInfo_scan (scan_fuel d) 0 d with
        | Some d' => d'
        | None => d
        end
    end.

(** *** The chunk reader's methods

    The source file of [Chunk] is not part of the sources; the methods the
    decoder calls are modelled from the specification's description of a
    chunk: an identifier, a declared size, a reader bounded to that size and
    a cursor, to be fully consumed or explicitly skipped before the next
    header is read. *)

Definition Chunk_set_R (lim : Z) (c : Chunk.t) : Chunk.t :=
  {| Chunk.ID := Chunk.ID c; Chunk.Size := Chunk.Size c; Chunk.R := lim;
     Chunk.Pos := Chunk.Pos c |}.

Definition Chunk_set_Pos (p : Z) (c : Chunk.t) : Chunk.t :=
  {| Chunk.ID := Chunk.ID c; Chunk.Size := Chunk.Size c; Chunk.R := Chunk.R c;
     Chunk.Pos := p |}.

(** [binary.Read(chunk.R, ...)] and [chunk.R.Read(p)]: the bounded reader
    itself, which is [io.LimitReader]'s. *)
Definition Chunk_R_ReadFull (n : Z) (c : Chunk.t) (d : Decoder)
  : (list byte * option error) * (Chunk.t * Decoder) :=
  let '(res, (lim, s)) := limited_ReadFull n (Chunk.R c) (r d) in
  (res, (Chunk_set_R lim c, set_r s d)).

Definition Chunk_R_Read (n : Z) (c : Chunk.t) (d : Decoder)
  : (list byte * option error) * (Chunk.t * Decoder) :=
  let '(res, (lim, s)) := limited_Read n (Chunk.R c) (r d) in
  (res, (Chunk_set_R lim c, set_r s d)).

(** Modelled from the spec: [Chunk.Done], of the chunk reader missing from
    the sources. It skips what the cursor has not passed of the declared
    size, through the bounded reader. *)
Definition Chunk_Done (c : Chunk.t) (d : Decoder) : Chunk.t * Decoder :=
  let bytesAhead := Chunk.Size c - Chunk.Pos c in
  if (0 <? bytesAhead) && (0 <? Chunk.R c) then
    let '(bs, s) := stream_read (Z.min bytesAhead (Chunk.R c)) (r d) in
    (Chunk_set_R (Chunk.R c - len bs) c, set_r s d)
  else (c, d).

(** Modelled from the spec: [Chunk.ReadBE], of the chunk reader missing
    from the sources. It reads a fixed-width big-endian field through the
    bounded reader and advances the cursor by its width. *)
Definition Chunk_ReadBE (n : Z) (c : Chunk.t) (d : Decoder)
  : (list byte * option error) * (Chunk.t * Decoder) :=
  let '(res, (c, d)) := Chunk_R_ReadFull n c d in
  (res, (Chunk_set_Pos (Chunk.Pos c + n) c, d)).

(** Modelled from the spec: [Chunk.ReadByte], of the chunk reader missing
    from the sources: one byte read like a field of width 1. *)
Definition Chunk_ReadByte (c : Chunk.t) (d : Decoder)
  : (list byte * option error) * (Chunk.t * Decoder) :=
  Chunk_ReadBE 1 c d.

(** *** Vendor chunks *)

Definition set_Beats (v : Z) (a : AppleMetadata) : AppleMetadata :=
  {| Beats := v; Note := Note a; Scale := Scale a; Numerator := Numerator a;
     Denominator := Denominator a; IsLooping := IsLooping a; Tags := Tags a |}.

Definition set_Note (v : Z) (a : AppleMetadata) : AppleMetadata :=
  {| Beats := Beats a; Note := v; Scale := Scale a; Numerator := Numerator a;
     Denominator := Denominator a; IsLooping := IsLooping a; Tags := Tags a |}.

Definition set_Scale (v : Z) (a : AppleMetadata) : AppleMetadata :=
  {| Beats := Beats a; Note := Note a; Scale := v; Numerator := Numerator a;
     Denominator := Denominator a; IsLooping := IsLooping a; Tags := Tags a |}.

Definition set_Numerator (v : Z) (a : AppleMetadata) : AppleMetadata :=
  {| Beats := Beats a; Note := Note a; Scale := Scale a; Numerator := v;
     Denominator := Denominator a; IsLooping := IsLooping a; Tags := Tags a |}.

Definition set_Denominator (v : Z) (a : AppleMetadata) : AppleMetadata :=
  {| Beats := Beats a; Note := Note a; Scale := Scale a; Numerator := Numerator a;
     Denominator := v; IsLooping := IsLooping a; Tags := Tags a |}.

Definition set_IsLooping (v : bool) (a : AppleMetadata) : AppleMetadata :=
  {| Beats := Beats a; Note := Note a; Scale := Scale a; Numerator := Numerator a;
     Denominator := Denominator a; IsLooping := v; Tags := Tags a |}.

Definition set_Tags (v : list (list byte)) (a : AppleMetadata) : AppleMetadata :=
  {| Beats := Beats a; Note := Note a; Scale := Scale a; Numerator := Numerator a;
     Denominator := Denominator a; IsLooping := IsLooping a; Tags := v |}.

(** One [binary.Read(chunk.R, binary.BigEndian, &field)] whose error is
    dropped: the field changes only when the read is complete. *)
Definition read_field (n : Z) (store : Z -> Decoder -> Decoder)
    (c : Chunk.t) (d : Decoder) : Chunk.t * Decoder :=
  let '((v, e), (c, d)) := Chunk_R_ReadFull n c d in
  match e with
  | None => (c, store (be_uint v) d)
  | Some _ => (c, d)
  end.

Definition on_AppleInfo (f : AppleMetadata -> AppleMetadata) (d : Decoder) : Decoder :=
  set_AppleInfo (f (AppleInfo d)) d.

(** [parseBascChunk]. *)
Definition parseBascChunk (c : Chunk.t) (d : Decoder) : option error * (Chunk.t * Decoder) :=
  if negb (bytes_eqb (Chunk.ID c) bascID)
  then (Some (ErrChunkID "BASC" (Chunk.ID c)), (c, d))
  else
    let d := set_HasAppleInfo true d in
    let '(c, d) := read_field 4 (fun _ d => d) c d in
    let '(c, d) := read_field 4 (fun v => on_AppleInfo (set_Beats v)) c d in
    let '(c, d) := read_field 2 (fun v => on_AppleInfo (set_Note v)) c d in
    let '(c, d) := read_field 2 (fun v => on_AppleInfo (set_Scale v)) c d in
    let '(c, d) := read_field 2 (fun v => on_AppleInfo (set_Numerator v)) c d in
    let '(c, d) := read_field 2 (fun v => on_AppleInfo (set_Denominator v)) c d in
    let '(_, (c, d)) := Chunk_ReadByte c d in
    let '(c, d) :=
      read_field 2 (fun loopFlag d =>
        if loopFlag =? 1 then on_AppleInfo (set_IsLooping true) d else d) c d in
    (None, Chunk_Done c d).

(** The tag loops of [parseCateChunk]: [count] 50-byte slots read into the
    same [tmp], a slot whose first byte is zero being skipped. *)
Fixpoint read_tags (count : nat) (tmp : list byte) (c : Chunk.t) (d : Decoder)
  : option error * (list byte * (Chunk.t * Decoder)) :=
  match count with
  | O => (None, (tmp, (c, d)))
  | S count' =>
      let '((bs, e), (c, d)) := Chunk_R_Read (len tmp) c d in
      match e with
      | Some _ => (e, (tmp, (c, d)))
      | None =>
          let tmp := bs ++ skipn (List.length bs) tmp in
          let d :=
            if 0 <? byte_val (nth 0 tmp x00)
            then on_AppleInfo (fun a => set_Tags (Tags a ++ [nullTermStr tmp]) a) d
            else d in
          read_tags count' tmp c d
      end
  end.

(** [parseCateChunk]. *)
Definition parseCateChunk (c : Chunk.t) (d : Decoder) : option error * (Chunk.t * Decoder) :=
  if negb (bytes_eqb (Chunk.ID c) cateID)
  then (Some (ErrChunkID "CATE" (Chunk.ID c)), (c, d))
  else
    let d := set_HasAppleInfo true d in
    let '((_, e), (c, d)) := Chunk_R_Read 4 c d in
    match e with
    | Some _ => (e, (c, d))
    | None =>
        let '(e, (_, (c, d))) := read_tags 4 (repeat x00 50) c d in
        match e with
        | Some _ => (e, (c, d))
        | None =>
            let '((_, e), (c, d)) := Chunk_R_Read 16 c d in
            match e with
            | Some _ => (e, (c, d))
            | None =>
                let '((v, e), (c, d)) := Chunk_R_ReadFull 2 c d in
                let numDescriptors :=
                  match e with None => to_signed 16 (be_uint v) | Some _ => 0 end in
                let '(e, (_, (c, d))) :=
                  read_tags (Z.to_nat numDescriptors) (repeat x00 50) c d in
                match e with
                | Some _ => (e, (c, d))
                | None => (None, Chunk_Done c d)
                end
            end
        end
    end.

(** *** Dispatch *)

(** [parseChunk]. Errors of the comment and vendor parsers are printed and
    dropped. *)
Definition parseChunk (chunk : option Chunk.t) (d : Decoder) : option error * Decoder :=
  match chunk with
  | None => (None, d)
  | Some c =>
      let id := Chunk.ID c in
      if bytes_eqb id COMMID then
        let '(c, d) := if 0 <? commSize d then Chunk_Done c d else (c, d) in
        let '(e, d) := parseCommChunk (wrap32 (Chunk.Size c)) d in
        match e with
        | Some _ => (e, d)
        | None =>
            if 0 <? rewindBytes d then
              let s := snd (stream_Seek (wrap64 (- rewindBytes d)) 1 (r d)) in
              (None, set_rewindBytes 0 (set_r s d))
            else (None, d)
        end
      else if bytes_eqb id SSNDID then (None, snd (Chunk_Done c d))
      else if bytes_eqb id COMTID then (None, snd (parseCommentsChunk c d))
      else if bytes_eqb id bascID then (None, snd (snd (parseBascChunk c d)))
      else if bytes_eqb id chanID then (None, snd (Chunk_Done c d))
      else if bytes_eqb id trnsID then (None, snd (Chunk_Done c d))
      else if bytes_eqb id cateID then
        let '(_, (c, d)) := parseCateChunk c d in
        (None, snd (Chunk_Done c d))
      else
        let d :=
          if SampleRate d =? 0
          then set_rewindBytes (wrap64 (rewindBytes d + Chunk.Size c)) d
          else d in
        (None, snd (Chunk_Done c d))
  end.

(** [NextChunk]. *)
Definition NextChunk (d : Decoder) : (option Chunk.t * option error) * Decoder :=
  let d := ReadInfo d in
  match err d with
  | Some x =>
      let e := Errorf "failed to read info" x in
      ((None, Some e), set_err (Some e) d)
  | None =>
      let '(((id, size), e), d) := iDnSize d in
      let d := set_err e d in
      let size := if negb (size mod 2 =? 0) then wrap32 (size + 1) else size in
      match e with
      | Some x =>
          if is_EOF e || is_ErrUnexpectedEOF e then ((None, Some EOF), d)
          else ((None, Some (Errorf "error reading chunk header" x)), d)
      | None =>
          ((Some {| Chunk.ID := id; Chunk.Size := size; Chunk.R := size; Chunk.Pos := 0 |},
            None), d)
      end
  end.

(** [Drain]. *)
Fixpoint Drain (fuel : nat) (d : Decoder) : run (option error * Decoder) :=
  match err d with
  | Some _ => Returns (err d, d)
  | None =>
      match fuel with
      | O => OutOfFuel
      | S fuel' =>
          let '((chunk, e), d) := NextChunk d in
          let d := set_err e d in
          match e with
          | Some _ => if is_EOF e then Returns (None, d) else Returns (e, d)
          | None =>
              let '(e, d) := parseChunk chunk d in
              match e with
              | Some _ => if is_EOF e then Returns (None, d) else Returns (e, d)
              | None => Drain fuel' d
              end
          end
      end
  end.

(** *** Forwarding to the sound data *)

(** The SSND branch of [FwdToPCM]: the offset, the declared PCM size, the
    offset bytes, then the chunk becomes the PCM chunk. *)
Definition FwdToPCM_ssnd (c : Chunk.t) (d : Decoder) : option error * Decoder :=
  let '((v, e), (c, d)) := Chunk_ReadBE 4 c d in
  match e with
  | Some x => fail (Errorf "PCM offset failed to parse" x) d
  | None =>
      let offset := be_uint v in
      let '((v, e), (c, d)) := Chunk_ReadBE 4 c (set_err None d) in
      match e with
      | Some x => fail (Errorf "PCMSize failed to parse" x) d
      | None =>
          let d := set_PCMSize (be_uint v) (set_err None d) in
          let located c d :=
            (err d, set_pcmDataAccessed true (set_PCMChunk (Some c) d)) in
          if 0 <? offset then
            let d := set_PCMSize (wrap32 (PCMSize d - offset)) d in
            let '((_, e), (c, d)) := Chunk_ReadBE offset c d in
            match e with
            | Some x => fail (Errorf "failed to read the offsetted buffer" x) d
            | None => located c d
            end
          else located c d
      end
  end.

Fixpoint FwdToPCM_loop (fuel : nat) (d : Decoder) : run (option error * Decoder) :=
  match err d with
  | Some _ => Returns (err d, d)
  | None =>
      match fuel with
      | O => OutOfFuel
      | S fuel' =>
          let '((chunk, e), d) := NextChunk d in
          let d := set_err e d in
          match e, chunk with
          | Some x, _ => Returns (fail (Errorf "failed to read next chunk" x) d)
          | None, None => Panics
          | None, Some c =>
              if bytes_eqb (Chunk.ID c) SSNDID then Returns (FwdToPCM_ssnd c d)
              else
                let '(e, d) := parseChunk chunk d in
                match e with
                | Some x => Returns (Some (Errorf "failed to parse the chunk" x), d)
                | None => FwdToPCM_loop fuel' d
                end
          end
      end
  end.

(** [FwdToPCM]. A header that cannot be read is recorded on the decoder,
    and [nil] is returned. *)
Definition FwdToPCM (fuel : nat) (d : Decoder) : run (option error * Decoder) :=
  let '(e, d) := readHeaders d in
  let d := set_err e d in
  match e with
  | Some x => Returns (None, set_err (Some (Errorf "failed to read header" x)) d)
  | None => FwdToPCM_loop fuel d
  end.

(** *** Derived queries *)

(** A [time.Duration] and a tempo are floating-point results; they are
    kept as the operands they are computed from. *)
Inductive Duration_t : Type :=
| Nanoseconds (n : Z)
| FramesPerRate (frames rate : Z).  (* frames / rate * time.Second *)

Inductive Tempo_t : Type :=
| TempoConst (v : Z)
| BeatsPerMinute (beats : Z) (d : Duration_t). (* round(beats / (d.Seconds()/60), 2) *)

(** [Duration]. *)
Definition Duration (d : option Decoder) : (Duration_t * option error) * option Decoder :=
  match d with
  | None => ((Nanoseconds 0, Some ErrNilDecoder), None)
  | Some d =>
      let d := ReadInfo d in
      match Err d with
      | Some e => ((Nanoseconds 0, Some e), Some d)
      | None => ((FramesPerRate (NumSampleFrames d) (SampleRate d), None), Some d)
      end
  end.

(** [Tempo]. *)
Definition Tempo (d : option Decoder) : Tempo_t * option Decoder :=
  match d with
  | None => (TempoConst (-1), None)
  | Some d0 =>
      if negb (HasAppleInfo d0) || (Beats (AppleInfo d0) <? 1) then (TempoConst (-1), d)
      else
        let '((duration, e), d) := Duration d in
        match e with
        | Some _ => (TempoConst (-1), d)
        | None => (BeatsPerMinute (Beats (AppleInfo d0)) duration, d)
        end
  end.

(** ** The sample codec table *)

Definition bytesPerSample (bitDepth : Z) : Z := bitDepth / 8.

(** [r.Read(buf[:k])] on a [bytes.Reader] holding [rd]: the outcome, what
    is left to read, and the scratch buffer. *)
Definition reader_Read (k : Z) (rd buf : list byte)
  : (Z * option error) * (list byte * list byte) :=
  match rd with
  | [] => ((0, Some EOF), (rd, buf))
  | _ =>
      let got := firstn (Z.to_nat k) rd in
      ((len got, None), (skipn (Z.to_nat k) rd, got ++ skipn (List.length got) buf))
  end.

(** A decode function: from the reader and the scratch buffer to the
    sample, the error, and both afterwards. *)
Definition decodeFunc : Type :=
  list byte -> list byte -> (Z * option error) * (list byte * list byte).

Definition decode8 : decodeFunc := fun rd buf =>
  let '((_, e), (rd, buf)) := reader_Read 1 rd buf in
  ((byte_val (nth 0 buf x00), e), (rd, buf)).

Definition decode16 (byteOrder : ByteOrder) : decodeFunc := fun rd buf =>
  let '((_, e), (rd, buf)) := reader_Read 2 rd buf in
  ((to_signed 16 (order_uint byteOrder (firstn 2 buf)), e), (rd, buf)).

Definition decode24 (conv : list byte -> Z) : decodeFunc := fun rd buf =>
  let '((_, e), (rd, buf)) := reader_Read 3 rd buf in
  match e with
  | Some _ => ((0, e), (rd, buf))
  | None => ((conv (firstn 3 buf), None), (rd, buf))
  end.

Definition decode32 (byteOrder : ByteOrder) : decodeFunc := fun rd buf =>
  let '((_, e), (rd, buf)) := reader_Read 4 rd buf in
  ((to_signed 32 (order_uint byteOrder (firstn 4 buf)), e), (rd, buf)).

(** [sampleDecodeFunc]. *)
Definition sampleDecodeFunc (bitDepth : Z) (byteOrder : ByteOrder)
  : option decodeFunc * option error :=
  if bitDepth =? 8 then (Some decode8, None)
  else if bitDepth =? 16 then (Some (decode16 byteOrder), None)
  else if bitDepth =? 24 then
    match byteOrder with
    | BigEndian => (Some (decode24 Int24BETo32), None)
    | LittleEndian => (Some (decode24 Int24LETo32), None)
    end
  else if bitDepth =? 32 then (Some (decode32 byteOrder), None)
  else (None, Some (ErrBitDepth bitDepth)).

(** ** Incremental PCM access *)

(** [audio.IntBuffer]. *)
Record IntBuffer : Type := mkIntBuffer {
  BufFormat : option Format_t;
  Data : list Z;
  SourceBitDepth : Z
}.

(** [buf.Data[n] = v]. *)
Fixpoint store (n : nat) (v : Z) (l : list Z) : list Z :=
  match l, n with
  | [], _ => []
  | _ :: rest, O => v :: rest
  | x :: rest, S n' => x :: store n' v rest
  end.

(** The decode loop of [PCMBuffer], [todo] slots from index [n] on. *)
Fixpoint PCMBuffer_loop (todo : nat) (n : Z) (decodeF : decodeFunc)
    (misaligned : bool) (bufR sampleBuf : list byte) (dat : list Z)
  : (Z * option error) * list Z :=
  match todo with
  | O => ((n, None), dat)
  | S todo' =>
      let '((v, e), (bufR, sampleBuf)) := decodeF bufR sampleBuf in
      let dat := store (Z.to_nat n) v dat in
      match e with
      | Some _ => ((if misaligned then n - 1 else n, e), dat)
      | None => PCMBuffer_loop todo' (n + 1) decodeF misaligned bufR sampleBuf dat
      end
  end.

(** [PCMBuffer], once the PCM chunk has been located: the part after the
    call of [FwdToPCM]. The result carries the raw bytes read, [m]. *)
Definition PCMBuffer_read (buf : IntBuffer) (d : Decoder)
  : run (((Z * option error) * Z) * (IntBuffer * Decoder)) :=
  let format := {| NumChannels := NumChans d; FormatSampleRate := SampleRate d |} in
  let buf := {| BufFormat := BufFormat buf; Data := Data buf; SourceBitDepth := BitDepth d |} in
  match sampleDecodeFunc (SourceBitDepth buf) (byteOrder d) with
  | (_, Some x) => Returns (((0, Some (Errorf "could not get sample decode func" x)), 0), (buf, d))
  | (None, None) => Panics
  | (Some decodeF, None) =>
      let bPerSample := bytesPerSample (BitDepth d) in
      let size := len (Data buf) * bPerSample in
      match PCMChunk d with
      | None => Panics
      | Some c =>
          let '((tmpBuf, e), (c, d)) := Chunk_R_Read size c d in
          let d := set_PCMChunk (Some c) d in
          let m := len tmpBuf in
          match e with
          | Some _ =>
              if is_EOF e then Returns (((m, None), m), (buf, d))
              else Returns (((m, e), m), (buf, d))
          | None =>
              if m =? 0 then Returns (((m, None), m), (buf, d))
              else
                let sampleBuf := repeat x00 (Z.to_nat bPerSample) in
                let misaligned := 0 <? m mod bPerSample in
                let '((n, e), dat) :=
                  PCMBuffer_loop (List.length (Data buf)) 0 decodeF misaligned
                    tmpBuf sampleBuf (Data buf) in
                let buf := {| BufFormat := Some format; Data := dat;
                              SourceBitDepth := SourceBitDepth buf |} in
                Returns (((n, if is_EOF e then None else e), m), (buf, d))
          end
      end
  end.

(** [PCMBuffer]. *)
Definition PCMBuffer (fuel : nat) (buf : option IntBuffer) (d : Decoder)
  : run ((Z * option error) * (option IntBuffer * Decoder)) :=
  match buf with
  | None => Returns ((0, None), (None, d))
  | Some b =>
      let located :=
        if WasPCMAccessed (Some d) then Returns (None, d) else FwdToPCM fuel d in
      match located with
      | Panics => Panics
      | OutOfFuel => OutOfFuel
      | Returns (Some e, d) => Returns ((0, Some e), (buf, d))
      | Returns (None, d) =>
          match PCMBuffer_read b d with
          | Panics => Panics
          | OutOfFuel => OutOfFuel
          | Returns ((res, _), (b, d)) => Returns (res, (Some b, d))
          end
      end
  end.

End Decoding.

(** ** The on-disk layout

    Builders for the byte sequences the decoder is run on: the FORM header,
    a chunk, a COMM body. *)

Definition bytes_of (l : list Z) : list byte := map byte_of_Z l.

Definition form_header (size : Z) (form : list byte) : list byte :=
  formID ++ be_bytes 4 size ++ form.

(** A chunk as it is laid out when nothing pads it: identifier, size,
    body. *)
Definition chunk_bytes (id body : list byte) : list byte :=
  id ++ be_bytes 4 (len body) ++ body.

Definition comm_body (chans frames bits : Z) (rate : list byte) : list byte :=
  be_bytes 2 chans ++ be_bytes 4 frames ++ be_bytes 2 bits ++ rate.

(** 44100 Hz and a zero rate as 80-bit extended floats. *)
Definition rate_44100 : list byte := bytes_of [0x40; 0x0E; 0xAC; 0x44; 0; 0; 0; 0; 0; 0].
Definition rate_zero : list byte := bytes_of [0x40; 0; 0; 0; 0; 0; 0; 0; 0; 0].

(** ** The go-audio/audio conversions

    What the dependency computes, for running the decoder on concrete
    files: [IEEEFloatToInt] on the ten bytes of an extended float, and the
    two 24-bit conversions, which sign-extend three bytes. *)

Definition go_IEEEFloatToInt (b : list byte) : Z :=
  let b_ i := byte_val (nth i b x00) in
  if Z.land (b_ 0%nat) 0x80 =? 1 then 0
  else if b_ 0%nat <=? 0x3F then 1
  else if 0x40 <? b_ 0%nat then 67108864
  else if (b_ 0%nat =? 0x40) && (0x1C <? b_ 1%nat) then 800000000
  else
    let i := Z.lor (Z.lor (Z.lor (Z.shiftl (b_ 2%nat) 23) (Z.shiftl (b_ 3%nat) 15))
                          (Z.shiftl (b_ 4%nat) 7)) (Z.shiftr (b_ 5%nat) 1) in
    Z.shiftr i (29 - b_ 1%nat).

Definition go_Int24BETo32 (bs : list byte) : Z :=
  if len bs <? 3 then 0 else to_signed 24 (be_uint (firstn 3 bs)).

Definition go_Int24LETo32 (bs : list byte) : Z :=
  if len bs <? 3 then 0 else to_signed 24 (le_uint (firstn 3 bs)).

(** ** Notions the statements use *)

(** What is left of the stream after the cursor. *)
Definition remaining (s : Stream) : Z :=
  if pos s <? 0 then 0 else len (skipn (Z.to_nat (pos s)) (data s)).

(** The decoder [d] with no error recorded and its stream at [p], after
    the requests [tr]. *)
Definition at_pos (d : Decoder) (p : Z) (tr : list IOEvent) : Decoder :=
  set_err None (set_r {| data := data (r d); pos := p; trace := tr |} d).

(** Chunks laid out one after the other, each given by its identifier and
    its body, and the bytes they take: the body and the eight bytes of the
    header. *)
Definition chunks_bytes (cs : list (list byte * list byte)) : list byte :=
  List.concat (map (fun c => chunk_bytes (fst c) (snd c)) cs).

Definition chunks_size (cs : list (list byte * list byte)) : Z :=
  fold_right (fun c acc => len (snd c) + 8 + acc) 0 cs.

(** A chunk the scan of [ReadInfo] passes before the format chunk: any
    chunk but COMM. A comment chunk among them is parsed on the spot; the
    others are the skipped chunks, and [chunks_skipped] is the sum of their
    sizes plus 8 each. *)
Definition scanned_chunk (c : list byte * list byte) : Prop :=
  len (fst c) = 4 /\ fst c <> COMMID /\ len (snd c) < 2 ^ 32.

Definition chunks_skipped (cs : list (list byte * list byte)) : Z :=
  fold_right
    (fun c acc => if bytes_eqb (fst c) COMTID then acc else len (snd c) + 8 + acc)
    0 cs.

(** What the decode function of a bit depth makes of the bytes [bs] of one
    sample: the value and the interval it lies in. 8-bit samples are the
    unsigned byte; 16 and 32-bit samples are the two's-complement reading
    in the byte order; 24-bit samples are the dependency's conversion of the
    three bytes. *)
Definition decoded_sample `{lib : AudioLib} (bitDepth : Z) (o : ByteOrder)
    (bs : list byte) (v : Z) : Prop :=
  if bitDepth =? 8 then v = byte_val (nth 0 bs x00) /\ 0 <= v < 2 ^ 8
  else if bitDepth =? 16 then
    v = to_signed 16 (order_uint o bs) /\ - 2 ^ 15 <= v < 2 ^ 15
  else if bitDepth =? 24 then
    v = (match o with BigEndian => Int24BETo32 | LittleEndian => Int24LETo32 end) bs
    /\ - 2 ^ 31 <= v < 2 ^ 31
  else
    v = to_signed 32 (order_uint o bs) /\ - 2 ^ 31 <= v < 2 ^ 31.

(** ** Files the decoder is run on *)

(** A COMM chunk: one channel, ten frames, 16 bits, 44100 Hz. *)
Definition comm_16bit : list byte :=
  chunk_bytes COMMID (comm_body 1 10 16 rate_44100).

(** An out-of-order file: an unknown chunk of four bytes before the COMM
    chunk, then the sound data. *)
Definition late_comm_chunks : list (list byte * list byte) :=
  [(list_byte_of_string "XXXX", bytes_of [1; 2; 3; 4])].

Definition late_comm_rest : list byte :=
  chunk_bytes SSNDID (bytes_of [0; 0; 0; 0; 0; 0; 0; 0; 0; 1; 0xff; 0xfe]).

Definition late_comm_file : list byte :=
  form_header 58 aiffID ++ chunks_bytes late_comm_chunks ++
  chunk_bytes COMMID (comm_body 1 10 16 rate_44100) ++ late_comm_rest.

(** An unknown chunk, then a comment chunk, then the COMM chunk. The unknown
    chunk is at byte 12, the comment chunk at byte 24, the COMM chunk at
    byte 46. *)
Definition comment_between_file : list byte :=
  form_header 64 aiffID ++
  chunk_bytes (list_byte_of_string "XXXX") (bytes_of [1; 2; 3; 4]) ++
  chunk_bytes COMTID (bytes_of [0; 1; 0; 0; 0; 0; 0; 0; 0; 0; 3; 104; 101; 121]) ++
  comm_16bit.

(** A NAME chunk of declared size 1, its pad byte, then the COMM chunk;
    and the same file with a NAME chunk of size 2. *)
Definition odd_file : list byte :=
  form_header 40 aiffID ++
  list_byte_of_string "NAME" ++ be_bytes 4 1 ++ bytes_of [97; 0] ++ comm_16bit.

Definition even_file : list byte :=
  form_header 40 aiffID ++
  list_byte_of_string "NAME" ++ be_bytes 4 2 ++ bytes_of [97; 98] ++ comm_16bit.

(** A 24-bit file whose sound data holds four PCM bytes: one sample and one
    stray byte. *)
Definition file24 : list byte :=
  form_header 50 aiffID ++ chunk_bytes COMMID (comm_body 1 1 24 rate_44100) ++
  chunk_bytes SSNDID (bytes_of [0; 0; 0; 0; 0; 0; 0; 4; 1; 2; 3; 9]).

(** A caller's buffer of [n] samples. *)
Definition buf_of (n : nat) : IntBuffer :=
  {| BufFormat := None; Data := repeat 0 n; SourceBitDepth := 0 |}.

(** The start of a WAV file, and an AIFF file after twelve foreign bytes. *)
Definition wav_file : list byte :=
  list_byte_of_string "RIFF" ++ bytes_of [36; 0; 0; 0] ++ list_byte_of_string "WAVE" ++
  list_byte_of_string "fmt " ++
  bytes_of [16; 0; 0; 0; 1; 0; 1; 0; 0x22; 0x56; 0; 0; 0x44; 0xAC; 0; 0; 2; 0; 16; 0] ++
  list_byte_of_string "data" ++ bytes_of [0; 0; 0; 0].

Definition junk_file : list byte :=
  list_byte_of_string "JUNKJUNKJUNK" ++ form_header 44 aiffID ++ comm_16bit ++
  chunk_bytes SSNDID (bytes_of [0; 0; 0; 0; 0; 0; 0; 2; 0; 1]).

(** A COMM chunk whose sample rate decodes to zero, then an unknown chunk
    of four bytes. *)
Definition zero_rate_file : list byte :=
  form_header 42 aiffID ++ chunk_bytes COMMID (comm_body 1 10 16 rate_zero) ++
  chunk_bytes (list_byte_of_string "XXXX") (bytes_of [1; 2; 3; 4]).

(** A file with one comment, "hey". *)
Definition comment_file : list byte :=
  form_header 52 aiffID ++ comm_16bit ++
  chunk_bytes COMTID (bytes_of [0; 1; 0; 0; 0; 0; 0; 0; 0; 0; 3; 104; 101; 121]).

(** An AIFC file whose compression type is "sowt". *)
Definition sowt_comm_body : list byte :=
  comm_body 1 10 16 rate_44100 ++ encSowt ++ bytes_of [0].

Definition sowt_file : list byte :=
  form_header 36 aifcID ++ chunk_bytes COMMID sowt_comm_body ++ [].

(** The decoder of [sowt_file] as the scan finds it at the COMM body. *)
Definition sowt_at_comm : Decoder :=
  snd (iDnSize (snd (readHeaders (NewDecoder (open_stream sowt_file))))).

(** ** Further parts of the package *)

(** [EOF], the method: a nil decoder has reached the end, and so has a
    decoder whose recorded error is [io.EOF]. *)
Definition Decoder_EOF (d : option Decoder) : bool :=
  match d with
  | None => true
  | Some d => is_EOF (err d)
  end.

(** [AppleScaleToString] and [AppleNoteToPitch], on the [uint16] fields of
    [AppleMetadata]. *)
Definition AppleScaleToString (scale : Z) : string :=
  if scale =? 1 then "minor"
  else if scale =? 2 then "major"
  else if scale =? 4 then "minor + major"
  else EmptyString.

Definition AppleNoteToPitch (note : Z) : string :=
  if note =? 48 then "C"
  else if note =? 49 then "C#"
  else if note =? 50 then "D"
  else if note =? 51 then "D#"
  else if note =? 52 then "E"
  else if note =? 53 then "F"
  else if note =? 54 then "F#"
  else if note =? 55 then "G"
  else if note =? 56 then "G#"
  else if note =? 57 then "A"
  else if note =? 58 then "A#"
  else if note =? 59 then "B"
  else EmptyString.

(** *** Layouts the parsers read *)

(** The body of a comment chunk as [parseCommentsChunk] reads it: a 2-byte
    count, then for each comment eight bytes that are passed over, one
    length byte and the text. *)
Definition comment_record (marker text : list byte) : list byte :=
  marker ++ byte_of_Z (len text) :: text.

Definition comments_body (cs : list (list byte * list byte)) : list byte :=
  be_bytes 2 (len cs) ++
  List.concat (map (fun c => comment_record (fst c) (snd c)) cs).

(** What follows the sample rate in the COMM chunk of an AIFC file: the
    compression type, and its name with a length byte in front. *)
Definition aifc_comm_ext (enc name : list byte) : list byte :=
  enc ++ byte_of_Z (len name) :: name.

(** The bytes [nth] sample of [k] bytes each takes in [bs]. *)
Definition sample_bytes (k : Z) (i : nat) (bs : list byte) : list byte :=
  firstn (Z.to_nat k) (skipn (i * Z.to_nat k) bs).

(** The passes of the decode loop of [PCMBuffer] that find a byte to read:
    the samples of [k] bytes in [m] bytes, a started one counted. *)
Definition samples_started (k m : Z) : Z := (m + k - 1) / k.

(** Two decoder states that agree on what the header and the COMM chunk
    decide (the FORM fields, the format fields, the recorded error) and on
    the stream's data and cursor; the request trace, the comments, the
    Apple metadata, the PCM chunk, the byte order and the rewind counter
    may differ. *)
Definition same_format (d1 d2 : Decoder) : Prop :=
  ID d1 = ID d2 /\ Size d1 = Size d2 /\ Form d1 = Form d2 /\
  commSize d1 = commSize d2 /\ NumChans d1 = NumChans d2 /\
  NumSampleFrames d1 = NumSampleFrames d2 /\ BitDepth d1 = BitDepth d2 /\
  SampleRate d1 = SampleRate d2 /\ Encoding d1 = Encoding d2 /\
  EncodingName d1 = EncodingName d2 /\ err d1 = err d2 /\
  data (r d1) = data (r d2) /\ pos (r d1) = pos (r d2).

(** *** Further files and states the decoder is run on *)

(** A file that ends three bytes into a chunk header. *)
Definition tail_file : list byte :=
  form_header 29 aiffID ++ comm_16bit ++ list_byte_of_string "SSN".

(** A file whose last chunk is a comment chunk of the odd size 13, with
    the comment "hi" and no pad byte. *)
Definition cut_comment_file : list byte :=
  form_header 47 aiffID ++ comm_16bit ++
  COMTID ++ be_bytes 4 13 ++ bytes_of [0; 1; 0; 0; 0; 0; 0; 0; 0; 0; 2; 104; 105].

(** The same file with its pad byte: the comment "hi" after a marker of
    eight zero bytes, in a chunk of size 13 made even by one byte. *)
Definition padded_comment_file : list byte :=
  form_header 52 aiffID ++ comm_16bit ++
  COMTID ++ be_bytes 4 13 ++
  (comments_body [(repeat x00 8, list_byte_of_string "hi")] ++ [x00]).

(** A file with an unknown chunk that declares 100 bytes and holds four,
    and one with a comment chunk that declares 14 bytes and holds two. *)
Definition oversize_file : list byte :=
  form_header 16 aiffID ++ list_byte_of_string "XXXX" ++ be_bytes 4 100 ++
  bytes_of [1; 2; 3; 4].

Definition cut_comment_first_file : list byte :=
  form_header 14 aiffID ++ COMTID ++ be_bytes 4 14 ++ bytes_of [0; 1].

(** The decoder of [file24] with the PCM data located: the cursor at the
    four PCM bytes, the chunk's reader letting four bytes through. *)
Definition file24_at_pcm : Decoder :=
  set_PCMChunk
    (Some {| Chunk.ID := SSNDID; Chunk.Size := 12; Chunk.R := 4; Chunk.Pos := 8 |})
    (set_BitDepth 24 (at_pos (NewDecoder (open_stream file24)) 54 [])).

(** A tag slot of fifty bytes holding [s], and two of them: a tag and an
    empty slot. *)
Definition tag_slot (s : string) : list byte :=
  list_byte_of_string s ++ repeat x00 (50 - String.length s).

Definition tag_slots : list (list byte) := [tag_slot "Drums"; tag_slot EmptyString].

(** The four main category slots of a cate chunk, two of them empty, and
    the body of a cate chunk with them and with [tag_slots] as its
    descriptors. *)
Definition cate_main_slots : list (list byte) :=
  [tag_slot "Drums"; tag_slot EmptyString; tag_slot "Rock"; tag_slot EmptyString].

Definition cate_body : list byte :=
  repeat x00 4 ++ List.concat cate_main_slots ++ repeat x00 16 ++
  be_bytes 2 (len tag_slots) ++ List.concat tag_slots.

(** The first sixteen bytes of a basc chunk: version 1, 8 beats, the note
    A, the major scale and the time signature 4/4. *)
Definition basc_fields : list byte :=
  be_bytes 4 1 ++ be_bytes 4 8 ++ be_bytes 2 57 ++ be_bytes 2 2 ++ be_bytes 2 4 ++
  be_bytes 2 4.

(** * Properties *)

(** ** Arithmetic of the integer conversions *)

Lemma to_signed_range w x : 0 < w -> - 2 ^ (w - 1) <= to_signed w x < 2 ^ (w - 1).
Proof.
  intros Hw. unfold to_signed.
  assert (H2 : 2 ^ w = 2 * 2 ^ (w - 1)).
  { replace w with (Z.succ (w - 1)) at 1 by lia.
    rewrite Z.pow_succ_r by lia. reflexivity. }
  assert (Hp : 0 < 2 ^ (w - 1)) by (apply Z.pow_pos_nonneg; lia).
  pose proof (Z.mod_pos_bound x (2 ^ w) ltac:(lia)) as Hm.
  destruct (Z.ltb_spec (x mod 2 ^ w) (2 ^ (w - 1))); lia.
Qed.

Lemma wrap64_small x : - 2 ^ 63 <= x < 2 ^ 63 -> wrap64 x = x.
Proof.
  intros H. unfold wrap64. rewrite Z.mod_small; lia.
Qed.

Lemma wrap32_small x : 0 <= x < 2 ^ 32 -> wrap32 x = x.
Proof.
  intros H. unfold wrap32. apply Z.mod_small. lia.
Qed.

Lemma byte_val_range b : 0 <= byte_val b < 256.
Proof.
  unfold byte_val. pose proof (Byte.to_N_bounded b). lia.
Qed.

Lemma len_nonneg {A} (l : list A) : 0 <= len l.
Proof. unfold len. lia. Qed.

Lemma len_app {A} (l1 l2 : list A) : len (l1 ++ l2) = len l1 + len l2.
Proof. unfold len. rewrite length_app. lia. Qed.

Lemma take_firstn {A} n (l : list A) : take n l = firstn (Z.to_nat n) l.
Proof.
  unfold take, len. destruct (Z.le_gt_cases n (Z.of_nat (List.length l))).
  - rewrite Z.min_l by lia. reflexivity.
  - rewrite Z.min_r by lia. rewrite Nat2Z.id, !firstn_all2 by lia. reflexivity.
Qed.

Lemma drop_skipn {A} n (l : list A) : drop n l = skipn (Z.to_nat n) l.
Proof.
  unfold drop, len. destruct (Z.le_gt_cases n (Z.of_nat (List.length l))).
  - rewrite Z.min_l by lia. reflexivity.
  - rewrite Z.min_r by lia. rewrite Nat2Z.id, !skipn_all2 by lia. reflexivity.
Qed.

Lemma stream_peek_eq n s :
  stream_peek n s =
  if pos s <? 0 then [] else firstn (Z.to_nat n) (skipn (Z.to_nat (pos s)) (data s)).
Proof.
  unfold stream_peek. rewrite take_firstn, drop_skipn. reflexivity.
Qed.

Lemma go_Int24BETo32_int32 bs : - 2 ^ 31 <= go_Int24BETo32 bs < 2 ^ 31.
Proof.
  unfold go_Int24BETo32. destruct (len bs <? 3); [lia|].
  pose proof (to_signed_range 24 (be_uint (firstn 3 bs)) ltac:(lia)).
  simpl in *. lia.
Qed.

Lemma go_Int24LETo32_int32 bs : - 2 ^ 31 <= go_Int24LETo32 bs < 2 ^ 31.
Proof.
  unfold go_Int24LETo32. destruct (len bs <? 3); [lia|].
  pose proof (to_signed_range 24 (le_uint (firstn 3 bs)) ltac:(lia)).
  simpl in *. lia.
Qed.

(** The dependency's conversions fulfil the interface. *)
#[export] Instance go_audio : AudioLib :=
  {| IEEEFloatToInt := go_IEEEFloatToInt;
     Int24BETo32 := go_Int24BETo32;
     Int24LETo32 := go_Int24LETo32;
     Int24BETo32_int32 := go_Int24BETo32_int32;
     Int24LETo32_int32 := go_Int24LETo32_int32 |}.

(** ** Queries on a nil decoder *)

(** C10: on a nil decoder pointer, [SampleBitDepth] returns 0, [PCMLen]
    returns 0, [WasPCMAccessed] returns false, [Format] returns nil,
    [Duration] returns an error (with a zero duration) and [Tempo]
    returns -1; none of them touches a decoder state. *)
Theorem nil_decoder_queries (lib : AudioLib) :
  SampleBitDepth None = 0 /\
  PCMLen None = 0 /\
  WasPCMAccessed None = false /\
  Format None = None /\
  Duration None = ((Nanoseconds 0, Some ErrNilDecoder), None) /\
  Tempo None = (TempoConst (-1), None).
Proof.
  repeat split.
Qed.

(** ** The sample codec table *)

Lemma len_ge_cons {A} (l : list A) (n : Z) :
  n <= len l -> 0 < n -> exists x rest, l = x :: rest /\ n - 1 <= len rest.
Proof.
  intros Hl Hn. destruct l as [|x rest].
  - unfold len in Hl. simpl in Hl. lia.
  - exists x, rest. split; [reflexivity|].
    unfold len in *. change (List.length (x :: rest)) with (S (List.length rest)) in Hl. lia.
Qed.

Ltac take_byte l H x :=
  let rest := fresh "rest" in
  let E := fresh "E" in
  let H' := fresh "H" in
  destruct (len_ge_cons l _ H) as (x & rest & E & H'); [lia|];
  subst l; clear H; rename rest into l; rename H' into H; simpl in H.

(** C3: for each bit depth in 8, 16, 24, 32 and either byte order,
    [sampleDecodeFunc] returns a decode function and no error; run on a
    reader holding at least bit_depth/8 bytes, that function consumes
    exactly these bytes, reports no error and yields the sample they
    encode: signed for 16, 24 and 32 bits, unsigned for 8 bits. For every
    other bit depth [sampleDecodeFunc] returns no function and the error
    that names the depth. *)
Theorem sampleDecodeFunc_table (lib : AudioLib) (bitDepth : Z) (o : ByteOrder) :
  (In bitDepth [8; 16; 24; 32] ->
   exists f, sampleDecodeFunc bitDepth o = (Some f, None) /\
     forall rd buf, bitDepth / 8 <= len rd -> bitDepth / 8 <= len buf ->
       exists v,
         let n := Z.to_nat (bitDepth / 8) in
         f rd buf = ((v, None), (skipn n rd, firstn n rd ++ skipn n buf)) /\
         decoded_sample bitDepth o (firstn n rd) v) /\
  (~ In bitDepth [8; 16; 24; 32] ->
   sampleDecodeFunc bitDepth o = (None, Some (ErrBitDepth bitDepth))).
Proof.
  split.
  - intros Hin. simpl in Hin.
    destruct Hin as [<-|[<-|[<-|[<-|[]]]]].
    + exists decode8. split; [reflexivity|].
      intros rd buf Hr Hb. change (8 / 8) with 1 in *.
      take_byte rd Hr b0. take_byte buf Hb c0.
      eexists. split; [reflexivity|].
      unfold decoded_sample. simpl. split; [reflexivity|].
      pose proof (byte_val_range b0). lia.
    + exists (decode16 o). split; [reflexivity|].
      intros rd buf Hr Hb. change (16 / 8) with 2 in *.
      take_byte rd Hr b0. take_byte rd Hr b1.
      take_byte buf Hb c0. take_byte buf Hb c1.
      eexists. split; [reflexivity|].
      unfold decoded_sample. simpl (_ =? _). cbv iota.
      split; [reflexivity|]. apply (to_signed_range 16). lia.
    + destruct o.
      * exists (decode24 Int24BETo32). split; [reflexivity|].
        intros rd buf Hr Hb. change (24 / 8) with 3 in *.
        take_byte rd Hr b0. take_byte rd Hr b1. take_byte rd Hr b2.
        take_byte buf Hb c0. take_byte buf Hb c1. take_byte buf Hb c2.
        eexists. split; [reflexivity|].
        unfold decoded_sample. simpl (_ =? _). cbv iota.
        split; [reflexivity|]. apply Int24BETo32_int32.
      * exists (decode24 Int24LETo32). split; [reflexivity|].
        intros rd buf Hr Hb. change (24 / 8) with 3 in *.
        take_byte rd Hr b0. take_byte rd Hr b1. take_byte rd Hr b2.
        take_byte buf Hb c0. take_byte buf Hb c1. take_byte buf Hb c2.
        eexists. split; [reflexivity|].
        unfold decoded_sample. simpl (_ =? _). cbv iota.
        split; [reflexivity|]. apply Int24LETo32_int32.
    + exists (decode32 o). split; [reflexivity|].
      intros rd buf Hr Hb. change (32 / 8) with 4 in *.
      take_byte rd Hr b0. take_byte rd Hr b1. take_byte rd Hr b2. take_byte rd Hr b3.
      take_byte buf Hb c0. take_byte buf Hb c1. take_byte buf Hb c2. take_byte buf Hb c3.
      eexists. split; [reflexivity|].
      unfold decoded_sample. simpl (_ =? _). cbv iota.
      split; [reflexivity|]. apply (to_signed_range 32). lia.
  - intros Hnot. simpl in Hnot. unfold sampleDecodeFunc.
    destruct (Z.eqb_spec bitDepth 8); [exfalso; apply Hnot; auto|].
    destruct (Z.eqb_spec bitDepth 16); [exfalso; apply Hnot; auto|].
    destruct (Z.eqb_spec bitDepth 24); [exfalso; apply Hnot; auto|].
    destruct (Z.eqb_spec bitDepth 32); [exfalso; apply Hnot; auto 6|].
    reflexivity.
Qed.

(** ** Bytes and buffers *)

Lemma bytes_eqb_eq a b : bytes_eqb a b = true <-> a = b.
Proof.
  unfold bytes_eqb. destruct (list_eq_dec Byte.byte_eq_dec a b); split; congruence.
Qed.

Lemma bytes_eqb_refl a : bytes_eqb a a = true.
Proof. apply bytes_eqb_eq. reflexivity. Qed.

Lemma bytes_eqb_neq a b : a <> b -> bytes_eqb a b = false.
Proof.
  intros H. destruct (bytes_eqb a b) eqn:E; [|reflexivity].
  apply bytes_eqb_eq in E. contradiction.
Qed.

Lemma len_firstn {A} (n : nat) (l : list A) : len (firstn n l) = Z.min (Z.of_nat n) (len l).
Proof. unfold len. rewrite length_firstn. lia. Qed.

Lemma len_skipn {A} (n : nat) (l : list A) : len (skipn n l) = Z.max 0 (len l - Z.of_nat n).
Proof. unfold len. rewrite length_skipn. lia. Qed.

(** A read from a buffer succeeds exactly when the buffer holds the
    bytes. *)
Lemma read_full_err_firstn (n : Z) (b : list byte) :
  0 <= n ->
  read_full_err n (firstn (Z.to_nat n) b) = None <-> n <= len b.
Proof.
  intros Hn. unfold read_full_err. rewrite len_firstn.
  pose proof (len_nonneg b).
  destruct (Z.eqb_spec (Z.min (Z.of_nat (Z.to_nat n)) (len b)) n) as [E|E].
  - split; [lia|reflexivity].
  - destruct (_ =? 0); split; try discriminate; lia.
Qed.

(** ** The byte order is decided by the COMM chunk *)

Section ByteOrder.
Context `{lib : AudioLib}.

Ltac case_read :=
  match goal with
  | |- context [match read_full_err ?a ?b with _ => _ end] =>
      destruct (read_full_err a b)
  end.

Ltac fields :=
  unfold fail;
  cbn [snd fst byteOrder Form Encoding NumChans set_err set_r set_Encoding
       set_EncodingName set_NumChans set_NumSampleFrames set_BitDepth
       set_SampleRate set_commSize set_byteOrder].

(** The AIFC part switches the order exactly on the code "sowt". *)
Lemma parseCommChunk_aifc_byteOrder src d :
  byteOrder d = BigEndian ->
  (byteOrder (snd (parseCommChunk_aifc src d)) = LittleEndian <->
   firstn 4 src = encSowt).
Proof.
  intros Hbe. unfold parseCommChunk_aifc, buf_Read.
  change (Z.to_nat 4) with 4%nat. change (Z.to_nat 1) with 1%nat.
  destruct (read_full_err 4 (firstn 4 src)) eqn:E4.
  - fields. rewrite Hbe. split; [discriminate|].
    intros Hs. rewrite Hs in E4. discriminate.
  - cbn [Encoding set_Encoding].
    destruct (bytes_eqb (firstn 4 src) encSowt) eqn:Es.
    + apply bytes_eqb_eq in Es. split; [intros _; exact Es|intros _].
      case_read; [reflexivity|].
      destruct (0 <? _); [|reflexivity].
      case_read; reflexivity.
    + assert (Hne : firstn 4 src <> encSowt).
      { intros Hs. apply bytes_eqb_eq in Hs. congruence. }
      split; [|intros Hs; contradiction].
      case_read.
      * fields. rewrite Hbe. discriminate.
      * destruct (0 <? _).
        -- case_read; fields; rewrite Hbe; discriminate.
        -- fields. rewrite Hbe. discriminate.
Qed.

(** Parsing the COMM chunk of a decoder that has no format yet switches
    it to little-endian if and only if the form type is AIFC and the four
    bytes of the compression type, at offset 18 of the chunk body, are
    "sowt". *)
Lemma parseCommChunk_byteOrder size d :
  NumChans d = 0 -> byteOrder d = BigEndian ->
  (byteOrder (snd (parseCommChunk size d)) = LittleEndian <->
   Form d = aifcID /\
   firstn 4 (skipn 18 (stream_peek size (r d))) = encSowt).
Proof.
  intros Hn Hbe.
  assert (Hsrc : fst (fst (io_CopyN size (r d))) = stream_peek size (r d)).
  { unfold io_CopyN. destruct (Z.leb_spec size 0) as [Hs|Hs]; [|reflexivity].
    rewrite stream_peek_eq. replace (Z.to_nat size) with 0%nat by lia.
    destruct (pos (r d) <? 0); reflexivity. }
  unfold parseCommChunk. rewrite Hn. change (0 <? 0) with false. cbv iota.
  destruct (io_CopyN size (r (set_commSize size d))) as [[src e0] s0] eqn:Ecopy.
  change (r (set_commSize size d)) with (r d) in Ecopy.
  rewrite Ecopy in Hsrc. simpl in Hsrc. subst src.
  set (src := stream_peek size (r d)).
  unfold buf_Read.
  change (Z.to_nat 2) with 2%nat. change (Z.to_nat 4) with 4%nat.
  change (Z.to_nat 10) with 10%nat.
  assert (Hno : forall n k, (k + n <= 18)%nat ->
            read_full_err (Z.of_nat n) (firstn n (skipn k src)) <> None ->
            firstn 4 (skipn 18 src) <> encSowt).
  { intros n k Hk Herr Hs. apply Herr.
    assert (Hl : (22 <= List.length src)%nat).
    { assert (H4 : List.length (firstn 4 (skipn 18 src)) = 4%nat) by (rewrite Hs; reflexivity).
      rewrite length_firstn, length_skipn in H4. lia. }
    rewrite <- (Nat2Z.id n) at 2.
    apply read_full_err_firstn; [lia|].
    rewrite len_skipn. unfold len. lia. }
  destruct (read_full_err 2 (firstn 2 src)) eqn:E1.
  { fields. rewrite Hbe. split; [discriminate|]. intros [_ Hs].
    exfalso. revert Hs. apply (Hno 2%nat 0%nat); [lia|]. simpl skipn. change (Z.of_nat 2) with 2. congruence. }
  destruct (read_full_err 4 (firstn 4 (skipn 2 src))) eqn:E2.
  { fields. rewrite Hbe. split; [discriminate|]. intros [_ Hs].
    exfalso. revert Hs. apply (Hno 4%nat 2%nat); [lia|]. change (Z.of_nat 4) with 4. congruence. }
  destruct (read_full_err 2 (firstn 2 (skipn 4 (skipn 2 src)))) eqn:E3.
  { fields. rewrite Hbe. split; [discriminate|]. intros [_ Hs].
    exfalso. revert Hs. rewrite skipn_skipn in E3. apply (Hno 2%nat 6%nat); [lia|].
    change (Z.of_nat 2) with 2. simpl in E3 |- *. congruence. }
  destruct (read_full_err 10 (firstn 10 (skipn 2 (skipn 4 (skipn 2 src))))) eqn:E4.
  { fields. rewrite Hbe. split; [discriminate|]. intros [_ Hs].
    exfalso. revert Hs. rewrite !skipn_skipn in E4. apply (Hno 10%nat 8%nat); [lia|].
    change (Z.of_nat 10) with 10. simpl in E4 |- *. congruence. }
  rewrite !skipn_skipn. change (10 + (2 + (4 + 2)))%nat with 18%nat.
  match goal with |- context [bytes_eqb (Form ?x) aifcID] => set (d4 := x) end.
  assert (Hform : Form d4 = Form d) by reflexivity.
  assert (Hbe4 : byteOrder d4 = BigEndian) by exact Hbe.
  rewrite Hform.
  destruct (bytes_eqb (Form d) aifcID) eqn:Ef.
  - apply bytes_eqb_eq in Ef.
    rewrite (parseCommChunk_aifc_byteOrder _ _ Hbe4). tauto.
  - subst d4. fields. rewrite Hbe. split; [discriminate|]. intros [Hf _].
    apply bytes_eqb_eq in Hf. congruence.
Qed.

Ltac break :=
  repeat match goal with
  | |- context [match ?x with _ => _ end] => destruct x
  end.

(** The steps of the decoder around the COMM parse leave the byte order as
    it is, [Reset] included. *)
Lemma byteOrder_kept d :
  byteOrder (snd (readHeaders d)) = byteOrder d /\
  byteOrder (snd (iDnSize d)) = byteOrder d /\
  (forall n, byteOrder (snd (jumpTo n d)) = byteOrder d) /\
  (forall c, byteOrder (snd (parseCommentsChunk c d)) = byteOrder d) /\
  (forall c, byteOrder (snd (Chunk_Done c d)) = byteOrder d) /\
  byteOrder (Reset d) = byteOrder d.
Proof.
  split; [|split; [|split; [|split; [|split]]]].
  - unfold readHeaders, io_CopyN, stream_read, buf_Read, fail. break; reflexivity.
  - unfold iDnSize, binary_Read, stream_read. break; reflexivity.
  - intros n. unfold jumpTo, stream_Seek. break; reflexivity.
  - intros c. unfold parseCommentsChunk, io_CopyN, stream_read, buf_Read.
    break; reflexivity.
  - intros c. unfold Chunk_Done, stream_read. break; reflexivity.
  - reflexivity.
Qed.

End ByteOrder.

(** ** The scan of [ReadInfo] terminates *)

Section Scan.
Context `{lib : AudioLib}.

Lemma stream_peek_len n s : 0 <= n -> len (stream_peek n s) = Z.min n (remaining s).
Proof.
  intros Hn. rewrite stream_peek_eq. unfold remaining.
  destruct (pos s <? 0); [unfold len; simpl; lia|].
  rewrite len_firstn. lia.
Qed.

Lemma binary_Read_ok n s bs s' :
  0 < n -> binary_Read n s = ((bs, None), s') ->
  data s' = data s /\ pos s' = pos s + n /\ n <= remaining s /\ len bs = n.
Proof.
  intros Hn H. unfold binary_Read, stream_read in H.
  injection H as Hbs He Hs. subst s' bs.
  unfold read_full_err in He.
  destruct (Z.eqb_spec (len (stream_peek n s)) n) as [E|E].
  - cbn [data pos]. rewrite E. repeat split; try reflexivity.
    rewrite stream_peek_len in E by lia. lia.
  - destruct (_ =? 0); discriminate.
Qed.

Lemma iDnSize_data d : data (r (snd (iDnSize d))) = data (r d).
Proof.
  unfold iDnSize, binary_Read, stream_read.
  destruct (read_full_err 4 (stream_peek 4 (r d))); [reflexivity|].
  cbn [r set_err set_r].
  match goal with |- context [read_full_err 4 ?x] => destruct (read_full_err 4 x) end;
    reflexivity.
Qed.

Lemma iDnSize_ok d id size d' :
  iDnSize d = (((id, size), None), d') ->
  data (r d') = data (r d) /\ pos (r d') = pos (r d) + 8 /\ 8 <= remaining (r d).
Proof.
  unfold iDnSize.
  destruct (binary_Read 4 (r d)) as [[idb e1] s1] eqn:E1.
  destruct e1; [discriminate|].
  apply binary_Read_ok in E1; [|lia]. destruct E1 as (Hd1 & Hp1 & Hr1 & _).
  cbn [r set_err set_r].
  destruct (binary_Read 4 s1) as [[szb e2] s2] eqn:E2.
  destruct e2; [discriminate|].
  apply binary_Read_ok in E2; [|lia]. destruct E2 as (Hd2 & Hp2 & Hr2 & _).
  intros H. injection H as _ _ <-. cbn [r set_err set_r].
  repeat split; [congruence|lia|].
  unfold remaining in *. rewrite Hd1, Hp1 in Hr2.
  destruct (Z.ltb_spec (pos (r d)) 0); [lia|].
  destruct (Z.ltb_spec (pos (r d) + 4) 0); [lia|].
  rewrite !len_skipn in *. lia.
Qed.

Lemma io_CopyN_data n s : data (snd (io_CopyN n s)) = data s.
Proof. unfold io_CopyN. destruct (n <=? 0); reflexivity. Qed.

Lemma io_CopyN_pos n s : pos s <= pos (snd (io_CopyN n s)).
Proof.
  unfold io_CopyN. destruct (n <=? 0); cbn [snd pos stream_read]; [lia|].
  pose proof (len_nonneg (stream_peek n s)). lia.
Qed.

Lemma parseCommentsChunk_data c d : data (r (snd (parseCommentsChunk c d))) = data (r d).
Proof.
  unfold parseCommentsChunk. destruct (negb _); [reflexivity|].
  pose proof (io_CopyN_data (Chunk.Size c) (r d)) as H.
  destruct (io_CopyN (Chunk.Size c) (r d)) as [[br e] s]. cbn [snd] in H.
  destruct e; cbn [snd r set_err set_r set_Comments]; [exact H|].
  destruct (buf_Read 2 br) as [[v e] br']. exact H.
Qed.

Lemma parseCommentsChunk_pos c d : pos (r d) <= pos (r (snd (parseCommentsChunk c d))).
Proof.
  unfold parseCommentsChunk. destruct (negb _); [cbn [snd]; lia|].
  pose proof (io_CopyN_pos (Chunk.Size c) (r d)) as H.
  destruct (io_CopyN (Chunk.Size c) (r d)) as [[br e] s]. cbn [snd] in H.
  destruct e; cbn [snd r set_err set_r set_Comments]; [exact H|].
  destruct (buf_Read 2 br) as [[v e] br']. exact H.
Qed.

Lemma jumpTo_ok n d d' :
  jumpTo n d = (None, d') ->
  data (r d') = data (r d) /\ pos (r d) <= pos (r d').
Proof.
  unfold jumpTo, stream_Seek. destruct (Z.ltb_spec 0 n) as [Hn|Hn].
  - change (SeekCurrent =? SeekStart) with false.
    change (SeekCurrent =? SeekCurrent) with true. cbv iota.
    destruct (pos (r d) + n <? 0); [discriminate|].
    intros H. injection H as <-. cbn [r set_r data pos]. split; [reflexivity|lia].
  - intros H. injection H as <-. split; [reflexivity|lia].
Qed.

(** The scan never runs out of the passes [scan_fuel] grants: each pass
    that goes on has consumed the eight bytes of a chunk header. *)
Lemma ReadInfo_scan_enough fuel : forall rewind d,
  (Z.to_nat (len (data (r d)) - pos (r d)) < fuel)%nat ->
  ReadInfo_scan fuel rewind d <> None.
Proof.
  induction fuel as [|fuel IH]; intros rewind d Hf; [lia|].
  cbn [ReadInfo_scan]. destruct (is_EOF (err d)); [discriminate|].
  destruct (iDnSize d) as [[[id size] e] d1] eqn:Ei.
  destruct e; [discriminate|].
  apply iDnSize_ok in Ei. destruct Ei as (Hd1 & Hp1 & Hr1).
  assert (Hrem : (Z.to_nat (len (data (r d1)) - pos (r d1)) <
                  Z.to_nat (len (data (r d)) - pos (r d)))%nat).
  { rewrite Hd1, Hp1. unfold remaining in Hr1.
    destruct (Z.ltb_spec (pos (r d)) 0); [lia|]. rewrite len_skipn in Hr1. lia. }
  destruct (bytes_eqb id COMMID).
  { destruct (parseCommChunk size (set_err None d1)). destruct (0 <? rewind); discriminate. }
  destruct (bytes_eqb id COMTID).
  { match goal with |- context [parseCommentsChunk ?c ?x] =>
      pose proof (parseCommentsChunk_data c x) as Hd2;
      pose proof (parseCommentsChunk_pos c x) as Hp2;
      destruct (parseCommentsChunk c x) as [e2 d2]
    end.
    cbn [snd r set_err] in Hd2, Hp2. apply IH. rewrite Hd2. lia. }
  match goal with |- context [jumpTo ?n ?x] =>
    destruct (jumpTo n x) as [e2 d2] eqn:Ej
  end.
  destruct e2; [discriminate|].
  apply jumpTo_ok in Ej. cbn [r set_err] in Ej. destruct Ej as (Hd2 & Hp2).
  apply IH. cbn [r set_err]. rewrite Hd2. lia.
Qed.

Lemma ReadInfo_scan_terminates rewind d :
  exists d', ReadInfo_scan (scan_fuel d) rewind d = Some d'.
Proof.
  destruct (ReadInfo_scan (scan_fuel d) rewind d) as [d'|] eqn:E.
  - exists d'. reflexivity.
  - exfalso. revert E. apply ReadInfo_scan_enough. unfold scan_fuel. lia.
Qed.

(** More fuel does not change what the scan returns. *)
Lemma ReadInfo_scan_more fuel : forall rewind d d' k,
  ReadInfo_scan fuel rewind d = Some d' ->
  ReadInfo_scan (fuel + k) rewind d = Some d'.
Proof.
  induction fuel as [|fuel IH]; intros rewind d d' k H.
  - cbn [ReadInfo_scan] in H. destruct (is_EOF (err d)) eqn:E; [|discriminate].
    destruct (0 + k)%nat; cbn [ReadInfo_scan]; rewrite E; exact H.
  - cbn [ReadInfo_scan Nat.add] in *. destruct (is_EOF (err d)); [exact H|].
    destruct (iDnSize d) as [[[id size] e] d1].
    destruct e; [exact H|].
    destruct (bytes_eqb id COMMID); [exact H|].
    destruct (bytes_eqb id COMTID).
    { destruct (parseCommentsChunk _ _). apply IH. exact H. }
    destruct (jumpTo _ _) as [e2 d2]. destruct e2; [exact H|].
    apply IH. exact H.
Qed.

(** ** Idempotence of [ReadInfo] *)


End Scan.

(** ** The scan of [ReadInfo] on a laid-out file *)

Lemma firstn_app_len {A} (x rest : list A) : firstn (List.length x) (x ++ rest) = x.
Proof. induction x as [|a x IH]; simpl; [destruct rest|]; congruence. Qed.

Lemma skipn_app_len {A} (x rest : list A) : skipn (List.length x) (x ++ rest) = rest.
Proof. induction x as [|a x IH]; simpl; congruence. Qed.

Lemma byte_val_of_Z z : byte_val (byte_of_Z z) = z mod 256.
Proof.
  unfold byte_val, byte_of_Z.
  pose proof (Z.mod_pos_bound z 256 ltac:(lia)) as Hm.
  destruct (Byte.of_N (Z.to_N (z mod 256))) as [b|] eqn:E.
  - apply Byte.to_of_N in E. rewrite E. lia.
  - pose proof (Byte.to_of_N_option_map (Z.to_N (z mod 256))) as H.
    rewrite E in H. simpl in H.
    destruct (N.leb_spec (Z.to_N (z mod 256)) 255); [discriminate|lia].
Qed.

Lemma be_uint_snoc l b : be_uint (l ++ [b]) = be_uint l * 256 + byte_val b.
Proof. unfold be_uint. rewrite fold_left_app. reflexivity. Qed.

Lemma be_uint_be_bytes n : forall x, 0 <= x < 256 ^ Z.of_nat n -> be_uint (be_bytes n x) = x.
Proof.
  induction n as [|n IH]; intros x Hx.
  - simpl in *. unfold be_uint. simpl. lia.
  - cbn [be_bytes]. rewrite be_uint_snoc, byte_val_of_Z, IH.
    + pose proof (Z.div_mod x 256 ltac:(lia)). lia.
    + rewrite Nat2Z.inj_succ, Z.pow_succ_r in Hx by lia.
      split; [apply Z.div_pos; lia|apply Z.div_lt_upper_bound; lia].
Qed.

Lemma len_be_bytes n x : len (be_bytes n x) = Z.of_nat n.
Proof.
  unfold len. f_equal. revert x. induction n as [|n IH]; intros x; [reflexivity|].
  cbn [be_bytes]. rewrite length_app, IH. simpl. lia.
Qed.

Lemma stream_peek_at s pre x post :
  data s = pre ++ x ++ post -> pos s = len pre -> stream_peek (len x) s = x.
Proof.
  intros Hd Hp. rewrite stream_peek_eq. rewrite Hp, Hd.
  pose proof (len_nonneg pre).
  destruct (Z.ltb_spec (len pre) 0); [lia|].
  unfold len. rewrite !Nat2Z.id, skipn_app_len, firstn_app_len. reflexivity.
Qed.

Lemma binary_Read_at s pre x post :
  data s = pre ++ x ++ post -> pos s = len pre ->
  binary_Read (len x) s =
    ((x, None), {| data := data s; pos := len pre + len x; trace := IORead (len x) :: trace s |}).
Proof.
  intros Hd Hp. unfold binary_Read, stream_read.
  rewrite (stream_peek_at s pre x post Hd Hp). unfold read_full_err.
  rewrite Z.eqb_refl, Hp. reflexivity.
Qed.

Lemma buf_Read_app x rest : buf_Read (len x) (x ++ rest) = ((x, None), rest).
Proof.
  unfold buf_Read.
  replace (Z.to_nat (len x)) with (List.length x) by (unfold len; lia).
  rewrite firstn_app_len, skipn_app_len.
  unfold read_full_err. rewrite Z.eqb_refl. reflexivity.
Qed.

Section ScanLayout.
Context `{lib : AudioLib}.

Lemma set_err_at_pos d p tr : set_err None (at_pos d p tr) = at_pos d p tr.
Proof. reflexivity. Qed.

(** A chunk header found at the cursor. *)
Lemma iDnSize_at d pre id size post p tr :
  data (r d) = pre ++ id ++ be_bytes 4 size ++ post ->
  p = len pre -> len id = 4 -> 0 <= size < 2 ^ 32 ->
  iDnSize (at_pos d p tr) =
    (((id, size), None), at_pos d (p + 8) (IORead 4 :: IORead 4 :: tr)).
Proof.
  intros Hd Hp Hid Hs. subst p. unfold iDnSize.
  replace (binary_Read 4 (r (at_pos d (len pre) tr)))
    with (binary_Read (len id) (r (at_pos d (len pre) tr))) by (rewrite Hid; reflexivity).
  rewrite (binary_Read_at _ pre id (be_bytes 4 size ++ post)); [|exact Hd|reflexivity].
  cbn [r set_r set_err at_pos data trace].
  match goal with |- context [binary_Read 4 ?s] =>
    replace (binary_Read 4 s) with (binary_Read (len (be_bytes 4 size)) s)
      by (rewrite len_be_bytes; reflexivity);
    rewrite (binary_Read_at s (pre ++ id) (be_bytes 4 size) post)
  end.
  - rewrite be_uint_be_bytes by (simpl; lia).
    rewrite len_be_bytes, len_app, Hid. cbn [data trace].
    unfold at_pos. cbn [r set_r set_err data].
    replace (len pre + 4 + Z.of_nat 4) with (len pre + 8) by lia.
    reflexivity.
  - cbn [data]. rewrite Hd, <- app_assoc. reflexivity.
  - cbn [pos]. rewrite len_app. reflexivity.
Qed.

Lemma len_chunk_bytes id body : len id = 4 -> len (chunk_bytes id body) = len body + 8.
Proof.
  intros H. unfold chunk_bytes. rewrite !len_app, len_be_bytes, H. lia.
Qed.

Lemma chunks_size_nonneg cs : 0 <= chunks_size cs.
Proof.
  induction cs as [|c cs IH]; simpl; [lia|].
  pose proof (len_nonneg (snd c)). lia.
Qed.

Lemma chunks_skipped_bounds cs : 0 <= chunks_skipped cs <= chunks_size cs.
Proof.
  induction cs as [|c cs IH]; simpl; [lia|].
  pose proof (len_nonneg (snd c)). destruct (bytes_eqb _ _); lia.
Qed.

(** The scan jumping over the body of a skipped chunk. *)
Lemma jumpTo_at d p size tr :
  0 <= p -> 0 <= size ->
  exists tr', jumpTo size (at_pos d p tr) = (None, at_pos d (p + size) tr').
Proof.
  intros Hp Hs. unfold jumpTo. destruct (Z.ltb_spec 0 size) as [Hpos|Hzero].
  - eexists. unfold stream_Seek.
    change (SeekCurrent =? SeekStart) with false.
    change (SeekCurrent =? SeekCurrent) with true. cbv iota.
    cbn [r at_pos set_r set_err pos data trace].
    destruct (Z.ltb_spec (p + size) 0); [lia|]. reflexivity.
  - exists tr. replace size with 0 by lia. rewrite Z.add_0_r. reflexivity.
Qed.

(** The scan parsing a comment chunk on the spot: the body is consumed and
    only the comments of the decoder change. *)
Lemma parseCommentsChunk_at d pre body post p tr :
  data (r d) = pre ++ body ++ post -> p = len pre ->
  exists cm tr',
    parseCommentsChunk
      {| Chunk.ID := COMTID; Chunk.Size := len body; Chunk.R := len body; Chunk.Pos := 0 |}
      (at_pos d p tr) =
    (None, at_pos (set_Comments cm d) (p + len body) tr').
Proof.
  intros Hd Hp. subst p. unfold parseCommentsChunk. cbn [Chunk.ID Chunk.Size].
  rewrite bytes_eqb_refl. cbn [negb]. unfold io_CopyN.
  destruct (Z.leb_spec (len body) 0) as [Hz|Hz].
  - pose proof (len_nonneg body). replace (len body) with 0 by lia.
    rewrite Z.add_0_r. destruct (buf_Read 2 []) as [[v e] br].
    exists (read_comments (Z.to_nat match e with None => be_uint v | Some _ => 0 end)
              br (Comments d)), tr.
    reflexivity.
  - unfold stream_read.
    rewrite (stream_peek_at (r (at_pos d (len pre) tr)) pre body post Hd eq_refl).
    rewrite Z.eqb_refl. destruct (buf_Read 2 body) as [[v e] br].
    exists (read_comments (Z.to_nat match e with None => be_uint v | Some _ => 0 end)
              br (Comments d)), (IORead (len body) :: tr).
    reflexivity.
Qed.

(** The scan passes over the chunks before the format chunk: a skipped
    chunk adds its size and 8 to the counter and the cursor moves past its
    body; a comment chunk is consumed and changes the comments only. *)
Lemma scan_prefix cs : forall fuel rewind d pre post tr,
  Forall scanned_chunk cs ->
  data (r d) = pre ++ chunks_bytes cs ++ post ->
  SampleRate d = 0 ->
  0 <= rewind -> rewind + chunks_size cs < 2 ^ 63 ->
  exists cm tr',
    ReadInfo_scan (List.length cs + fuel) rewind (at_pos d (len pre) tr) =
    ReadInfo_scan fuel (rewind + chunks_skipped cs)
      (at_pos (set_Comments cm d) (len pre + chunks_size cs) tr') /\
    (Forall (fun c => fst c <> COMTID) cs -> cm = Comments d).
Proof.
  induction cs as [|[id body] cs IH]; intros fuel rewind d pre post tr Hall Hd Hsr Hrw Hmax.
  - exists (Comments d), tr. split; [|reflexivity].
    simpl. rewrite !Z.add_0_r. destruct d. reflexivity.
  - inversion Hall as [|c cs' Hc Hcs]; subst c cs'.
    destruct Hc as (Hid & Hncomm & Hbody). cbn [fst snd] in *.
    pose proof (len_nonneg body) as Hb0.
    pose proof (len_nonneg pre) as Hpre0.
    pose proof (chunks_size_nonneg cs) as Hcs0.
    pose proof (chunks_skipped_bounds cs) as Hsk.
    cbn [chunks_size fold_right snd] in Hmax. fold (chunks_size cs) in Hmax.
    assert (Hd' : data (r d) =
              pre ++ id ++ be_bytes 4 (len body) ++ (body ++ chunks_bytes cs ++ post)).
    { rewrite Hd. unfold chunks_bytes, chunk_bytes. cbn [map List.concat fst snd].
      rewrite <- !app_assoc. reflexivity. }
    assert (Hdn : forall cm, data (r (set_Comments cm d)) =
              (pre ++ chunk_bytes id body) ++ chunks_bytes cs ++ post).
    { intros cm. change (data (r (set_Comments cm d))) with (data (r d)).
      rewrite Hd. unfold chunks_bytes. cbn [map List.concat fst snd].
      rewrite <- !app_assoc. reflexivity. }
    cbn [List.length Nat.add ReadInfo_scan].
    change (is_EOF (err (at_pos d (len pre) tr))) with false. cbv iota.
    rewrite (iDnSize_at d pre id (len body) _ (len pre) tr Hd' eq_refl Hid) by lia.
    rewrite set_err_at_pos. rewrite (bytes_eqb_neq _ _ Hncomm).
    cbn [chunks_size chunks_skipped fold_right fst snd].
    fold (chunks_size cs). fold (chunks_skipped cs).
    destruct (bytes_eqb id COMTID) eqn:Ecomt.
    + (* a comment chunk *)
      apply bytes_eqb_eq in Ecomt. subst id.
      destruct (parseCommentsChunk_at d (pre ++ COMTID ++ be_bytes 4 (len body)) body
                  (chunks_bytes cs ++ post) (len pre + 8)
                  (IORead 4 :: IORead 4 :: tr)) as (cm1 & tr1 & Hparse).
      { rewrite Hd', <- !app_assoc. reflexivity. }
      { rewrite !len_app, len_be_bytes, Hid. lia. }
      rewrite Hparse.
      destruct (IH fuel rewind (set_Comments cm1 d) (pre ++ chunk_bytes COMTID body) post tr1)
        as (cm & tr' & IHeq & _); try assumption; [apply Hdn|lia|].
      rewrite len_app, len_chunk_bytes in IHeq by exact Hid.
      exists cm, tr'. split.
      * replace (len pre + 8 + len body) with (len pre + (len body + 8)) by lia.
        rewrite IHeq. f_equal. f_equal. lia.
      * intros Hno. inversion Hno as [|? ? Hhead _]. cbn in Hhead. congruence.
    + (* a skipped chunk *)
      change (SampleRate (at_pos d (len pre + 8) (IORead 4 :: IORead 4 :: tr)))
        with (SampleRate d).
      rewrite Hsr. change (0 =? 0) with true. cbv iota.
      rewrite (wrap64_small (len body + 8)) by lia.
      rewrite (wrap64_small (rewind + (len body + 8))) by lia.
      destruct (jumpTo_at d (len pre + 8) (len body) (IORead 4 :: IORead 4 :: tr))
        as (tr1 & Hjump); [lia|lia|].
      rewrite Hjump, set_err_at_pos.
      destruct (IH fuel (rewind + (len body + 8)) d (pre ++ chunk_bytes id body) post tr1)
        as (cm & tr' & IHeq & Hcm); try assumption; [apply (Hdn (Comments d))|lia|lia|].
      rewrite len_app, len_chunk_bytes in IHeq by exact Hid.
      exists cm, tr'. split.
      * replace (len pre + 8 + len body) with (len pre + (len body + 8)) by lia.
        rewrite IHeq. f_equal; [lia|]. f_equal. lia.
      * intros Hno. inversion Hno. auto.
Qed.

End ScanLayout.

Section Rewind.
Context `{lib : AudioLib}.

Ltac case_read :=
  match goal with
  | |- context [match read_full_err ?a ?b with _ => _ end] =>
      destruct (read_full_err a b)
  end.

(** What [parseCommChunk] leaves alone, and what it does to the stream:
    one copy of [size] bytes. *)
Lemma parseCommChunk_frame size d :
  NumChans d = 0 ->
  let d' := snd (parseCommChunk size d) in
  r d' = snd (io_CopyN size (r d)) /\ commSize d' = size /\
  Comments d' = Comments d /\ HasAppleInfo d' = HasAppleInfo d /\
  rewindBytes d' = rewindBytes d.
Proof.
  intros Hn. unfold parseCommChunk. rewrite Hn. change (0 <? 0) with false. cbv iota.
  change (r (set_commSize size d)) with (r d).
  destruct (io_CopyN size (r d)) as [[src e0] s0].
  unfold buf_Read, parseCommChunk_aifc, buf_Read, fail.
  repeat first
    [ case_read
    | match goal with
      | |- context [if bytes_eqb ?a ?b then _ else _] => destruct (bytes_eqb a b)
      | |- context [if 0 <? ?a then _ else _] => destruct (0 <? a)
      end ];
    cbn; repeat split.
Qed.

Lemma len_form_header fsize form : len form = 4 -> len (form_header fsize form) = 12.
Proof.
  intros H. unfold form_header. rewrite !len_app, len_be_bytes, H. reflexivity.
Qed.

(** The FORM header of a laid-out file, read by a new decoder. *)
Lemma readHeaders_at fsize form rest :
  0 <= fsize < 2 ^ 32 -> form = aiffID \/ form = aifcID ->
  let d := NewDecoder (open_stream (form_header fsize form ++ rest)) in
  readHeaders d =
    (None, at_pos (set_Form form (set_Size fsize (set_ID formID d))) 12 [IORead 12]).
Proof.
  intros Hs Hform d.
  assert (Hlen : len form = 4) by (destruct Hform; subst form; reflexivity).
  unfold readHeaders. change (0 <? Size d) with false. cbv iota.
  unfold io_CopyN. change (12 <=? 0) with false. cbv iota.
  unfold stream_read.
  assert (Hpeek : stream_peek 12 (r d) = form_header fsize form).
  { rewrite <- (len_form_header fsize form Hlen).
    apply (stream_peek_at _ [] _ rest); reflexivity. }
  rewrite Hpeek, (len_form_header _ _ Hlen). change (12 =? 12) with true. cbv iota.
  unfold form_header.
  change 4 with (len formID) at 1. rewrite buf_Read_app.
  cbn [set_ID ID set_err]. rewrite bytes_eqb_refl. cbn [negb].
  rewrite <- (len_be_bytes 4 fsize) at 1. rewrite buf_Read_app.
  rewrite <- Hlen at 1. rewrite <- (app_nil_r form) at 2. rewrite buf_Read_app.
  rewrite be_uint_be_bytes by (simpl; lia).
  cbn [set_Form Form set_Size set_err].
  assert (Hf : negb (bytes_eqb form aiffID) && negb (bytes_eqb form aifcID) = false).
  { destruct Hform; subst form; reflexivity. }
  rewrite Hf. reflexivity.
Qed.

Lemma len_chunks_bytes cs :
  Forall scanned_chunk cs -> len (chunks_bytes cs) = chunks_size cs.
Proof.
  induction 1 as [|c cs Hc _ IH]; [reflexivity|].
  unfold chunks_bytes in *. cbn [map List.concat chunks_size fold_right].
  fold (chunks_size cs). destruct Hc as (Hid & _).
  rewrite len_app, len_chunk_bytes, IH by exact Hid. lia.
Qed.

Lemma chunks_size_length cs : 8 * Z.of_nat (List.length cs) <= chunks_size cs.
Proof.
  induction cs as [|c cs IH]; [simpl; lia|].
  cbn [chunks_size fold_right List.length]. fold (chunks_size cs).
  pose proof (len_nonneg (snd c)). lia.
Qed.

Lemma chunks_skipped_pos cs :
  Exists (fun c => fst c <> COMTID) cs -> 0 < chunks_skipped cs.
Proof.
  induction 1 as [c cs Hc|c cs _ IH]; cbn [chunks_skipped fold_right];
    fold (chunks_skipped cs); pose proof (chunks_skipped_bounds cs);
    pose proof (len_nonneg (snd c)).
  - rewrite (bytes_eqb_neq _ _ Hc). lia.
  - destruct (bytes_eqb _ _); lia.
Qed.

Lemma chunks_skipped_all cs :
  Forall (fun c => fst c <> COMTID) cs -> chunks_skipped cs = chunks_size cs.
Proof.
  induction 1 as [|c cs Hc _ IH]; [reflexivity|].
  cbn [chunks_skipped chunks_size fold_right].
  fold (chunks_skipped cs). fold (chunks_size cs).
  rewrite (bytes_eqb_neq _ _ Hc), IH. reflexivity.
Qed.

Lemma chunks_size_app cs1 cs2 : chunks_size (cs1 ++ cs2) = chunks_size cs1 + chunks_size cs2.
Proof.
  induction cs1 as [|c cs1 IH]; [reflexivity|].
  cbn [app chunks_size fold_right]. fold (chunks_size (cs1 ++ cs2)). fold (chunks_size cs1).
  rewrite IH. lia.
Qed.

Lemma chunks_skipped_app cs1 cs2 :
  chunks_skipped (cs1 ++ cs2) = chunks_skipped cs1 + chunks_skipped cs2.
Proof.
  induction cs1 as [|c cs1 IH]; [reflexivity|].
  cbn [app chunks_skipped fold_right].
  fold (chunks_skipped (cs1 ++ cs2)). fold (chunks_skipped cs1).
  rewrite IH. destruct (bytes_eqb _ _); lia.
Qed.

Lemma chunks_skipped_none cs :
  Forall (fun c => fst c = COMTID) cs -> chunks_skipped cs = 0.
Proof.
  induction 1 as [|c cs Hc _ IH]; [reflexivity|].
  cbn [chunks_skipped fold_right]. fold (chunks_skipped cs).
  rewrite Hc, bytes_eqb_refl. exact IH.
Qed.

(** The rewind of the format scan, for every layout: a new decoder runs
    [ReadInfo] on a file whose FORM header is followed by chunks other than
    the format chunk, at least one of them not a comment chunk, and then by
    the COMM chunk. Each chunk that is neither the format chunk nor a
    comment chunk adds its size plus 8 to the counter and is skipped: when
    the COMM chunk is reached the decoder differs from the one that read
    the header in its comments and its stream only. The COMM chunk is
    parsed, and the stream is then sought backward, from where the parse
    left it, by exactly the counter plus the size of the COMM chunk plus 8.
    The comment chunks parsed on the way are not in the counter: the cursor
    ends after the header and as many bytes as they take, which is the
    first skipped chunk only when they all come before the skipped
    chunks. *)
Theorem ReadInfo_rewinds_skipped_chunks fsize form cs cbody rest :
  0 <= fsize < 2 ^ 32 -> form = aiffID \/ form = aifcID ->
  Forall scanned_chunk cs -> Exists (fun c => fst c <> COMTID) cs ->
  len cbody < 2 ^ 32 ->
  let file := form_header fsize form ++ chunks_bytes cs ++
              chunk_bytes COMMID cbody ++ rest in
  len file < 2 ^ 63 ->
  let dh := set_Form form (set_Size fsize (set_ID formID (NewDecoder (open_stream file)))) in
  let d' := ReadInfo (NewDecoder (open_stream file)) in
  let back := chunks_skipped cs + len cbody + 8 in
  (exists cm tr,
     d' = let d1 := snd (parseCommChunk (len cbody)
                          (at_pos (set_Comments cm dh) (12 + chunks_size cs + 8) tr)) in
          set_r (snd (stream_Seek (- back) SeekCurrent (r d1))) d1) /\
  hd_error (trace (r d')) = Some (IOSeek (- back) SeekCurrent) /\
  pos (r d') = 12 + (chunks_size cs - chunks_skipped cs) /\
  commSize d' = len cbody /\ HasAppleInfo d' = false /\ rewindBytes d' = 0 /\
  (forall cs1 cs2,
     cs = cs1 ++ cs2 ->
     Forall (fun c => fst c = COMTID) cs1 -> Forall (fun c => fst c <> COMTID) cs2 ->
     pos (r d') = 12 + chunks_size cs1) /\
  (Forall (fun c => fst c <> COMTID) cs -> Comments d' = []).
Proof.
  intros Hfs Hform Hcs Hex Hcb file Hfile dh d' back.
  assert (Hlenf : len form = 4) by (destruct Hform; subst form; reflexivity).
  pose proof (len_nonneg cbody) as Hcb0.
  pose proof (len_nonneg rest) as Hrest0.
  pose proof (chunks_size_nonneg cs) as Hsz0.
  pose proof (chunks_size_length cs) as Hszl.
  pose proof (chunks_skipped_bounds cs) as Hskb.
  pose proof (chunks_skipped_pos cs Hex) as Hpos.
  assert (Hflen : len file = 12 + chunks_size cs + (len cbody + 8) + len rest).
  { unfold file. rewrite !len_app, (len_form_header _ _ Hlenf), (len_chunks_bytes _ Hcs),
      len_chunk_bytes by reflexivity. lia. }
  assert (Hdata : data (r dh) = form_header fsize form ++ chunks_bytes cs ++
                                (chunk_bytes COMMID cbody ++ rest)) by reflexivity.
  (* the scan's fuel covers the chunks before the COMM chunk, and that chunk *)
  assert (Hfuel : exists k, scan_fuel (at_pos dh 12 [IORead 12]) = (List.length cs + S k)%nat).
  { exists (Z.to_nat (len file - 12) - List.length cs)%nat.
    unfold scan_fuel. cbn [r at_pos set_r set_err data pos].
    change (data (r dh)) with file. lia. }
  destruct Hfuel as (k & Hfuel).
  assert (Hrun : d' = match ReadInfo_scan (List.length cs + S k) 0 (at_pos dh 12 [IORead 12]) with
                      | Some x => x | None => at_pos dh 12 [IORead 12] end).
  { unfold d', ReadInfo. change (0 <? SampleRate (NewDecoder (open_stream file))) with false.
    cbv iota. unfold file at 1.
    rewrite (readHeaders_at fsize form _ Hfs Hform).
    fold file. fold dh. rewrite set_err_at_pos, Hfuel. reflexivity. }
  destruct (scan_prefix cs (S k) 0 dh (form_header fsize form)
              (chunk_bytes COMMID cbody ++ rest) [IORead 12] Hcs Hdata eq_refl
              ltac:(lia) ltac:(lia)) as (cm & tr & Hskip & Hcm).
  rewrite (len_form_header _ _ Hlenf) in Hskip. rewrite Hskip in Hrun. clear Hskip.
  rewrite Z.add_0_l in Hrun.
  (* the COMM chunk *)
  cbn [ReadInfo_scan] in Hrun.
  change (is_EOF (err (at_pos (set_Comments cm dh) (12 + chunks_size cs) tr)))
    with false in Hrun.
  cbv iota in Hrun.
  assert (Hd2 : data (r (set_Comments cm dh)) =
                (form_header fsize form ++ chunks_bytes cs) ++ COMMID ++
                be_bytes 4 (len cbody) ++ (cbody ++ rest)).
  { change (data (r (set_Comments cm dh))) with (data (r dh)).
    rewrite Hdata. unfold chunk_bytes. rewrite <- !app_assoc. reflexivity. }
  rewrite (iDnSize_at (set_Comments cm dh) _ COMMID (len cbody) _ (12 + chunks_size cs) tr Hd2)
    in Hrun;
    [|rewrite len_app, (len_form_header _ _ Hlenf), (len_chunks_bytes _ Hcs); reflexivity
     |reflexivity|lia].
  rewrite set_err_at_pos, bytes_eqb_refl in Hrun.
  set (d0 := at_pos (set_Comments cm dh) (12 + chunks_size cs + 8)
               (IORead 4 :: IORead 4 :: tr)) in Hrun.
  destruct (parseCommChunk (len cbody) d0) as [e1 d1] eqn:Eparse.
  assert (Hd1 : d1 = snd (parseCommChunk (len cbody) d0)) by (rewrite Eparse; reflexivity).
  apply Z.ltb_lt in Hpos. rewrite Hpos in Hrun.
  rewrite (wrap64_small (chunks_skipped cs + len cbody)) in Hrun by lia.
  rewrite (wrap64_small (chunks_skipped cs + len cbody + 8)) in Hrun by lia.
  rewrite (wrap64_small (- (chunks_skipped cs + len cbody + 8))) in Hrun by lia.
  fold back in Hrun.
  destruct (parseCommChunk_frame (len cbody) d0 eq_refl) as (Hr & Hcomm & Hcmt & Happle & Hrw).
  rewrite <- Hd1 in Hr, Hcomm, Hcmt, Happle, Hrw.
  (* the stream after the parse: the body has been copied *)
  assert (Hs1 : data (r d1) = file /\ pos (r d1) = 12 + chunks_size cs + 8 + len cbody).
  { rewrite Hr. unfold io_CopyN, stream_read.
    assert (Hpeek : stream_peek (len cbody) (r d0) = cbody).
    { apply (stream_peek_at _ ((form_header fsize form ++ chunks_bytes cs) ++ COMMID ++
                                be_bytes 4 (len cbody)) _ rest).
      - cbn [r d0 at_pos set_r set_err data]. rewrite Hd2, <- !app_assoc. reflexivity.
      - cbn [r d0 at_pos set_r set_err pos].
        rewrite !len_app, (len_form_header _ _ Hlenf), (len_chunks_bytes _ Hcs),
          len_be_bytes. change (len COMMID) with 4. lia. }
    destruct (len cbody <=? 0) eqn:Ez.
    - apply Z.leb_le in Ez. cbn [snd]. split; [reflexivity|].
      cbn [r d0 at_pos set_r set_err pos]. lia.
    - rewrite Hpeek. cbn [snd data pos]. split; reflexivity. }
  destruct Hs1 as (Hdata1 & Hpos1).
  set (p' := 12 + (chunks_size cs - chunks_skipped cs)).
  assert (Hseek : stream_Seek (- back) SeekCurrent (r d1) =
                  ((p', None), {| data := file; pos := p';
                                  trace := IOSeek (- back) SeekCurrent :: trace (r d1) |})).
  { unfold stream_Seek.
    change (SeekCurrent =? SeekStart) with false.
    change (SeekCurrent =? SeekCurrent) with true. cbv iota.
    rewrite Hpos1, Hdata1.
    replace (12 + chunks_size cs + 8 + len cbody + - back) with p' by (unfold back, p'; lia).
    destruct (Z.ltb_spec p' 0); [unfold p' in *; lia|]. reflexivity. }
  rewrite Hseek in Hrun. cbn [snd] in Hrun.
  split.
  { exists cm, (IORead 4 :: IORead 4 :: tr). fold d0. rewrite <- Hd1. cbv zeta.
    rewrite Hseek. exact Hrun. }
  rewrite Hrun. cbn [r set_r trace pos hd_error commSize Comments HasAppleInfo rewindBytes].
  split; [reflexivity|]. split; [reflexivity|]. split; [exact Hcomm|].
  split; [exact Happle|]. split; [exact Hrw|].
  split.
  - intros cs1 cs2 Hsplit Hc1 Hc2. unfold p'.
    rewrite Hsplit, chunks_size_app, chunks_skipped_app,
      (chunks_skipped_none _ Hc1), (chunks_skipped_all _ Hc2). lia.
  - intros Hno. rewrite Hcmt. cbn [d0 at_pos set_err set_r Comments set_Comments].
    rewrite (Hcm Hno). reflexivity.
Qed.

(** C4: a new decoder reads samples big-endian. Parsing the COMM chunk of
    a decoder that has no format yet switches it to little-endian if and
    only if the form type is AIFC and the four bytes of the compression
    type, at offset 18 of the chunk body, are "sowt"; otherwise it stays
    big-endian. So [ReadInfo], run by a new decoder on a file whose FORM
    header is followed by the COMM chunk, leaves the decoder little-endian
    exactly when the file is AIFC with the compression type "sowt". The
    order is a field of the decoder state: [PCMBuffer] takes it from there
    and has no parameter for it. *)
Theorem byteOrder_little_endian_iff_sowt :
  (forall s, byteOrder (NewDecoder s) = BigEndian) /\
  (forall size d,
     NumChans d = 0 -> byteOrder d = BigEndian ->
     (byteOrder (snd (parseCommChunk size d)) = LittleEndian <->
      Form d = aifcID /\
      firstn 4 (skipn 18 (stream_peek size (r d))) = encSowt)) /\
  (forall fsize form cbody rest,
     0 <= fsize < 2 ^ 32 -> form = aiffID \/ form = aifcID -> len cbody < 2 ^ 32 ->
     let file := form_header fsize form ++ chunk_bytes COMMID cbody ++ rest in
     (byteOrder (ReadInfo (NewDecoder (open_stream file))) = LittleEndian <->
      form = aifcID /\ firstn 4 (skipn 18 cbody) = encSowt)).
Proof.
  split; [reflexivity|]. split; [exact parseCommChunk_byteOrder|].
  intros fsize form cbody rest Hfs Hform Hcb file.
  assert (Hlenf : len form = 4) by (destruct Hform; subst form; reflexivity).
  pose proof (len_nonneg cbody) as Hcb0.
  set (dh := set_Form form (set_Size fsize (set_ID formID (NewDecoder (open_stream file))))).
  assert (Hdata : data (r dh) = form_header fsize form ++ COMMID ++
                                be_bytes 4 (len cbody) ++ (cbody ++ rest)).
  { unfold dh, file, chunk_bytes. cbn [r set_Form set_Size set_ID NewDecoder open_stream data].
    rewrite <- !app_assoc. reflexivity. }
  set (d0 := at_pos dh 20 [IORead 4; IORead 4; IORead 12]).
  assert (Hrun : ReadInfo (NewDecoder (open_stream file)) =
                 snd (parseCommChunk (len cbody) d0)).
  { unfold ReadInfo. change (0 <? SampleRate (NewDecoder (open_stream file))) with false.
    cbv iota. unfold file at 1.
    rewrite (readHeaders_at fsize form _ Hfs Hform).
    fold file. fold dh. rewrite set_err_at_pos.
    unfold scan_fuel. cbn [ReadInfo_scan].
    change (is_EOF (err (at_pos dh 12 [IORead 12]))) with false. cbv iota.
    rewrite (iDnSize_at dh (form_header fsize form) COMMID (len cbody) _ 12 [IORead 12] Hdata);
      [|rewrite (len_form_header _ _ Hlenf); reflexivity|reflexivity|lia].
    rewrite set_err_at_pos, bytes_eqb_refl.
    change (12 + 8) with 20. fold d0.
    destruct (parseCommChunk (len cbody) d0) as [e1 d1].
    change (0 <? 0) with false. reflexivity. }
  rewrite Hrun.
  rewrite (parseCommChunk_byteOrder (len cbody) d0 eq_refl eq_refl).
  assert (Hpeek : stream_peek (len cbody) (r d0) = cbody).
  { apply (stream_peek_at _ (form_header fsize form ++ COMMID ++ be_bytes 4 (len cbody)) _ rest).
    - cbn [r d0 at_pos set_r set_err data]. rewrite Hdata, <- !app_assoc. reflexivity.
    - cbn [r d0 at_pos set_r set_err pos].
      rewrite !len_app, (len_form_header _ _ Hlenf), len_be_bytes.
      change (len COMMID) with 4. reflexivity. }
  rewrite Hpeek. change (Form d0) with form. reflexivity.
Qed.

End Rewind.

(** ** Runs on concrete files *)

(** Witness of [ReadInfo_rewinds_skipped_chunks]: the out-of-order file
    [late_comm_file], which has no comment chunk. *)
Lemma ReadInfo_rewinds_skipped_chunks_witness :
  (Forall scanned_chunk late_comm_chunks /\
   Exists (fun c => fst c <> COMTID) late_comm_chunks /\
   Forall (fun c => fst c <> COMTID) late_comm_chunks /\
   len late_comm_file < 2 ^ 63) /\
  pos (r (ReadInfo (NewDecoder (open_stream late_comm_file)))) = 12 /\
  hd_error (trace (r (ReadInfo (NewDecoder (open_stream late_comm_file))))) =
    Some (IOSeek (- 38) SeekCurrent).
Proof.
  assert (H1 : Forall scanned_chunk late_comm_chunks).
  { repeat constructor; cbn; try discriminate. }
  assert (H2 : Exists (fun c => fst c <> COMTID) late_comm_chunks).
  { constructor. cbn. discriminate. }
  assert (H2' : Forall (fun c => fst c <> COMTID) late_comm_chunks).
  { repeat constructor. cbn. discriminate. }
  assert (H3 : len late_comm_file < 2 ^ 63) by reflexivity.
  split; [auto|].
  destruct (ReadInfo_rewinds_skipped_chunks (lib := go_audio) 58 aiffID late_comm_chunks
              (comm_body 1 10 16 rate_44100) late_comm_rest
              ltac:(lia) (or_introl eq_refl) H1 H2 ltac:(reflexivity) H3)
    as (_ & Htr & _ & _ & _ & _ & Hpos & _).
  split; [|exact Htr].
  exact (Hpos [] late_comm_chunks eq_refl (Forall_nil _) H2').
Defined.

(** Witness of [sampleDecodeFunc_table]: the 16-bit big-endian bytes
    ff fe decode to -2, and 12 bits have no codec. *)
Lemma sampleDecodeFunc_table_witness :
  (In 16 [8; 16; 24; 32] /\ ~ In 12 [8; 16; 24; 32]) /\
  (exists f v,
     sampleDecodeFunc (lib := go_audio) 16 BigEndian = (Some f, None) /\
     f (bytes_of [0xff; 0xfe]) (bytes_of [0; 0]) =
       ((v, None), ([], bytes_of [0xff; 0xfe])) /\ v = -2) /\
  sampleDecodeFunc (lib := go_audio) 12 BigEndian = (None, Some (ErrBitDepth 12)).
Proof.
  assert (H16 : In 16 [8; 16; 24; 32]) by (simpl; auto).
  assert (H12 : ~ In 12 [8; 16; 24; 32]).
  { simpl. intros [H|[H|[H|[H|[]]]]]; discriminate. }
  split; [auto|]. split.
  - destruct (sampleDecodeFunc_table go_audio 16 BigEndian) as [Hyes _].
    destruct (Hyes H16) as (f & Hf & Hrun).
    destruct (Hrun (bytes_of [0xff; 0xfe]) (bytes_of [0; 0])
                ltac:(reflexivity) ltac:(reflexivity)) as (v & Hv & Hdec).
    exists f, v. split; [exact Hf|]. split; [exact Hv|].
    destruct Hdec as [Hval _]. exact Hval.
  - destruct (sampleDecodeFunc_table go_audio 12 BigEndian) as [_ Hno].
    exact (Hno H12).
Defined.

(** Witness of [byteOrder_little_endian_iff_sowt]: the COMM chunk of
    [sowt_file] switches the decoder to little-endian. *)
Lemma byteOrder_little_endian_iff_sowt_witness :
  (NumChans sowt_at_comm = 0 /\ byteOrder sowt_at_comm = BigEndian /\
   len sowt_comm_body < 2 ^ 32) /\
  byteOrder (snd (parseCommChunk (lib := go_audio) 23 sowt_at_comm)) = LittleEndian /\
  byteOrder (ReadInfo (lib := go_audio) (NewDecoder (open_stream sowt_file))) =
    LittleEndian.
Proof.
  split; [repeat split|].
  destruct (byteOrder_little_endian_iff_sowt (lib := go_audio)) as (_ & Hparse & Hfile).
  split.
  - apply (Hparse 23 sowt_at_comm eq_refl eq_refl). split; reflexivity.
  - apply (Hfile 36 aifcID sowt_comm_body [] ltac:(lia) (or_intror eq_refl)
             ltac:(reflexivity)).
    split; reflexivity.
Defined.


(** Evaluating a run, and a conjunction of runs one after the other. *)
Ltac run := vm_compute; reflexivity.
Ltac runs := repeat match goal with |- _ /\ _ => split; [run|] end.

(** ** A comment chunk between a skipped chunk and the format chunk *)

(** C1, on [comment_between_file]: the scan skips the chunk XXXX (counter
    12), parses the comment chunk in place, parses the COMM chunk of 18
    bytes and seeks backward by exactly 12 + 18 + 8. The bytes of the
    comment chunk are not in the counter, so the cursor is left at byte
    34, inside the comment chunk, not at byte 12 where the skipped chunk
    starts: the skipped chunk is not positioned to be visited again, and
    the next chunk [NextChunk] returns is made of bytes of the comment
    (four zero bytes for an identifier), read at byte 34. *)
Theorem ReadInfo_rewind_misses_comment_chunk :
  let d := ReadInfo (NewDecoder (open_stream comment_between_file)) in
  hd_error (trace (r d)) = Some (IOSeek (- 38) SeekCurrent) /\
  pos (r d) = 34 /\ pos (r d) <> 12 /\
  fst (NextChunk d) =
    (Some {| Chunk.ID := zero4; Chunk.Size := 0; Chunk.R := 0; Chunk.Pos := 0 |},
     None) /\
  pos (r (snd (NextChunk d))) = 42.
Proof.
  cbv zeta. split; [run|]. split; [run|]. split; [vm_compute; discriminate|].
  split; run.
Qed.

(** ** The drain loop's own rewind counter *)

Section Dispatch.
Context `{lib : AudioLib}.

Lemma Chunk_Done_rewindBytes c d : rewindBytes (snd (Chunk_Done c d)) = rewindBytes d.
Proof.
  unfold Chunk_Done. destruct (_ && _); [|reflexivity].
  destruct (stream_read _ _). reflexivity.
Qed.

(** What the default branch of [parseChunk] adds to the counter for a
    chunk it does not know: the chunk's size, without the eight bytes of
    the header. *)
Lemma parseChunk_unknown_rewindBytes c d :
  ~ In (Chunk.ID c) [COMMID; SSNDID; COMTID; bascID; chanID; trnsID; cateID] ->
  rewindBytes (snd (parseChunk (Some c) d)) =
    if SampleRate d =? 0 then wrap64 (rewindBytes d + Chunk.Size c)
    else rewindBytes d.
Proof.
  intros Hid. unfold parseChunk.
  repeat match goal with
  | |- context [bytes_eqb (Chunk.ID c) ?x] =>
      rewrite (bytes_eqb_neq (Chunk.ID c) x) by (intros E; apply Hid; rewrite E; simpl; tauto)
  end.
  cbn [snd]. rewrite Chunk_Done_rewindBytes.
  destruct (SampleRate d =? 0); reflexivity.
Qed.

End Dispatch.

(** C2, on [zero_rate_file]: the COMM chunk, found first, leaves the
    sample rate at zero, and the drain loop then dispatches the unknown
    chunk XXXX, of size 4, with the format still unknown. The counter goes
    from 0 to 4, not to 4 + 8, and that is what the decoder holds when
    [Drain] returns. *)
Theorem drain_counts_unknown_chunk_without_its_header :
  let step := NextChunk (NewDecoder (open_stream zero_rate_file)) in
  fst step =
    (Some {| Chunk.ID := list_byte_of_string "XXXX"; Chunk.Size := 4;
             Chunk.R := 4; Chunk.Pos := 0 |}, None) /\
  SampleRate (snd step) = 0 /\
  rewindBytes (snd step) = 0 /\
  rewindBytes (snd (parseChunk (fst (fst step)) (snd step))) = 4 /\
  exists e d,
    Drain 10 (NewDecoder (open_stream zero_rate_file)) = Returns (Some e, d) /\
    rewindBytes d = 4.
Proof.
  cbv zeta. runs.
  eexists _, _. runs. run.
Qed.

(** ** Odd chunk sizes *)

Section Padding.
Context `{lib : AudioLib}.

Lemma decoder_at_pos d : err d = None -> d = at_pos d (pos (r d)) (trace (r d)).
Proof.
  intros H. destruct d as [s ? ? ? ? ? ? ? ? ? ? ? ? ? ? ? e ? ? ?].
  destruct s. cbn in *. subst e. reflexivity.
Qed.

(** Once the format is known, [NextChunk] itself accounts for the pad
    byte: the chunk it returns for an odd declared size is one byte
    longer, the bounded reader with it. *)
Lemma NextChunk_pads_odd_size d pre id size post :
  0 < SampleRate d -> err d = None ->
  data (r d) = pre ++ id ++ be_bytes 4 size ++ post -> pos (r d) = len pre ->
  len id = 4 -> 0 <= size < 2 ^ 32 - 1 -> size mod 2 = 1 ->
  fst (NextChunk d) =
    (Some {| Chunk.ID := id; Chunk.Size := size + 1; Chunk.R := size + 1;
             Chunk.Pos := 0 |}, None) /\
  pos (r (snd (NextChunk d))) = len pre + 8.
Proof.
  intros Hsr Herr Hd Hp Hid Hs Hodd. unfold NextChunk.
  assert (Hri : ReadInfo d = d).
  { unfold ReadInfo. apply Z.ltb_lt in Hsr. rewrite Hsr. reflexivity. }
  rewrite Hri, Herr.
  rewrite (decoder_at_pos d Herr).
  rewrite (iDnSize_at d pre id size post (pos (r d)) (trace (r d)) Hd Hp Hid) by lia.
  rewrite Hodd. change (1 =? 0) with false. cbn [negb].
  rewrite wrap32_small by lia. cbn [fst snd r set_err at_pos set_r pos].
  split; [reflexivity|lia].
Qed.

End Padding.

(** C5, on [odd_file]: a NAME chunk of declared size 1 and its pad byte
    precede the COMM chunk. The first [NextChunk] runs the scan of
    [ReadInfo], which skips the one declared byte only ([IOSeek 1]) and
    reads the next header from the pad byte on: the size it finds is
    0x4D000000, and the format is never found. With a NAME chunk of size 2
    the same call returns that chunk, the format known. *)
Theorem odd_chunk_before_COMM_misaligns_scan :
  let odd := NextChunk (NewDecoder (open_stream odd_file)) in
  let even := NextChunk (NewDecoder (open_stream even_file)) in
  fst odd =
    (None, Some (Errorf "failed to read info" (Errorf "error reading chunk header" EOF))) /\
  SampleRate (snd odd) = 0 /\
  trace (r (snd odd)) =
    [IORead 4; IOSeek 0x4D000000 SeekCurrent; IORead 4; IORead 4;
     IOSeek 1 SeekCurrent; IORead 4; IORead 4; IORead 12] /\
  fst even =
    (Some {| Chunk.ID := list_byte_of_string "NAME"; Chunk.Size := 2;
             Chunk.R := 2; Chunk.Pos := 0 |}, None) /\
  SampleRate (snd even) = 44100.
Proof.
  cbv zeta. runs. run.
Qed.

(** The increment of [NextChunk] wraps: a declared size of 0xFFFFFFFF
    comes back as a chunk of size 0. *)
Lemma NextChunk_size_wraps :
  fst (NextChunk (ReadInfo (NewDecoder (open_stream
         (form_header 30 aiffID ++ comm_16bit ++
          list_byte_of_string "NAME" ++ bytes_of [255; 255; 255; 255]))))) =
    (Some {| Chunk.ID := list_byte_of_string "NAME"; Chunk.Size := 0;
             Chunk.R := 0; Chunk.Pos := 0 |}, None).
Proof.
  vm_compute. reflexivity.
Qed.

(** ** The count [PCMBuffer] returns *)

Section PCMBounds.
Context `{lib : AudioLib}.

Lemma stream_peek_at_most n s : len (stream_peek n s) <= Z.max 0 n.
Proof.
  rewrite stream_peek_eq. destruct (pos s <? 0); [unfold len; simpl; lia|].
  rewrite len_firstn. lia.
Qed.

Lemma PCMBuffer_loop_at_most todo : forall n decodeF misaligned bufR sampleBuf dat,
  fst (fst (PCMBuffer_loop todo n decodeF misaligned bufR sampleBuf dat))
    <= n + Z.of_nat todo.
Proof.
  induction todo as [|todo IH]; intros n decodeF misaligned bufR sampleBuf dat.
  - simpl. lia.
  - cbn [PCMBuffer_loop].
    destruct (decodeF bufR sampleBuf) as [[v e] [bufR' sampleBuf']].
    destruct e.
    + cbn [fst]. destruct misaligned; lia.
    + specialize (IH (n + 1) decodeF misaligned bufR' sampleBuf' (store (Z.to_nat n) v dat)).
      lia.
Qed.

Lemma sampleDecodeFunc_supported bitDepth o :
  In bitDepth [8; 16; 24; 32] ->
  exists f, sampleDecodeFunc bitDepth o = (Some f, None).
Proof.
  intros Hin. simpl in Hin.
  destruct Hin as [<-|[<-|[<-|[<-|[]]]]]; try (eexists; reflexivity).
  destruct o; eexists; reflexivity.
Qed.

(** What holds of every call of [PCMBuffer] on a located PCM chunk: it
    reads at most as many raw bytes as the buffer has room for, and it
    counts at most as many samples as the buffer holds. *)
Lemma PCMBuffer_read_at_most buf d n e m b d' :
  In (BitDepth d) [8; 16; 24; 32] ->
  PCMBuffer_read buf d = Returns (((n, e), m), (b, d')) ->
  0 <= m <= len (Data buf) * bytesPerSample (BitDepth d) /\ n <= len (Data buf).
Proof.
  intros Hin. unfold PCMBuffer_read. cbn [SourceBitDepth Data].
  destruct (sampleDecodeFunc_supported (BitDepth d) (byteOrder d) Hin) as (f & Hf).
  rewrite Hf. destruct (PCMChunk d) as [c|]; [|discriminate].
  set (L := len (Data buf)). set (bps := bytesPerSample (BitDepth d)).
  assert (Hbps : 0 < bps).
  { unfold bps, bytesPerSample. simpl in Hin.
    destruct Hin as [<-|[<-|[<-|[<-|[]]]]]; reflexivity. }
  assert (HL : 0 <= L) by apply len_nonneg.
  unfold Chunk_R_Read, limited_Read.
  destruct (Chunk.R c <=? 0) eqn:Elim.
  - cbn [is_EOF]. intros H. injection H as <- _ <- _ _. unfold len. simpl. nia.
  - apply Z.leb_gt in Elim. unfold stream_read.
    pose proof (stream_peek_at_most (Z.min (L * bps) (Chunk.R c)) (r d)) as Hpk.
    pose proof (len_nonneg (stream_peek (Z.min (L * bps) (Chunk.R c)) (r d))) as Hpk0.
    destruct (len (data (r d)) <=? pos (r d)).
    + cbn [is_EOF]. intros H. injection H as <- _ <- _ _. unfold len. simpl. nia.
    + set (tmpBuf := stream_peek (Z.min (L * bps) (Chunk.R c)) (r d)) in *.
      destruct (len tmpBuf =? 0) eqn:Em.
      * intros H. injection H as <- _ <- _ _. nia.
      * pose proof (PCMBuffer_loop_at_most (List.length (Data buf)) 0 f
                      (0 <? len tmpBuf mod bps) tmpBuf (repeat x00 (Z.to_nat bps)) (Data buf))
          as Hloop.
        destruct (PCMBuffer_loop _ _ _ _ _ _ _) as [[n1 e1] dat].
        cbn [fst] in Hloop. intros H. injection H as <- _ <- _ _.
        fold L in Hloop. unfold L, len in *. nia.
Qed.

(** An exhausted PCM chunk is reported with a count of zero and no
    error. *)
Lemma PCMBuffer_read_exhausted buf d c :
  In (BitDepth d) [8; 16; 24; 32] ->
  PCMChunk d = Some c -> Chunk.R c <= 0 ->
  exists b d', PCMBuffer_read buf d = Returns (((0, None), 0), (b, d')).
Proof.
  intros Hin Hc Hlim. unfold PCMBuffer_read. cbn [SourceBitDepth Data].
  destruct (sampleDecodeFunc_supported (BitDepth d) (byteOrder d) Hin) as (f & Hf).
  rewrite Hf, Hc. unfold Chunk_R_Read, limited_Read.
  apply Z.leb_le in Hlim. rewrite Hlim. cbn [is_EOF]. eexists _, _. reflexivity.
Qed.

End PCMBounds.

(** C6, on [file24]: the sound data holds four PCM bytes of 24-bit
    samples, one sample and a stray byte. [PCMBuffer] with a buffer of two
    samples reads the four bytes (not a multiple of three) and returns 2:
    the partial sample, which fills the last slot of the buffer, is counted.
    With a buffer of three samples it returns 1. *)
Theorem PCMBuffer_counts_partial_sample :
  (exists d0 b d,
     FwdToPCM 10 (NewDecoder (open_stream file24)) = Returns (None, d0) /\
     bytesPerSample (BitDepth d0) = 3 /\
     PCMBuffer_read (buf_of 2) d0 = Returns (((2, None), 4), (b, d)) /\
     Data b = [0x010203; 0x090203]) /\
  (exists b d,
     PCMBuffer 10 (Some (buf_of 2)) (NewDecoder (open_stream file24)) =
       Returns ((2, None), (Some b, d))) /\
  (exists b d,
     PCMBuffer 10 (Some (buf_of 3)) (NewDecoder (open_stream file24)) =
       Returns ((1, None), (Some b, d))).
Proof.
  split; [|split].
  - eexists _, _, _. runs. run.
  - eexists _, _. run.
  - eexists _, _. run.
Qed.

(** ** Recorded errors *)

Section Sticky.
Context `{lib : AudioLib}.

(** What does hold of a recorded error: [Drain] returns it without a
    request to the stream, [Err] returns it unless it is [io.EOF], and
    [Reset] clears it. *)
Lemma Drain_returns_recorded_error fuel d e :
  err d = Some e -> Drain fuel d = Returns (Some e, d).
Proof.
  intros H. destruct fuel; cbn [Drain]; rewrite H; reflexivity.
Qed.

Lemma Err_recorded_error d e : err d = Some e -> e <> EOF -> Err d = Some e.
Proof.
  intros H Hne. unfold Err. rewrite H. destruct e; try reflexivity. congruence.
Qed.

Lemma Reset_clears_error d : err (Reset d) = None.
Proof. reflexivity. Qed.

(** With the format known, [NextChunk] answers a recorded error with a new
    error that wraps it, and records that one. *)
Lemma NextChunk_wraps_recorded_error d e :
  0 < SampleRate d -> err d = Some e ->
  NextChunk d =
    ((None, Some (Errorf "failed to read info" e)),
     set_err (Some (Errorf "failed to read info" e)) d).
Proof.
  intros Hsr H. unfold NextChunk.
  assert (Hri : ReadInfo d = d).
  { unfold ReadInfo. apply Z.ltb_lt in Hsr. rewrite Hsr. reflexivity. }
  rewrite Hri, H. reflexivity.
Qed.

End Sticky.

(** C8, on [wav_file] and [junk_file]. The first [NextChunk] on the WAV
    file fails on the header and records the error; the second reads twelve
    more bytes and returns another error, and so does [Duration]. On the
    AIFF file that follows twelve foreign bytes, the second [NextChunk]
    finds a header, returns the sound-data chunk and no error, and [Err]
    has forgotten the first error. No [Reset] was called. *)
Theorem recorded_error_not_sticky_before_format :
  let first := NextChunk (NewDecoder (open_stream wav_file)) in
  let second := NextChunk (snd first) in
  let e1 := Errorf "failed to read info" (Errorf "failed to read header"
              (ErrFmtNotSupported (list_byte_of_string "RIFF"))) in
  let e2 := Errorf "failed to read info" (Errorf "failed to read header"
              (ErrFmtNotSupported (list_byte_of_string "fmt "))) in
  (fst first = (None, Some e1) /\ Err (snd first) = Some e1 /\
   pos (r (snd first)) = 12) /\
  (fst second = (None, Some e2) /\ Err (snd second) = Some e2 /\
   pos (r (snd second)) = 24 /\ e2 <> e1) /\
  (snd (fst (Duration (Some (NewDecoder (open_stream wav_file))))) <>
   snd (fst (Duration (snd (Duration (Some (NewDecoder (open_stream wav_file)))))))) /\
  (let first := NextChunk (NewDecoder (open_stream junk_file)) in
   let second := NextChunk (snd first) in
   (exists e, fst first = (None, Some e) /\ Err (snd first) = Some e) /\
   fst second =
     (Some {| Chunk.ID := SSNDID; Chunk.Size := 10; Chunk.R := 10; Chunk.Pos := 0 |},
      None) /\
   Err (snd second) = None).
Proof.
  cbv zeta. split; [|split; [|split]].
  - runs. run.
  - runs. discriminate.
  - vm_compute. discriminate.
  - split; [eexists; runs; run|]. runs. run.
Qed.

(** ** What [Reset] resets *)

(** [Reset] rewinds the stream and clears the header fields, the fields of
    the COMM chunk, the error and the PCM-accessed flag. *)
Lemma Reset_clears d :
  pos (r (Reset d)) = 0 /\ data (r (Reset d)) = data (r d) /\
  ID (Reset d) = zero4 /\ Size (Reset d) = 0 /\ Form (Reset d) = zero4 /\
  commSize (Reset d) = 0 /\ NumChans (Reset d) = 0 /\
  NumSampleFrames (Reset d) = 0 /\ BitDepth (Reset d) = 0 /\
  SampleRate (Reset d) = 0 /\ Encoding (Reset d) = zero4 /\
  EncodingName (Reset d) = [] /\ err (Reset d) = None /\
  pcmDataAccessed (Reset d) = false.
Proof.
  repeat split.
Qed.

(** It leaves the other fields as they are. *)
Lemma Reset_keeps d :
  Comments (Reset d) = Comments d /\ HasAppleInfo (Reset d) = HasAppleInfo d /\
  AppleInfo (Reset d) = AppleInfo d /\ PCMChunk (Reset d) = PCMChunk d /\
  PCMSize (Reset d) = PCMSize d /\ byteOrder (Reset d) = byteOrder d /\
  rewindBytes (Reset d) = rewindBytes d.
Proof.
  repeat split.
Qed.

(** C9, on [comment_file]: after a full drain the decoder holds the
    comment "hey"; [Reset] keeps it, and the second drain appends it again,
    so the second pass ends with two comments where a new decoder ends with
    one. *)
Theorem Reset_keeps_comments_for_second_pass :
  exists d1 d2,
    Drain 10 (NewDecoder (open_stream comment_file)) = Returns (None, d1) /\
    Comments d1 = [list_byte_of_string "hey"] /\
    Comments (Reset d1) = [list_byte_of_string "hey"] /\
    Comments (NewDecoder (open_stream comment_file)) = [] /\
    Drain 10 (Reset d1) = Returns (None, d2) /\
    Comments d2 = [list_byte_of_string "hey"; list_byte_of_string "hey"].
Proof.
  eexists _, _. runs. run.
Qed.

(** * Further properties of the decoder *)

(** ** Reading a chunk header *)

Lemma remaining_nonneg s : 0 <= remaining s.
Proof. unfold remaining. destruct (pos s <? 0); [lia|apply len_nonneg]. Qed.

Lemma remaining_advance s k tr :
  0 <= k <= remaining s ->
  remaining {| data := data s; pos := pos s + k; trace := tr |} = remaining s - k.
Proof.
  unfold remaining. cbn [data pos].
  destruct (Z.ltb_spec (pos s) 0) as [Hneg|Hpos]; intros Hk.
  - replace k with 0 by lia. rewrite Z.add_0_r.
    destruct (Z.ltb_spec (pos s) 0); lia.
  - destruct (Z.ltb_spec (pos s + k) 0); [lia|].
    rewrite !len_skipn in *. lia.
Qed.

(** What [binary.Read] of [n] bytes comes to on the stream: it succeeds
    when [n] bytes are left, reports [io.EOF] when none is, and
    [io.ErrUnexpectedEOF] in between; the cursor moves past what was
    there. *)
Lemma binary_Read_outcome n s :
  0 < n ->
  binary_Read n s =
    ((stream_peek n s,
      if n <=? remaining s then None
      else if remaining s =? 0 then Some EOF else Some ErrUnexpectedEOF),
     {| data := data s; pos := pos s + Z.min n (remaining s);
        trace := IORead n :: trace s |}).
Proof.
  intros Hn. unfold binary_Read, stream_read, read_full_err.
  rewrite stream_peek_len by lia.
  pose proof (remaining_nonneg s) as Hr.
  destruct (Z.leb_spec n (remaining s)).
  - rewrite Z.min_l by lia. rewrite Z.eqb_refl. reflexivity.
  - rewrite Z.min_r by lia.
    destruct (Z.eqb_spec (remaining s) n); [lia|]. reflexivity.
Qed.

Lemma stream_peek_next s k n tr :
  0 <= pos s -> 0 <= k -> 0 <= n ->
  stream_peek n {| data := data s; pos := pos s + k; trace := tr |} =
  skipn (Z.to_nat k) (stream_peek (k + n) s).
Proof.
  intros Hp Hk Hn. rewrite !stream_peek_eq. cbn [data pos].
  destruct (Z.ltb_spec (pos s + k) 0); [lia|].
  destruct (Z.ltb_spec (pos s) 0); [lia|].
  rewrite skipn_firstn_comm, skipn_skipn.
  f_equal; [lia|f_equal; lia].
Qed.

Section Headers.
Context `{lib : AudioLib}.

(** X1: [iDnSize] succeeds exactly when eight bytes are left at the cursor,
    and then returns the first four as the identifier and the next four,
    big-endian, as the size, the cursor eight bytes on. With fewer bytes it
    fails and the size it returns is zero; the error, which it also records
    on the decoder, is [io.EOF] when nothing is left and also when exactly
    the four bytes of an identifier are, and [io.ErrUnexpectedEOF]
    otherwise. *)
Theorem iDnSize_needs_eight_bytes d :
  let rem := remaining (r d) in
  let res := iDnSize d in
  snd (fst res) =
    (if 8 <=? rem then None
     else if (rem =? 0) || (rem =? 4) then Some EOF
     else Some ErrUnexpectedEOF) /\
  err (snd res) = snd (fst res) /\
  (rem < 8 -> snd (fst (fst res)) = 0) /\
  (rem < 4 -> fst (fst (fst res)) = zero4) /\
  (8 <= rem ->
     fst (fst res) = (stream_peek 4 (r d), be_uint (skipn 4 (stream_peek 8 (r d)))) /\
     pos (r (snd res)) = pos (r d) + 8).
Proof.
  cbv zeta. unfold iDnSize.
  pose proof (remaining_nonneg (r d)) as Hr0.
  rewrite (binary_Read_outcome 4 (r d)) by lia.
  destruct (Z.leb_spec 4 (remaining (r d))) as [H4|H4].
  - (* the identifier is there *)
    cbn [r set_err set_r].
    rewrite Z.min_l by lia.
    match goal with |- context [binary_Read 4 ?s] =>
      rewrite (binary_Read_outcome 4 s) by lia;
      pose proof (remaining_advance (r d) 4 (IORead 4 :: trace (r d)) ltac:(lia)) as Hrem
    end.
    rewrite Hrem.
    destruct (Z.leb_spec 4 (remaining (r d) - 4)) as [H8|H8].
    + destruct (Z.leb_spec 8 (remaining (r d))); [|lia].
      cbn [fst snd err r set_err set_r pos].
      repeat split; try lia.
      f_equal.
      assert (Hp : 0 <= pos (r d)).
      { unfold remaining in H4. destruct (Z.ltb_spec (pos (r d)) 0); lia. }
      rewrite (stream_peek_next (r d) 4 4 _ Hp) by lia. reflexivity.
    + destruct (Z.leb_spec 8 (remaining (r d))); [lia|].
      cbn [fst snd err r set_err set_r pos].
      destruct (Z.eqb_spec (remaining (r d) - 4) 0) as [E|E].
      * replace (remaining (r d)) with 4 by lia.
        repeat split; try reflexivity; lia.
      * destruct (Z.eqb_spec (remaining (r d)) 0); [lia|].
        destruct (Z.eqb_spec (remaining (r d)) 4); [lia|].
        repeat split; try reflexivity; lia.
  - destruct (Z.leb_spec 8 (remaining (r d))); [lia|].
    destruct (Z.eqb_spec (remaining (r d)) 0) as [E|E];
      cbn [fst snd err r set_err set_r pos].
    + repeat split; try reflexivity; lia.
    + destruct (Z.eqb_spec (remaining (r d)) 4); [lia|].
      repeat split; try reflexivity; lia.
Qed.

(** With fewer than eight bytes left, [iDnSize] changes the stream and the
    recorded error only. *)
Lemma iDnSize_fails d :
  remaining (r d) < 8 ->
  exists id e s,
    iDnSize d = (((id, 0), Some e), set_err (Some e) (set_r s d)) /\
    e = (if (remaining (r d) =? 0) || (remaining (r d) =? 4)
         then EOF else ErrUnexpectedEOF) /\
    data s = data (r d) /\ pos s = pos (r d) + remaining (r d).
Proof.
  intros H8. unfold iDnSize.
  pose proof (remaining_nonneg (r d)) as Hr0.
  rewrite (binary_Read_outcome 4 (r d)) by lia.
  destruct (Z.leb_spec 4 (remaining (r d))) as [H4|H4].
  - cbn [r set_err set_r]. rewrite Z.min_l by lia.
    match goal with |- context [binary_Read 4 ?s] =>
      rewrite (binary_Read_outcome 4 s) by lia;
      pose proof (remaining_advance (r d) 4 (IORead 4 :: trace (r d)) ltac:(lia)) as Hrem
    end.
    rewrite Hrem.
    destruct (Z.leb_spec 4 (remaining (r d) - 4)); [lia|].
    rewrite Z.min_r by lia.
    destruct (Z.eqb_spec (remaining (r d) - 4) 0).
    + eexists _, _, _. split; [reflexivity|]. cbn [data pos].
      split; [|split; [reflexivity|lia]].
      replace (remaining (r d)) with 4 by lia. reflexivity.
    + eexists _, _, _. split; [reflexivity|]. cbn [data pos].
      split; [|split; [reflexivity|lia]].
      destruct (Z.eqb_spec (remaining (r d)) 0); [lia|].
      destruct (Z.eqb_spec (remaining (r d)) 4); [lia|]. reflexivity.
  - rewrite Z.min_r by lia. destruct (Z.eqb_spec (remaining (r d)) 0).
    + eexists _, _, _. split; [reflexivity|]. cbn [data pos].
      split; [|split]; reflexivity.
    + eexists _, _, _. split; [reflexivity|]. cbn [data pos].
      split; [|split; reflexivity].
      destruct (Z.eqb_spec (remaining (r d)) 4); [lia|]. reflexivity.
Qed.

Lemma ReadInfo_known d : 0 < SampleRate d -> ReadInfo d = d.
Proof.
  intros H. unfold ReadInfo. apply Z.ltb_lt in H. rewrite H. reflexivity.
Qed.

(** X2: With the format known, no error recorded and fewer than eight bytes
    left, [NextChunk] returns no chunk and [io.EOF], whether nothing is
    left or the start of a header is. What it records on the decoder is
    the error of the header read: [Err] then reports
    [io.ErrUnexpectedEOF] unless zero or four bytes were left. *)
Theorem NextChunk_end_of_data d :
  0 < SampleRate d -> err d = None -> remaining (r d) < 8 ->
  let res := NextChunk d in
  fst res = (None, Some EOF) /\
  Err (snd res) =
    (if (remaining (r d) =? 0) || (remaining (r d) =? 4)
     then None else Some ErrUnexpectedEOF) /\
  Decoder_EOF (Some (snd res)) = (remaining (r d) =? 0) || (remaining (r d) =? 4).
Proof.
  intros Hsr Herr Hrem. cbv zeta. unfold NextChunk.
  rewrite (ReadInfo_known d Hsr), Herr.
  destruct (iDnSize_fails d Hrem) as (id & e & s & Hi & He & _ & _).
  rewrite Hi. destruct (_ || _); subst e; repeat split.
Qed.

(** X3: With the format known, no error recorded and fewer than eight bytes
    left, [Drain] returns nil after one header read and leaves [io.EOF]
    recorded, whether nothing was left or the start of a header was: [Err]
    returns nil and [EOF] returns true. Nothing else of the decoder changes
    but the stream. *)
Theorem Drain_end_of_data d fuel :
  0 < SampleRate d -> err d = None -> remaining (r d) < 8 ->
  exists s,
    Drain (S fuel) d = Returns (None, set_err (Some EOF) (set_r s d)) /\
    Err (set_err (Some EOF) (set_r s d)) = None /\
    Decoder_EOF (Some (set_err (Some EOF) (set_r s d))) = true.
Proof.
  intros Hsr Herr Hrem. cbn [Drain]. rewrite Herr. unfold NextChunk.
  rewrite (ReadInfo_known d Hsr), Herr.
  destruct (iDnSize_fails d Hrem) as (id & e & s & Hi & He & _ & _).
  rewrite Hi. exists s. destruct (_ || _); subst e; repeat split.
Qed.

(** The declared size made even, as [NextChunk] does it on a [uint32]. *)
Lemma NextChunk_at d pre id size post :
  0 < SampleRate d -> err d = None ->
  data (r d) = pre ++ id ++ be_bytes 4 size ++ post -> pos (r d) = len pre ->
  len id = 4 -> 0 <= size < 2 ^ 32 ->
  let size' := if size mod 2 =? 0 then size else wrap32 (size + 1) in
  NextChunk d =
    ((Some {| Chunk.ID := id; Chunk.Size := size'; Chunk.R := size'; Chunk.Pos := 0 |},
      None),
     at_pos d (len pre + 8) (IORead 4 :: IORead 4 :: trace (r d))).
Proof.
  intros Hsr Herr Hd Hp Hid Hs size'.
  unfold NextChunk. rewrite (ReadInfo_known d Hsr), Herr.
  rewrite (decoder_at_pos d Herr) at 1.
  rewrite (iDnSize_at d pre id size post (pos (r d)) (trace (r d)) Hd Hp Hid) by lia.
  rewrite set_err_at_pos, Hp. fold size'.
  destruct (size mod 2 =? 0); reflexivity.
Qed.

(** X4: With the format known and no error recorded, [NextChunk] on a header
    found at the cursor returns the chunk it announces and changes nothing
    of the decoder but the cursor, eight bytes on. The size of the chunk,
    and the bound of its reader, is the declared size made even: an odd
    size is one more, and the odd size 0xFFFFFFFF wraps to 0. *)
Theorem NextChunk_returns_header d pre id size post :
  0 < SampleRate d -> err d = None ->
  data (r d) = pre ++ id ++ be_bytes 4 size ++ post -> pos (r d) = len pre ->
  len id = 4 -> 0 <= size < 2 ^ 32 ->
  exists size',
    NextChunk d =
      ((Some {| Chunk.ID := id; Chunk.Size := size'; Chunk.R := size'; Chunk.Pos := 0 |},
        None),
       at_pos d (len pre + 8) (IORead 4 :: IORead 4 :: trace (r d))) /\
    (size mod 2 = 0 -> size' = size) /\
    (size mod 2 = 1 -> size < 2 ^ 32 - 1 -> size' = size + 1) /\
    (size = 2 ^ 32 - 1 -> size' = 0).
Proof.
  intros Hsr Herr Hd Hp Hid Hs.
  exists (if size mod 2 =? 0 then size else wrap32 (size + 1)).
  split; [exact (NextChunk_at d pre id size post Hsr Herr Hd Hp Hid Hs)|].
  split; [|split].
  - intros E. rewrite E. reflexivity.
  - intros E Hmax. rewrite E. change (1 =? 0) with false. cbv iota.
    apply wrap32_small. lia.
  - intros ->. reflexivity.
Qed.

End Headers.

(** ** The FORM header *)

Lemma buf_Read_enough n b :
  0 <= n <= len b ->
  buf_Read n b = ((firstn (Z.to_nat n) b, None), skipn (Z.to_nat n) b).
Proof.
  intros Hn. unfold buf_Read.
  destruct (read_full_err n (firstn (Z.to_nat n) b)) eqn:E; [|reflexivity].
  exfalso. assert (H : read_full_err n (firstn (Z.to_nat n) b) = None)
    by (apply read_full_err_firstn; lia).
  congruence.
Qed.

Lemma buf_Read_short n b :
  len b < n ->
  buf_Read n b = ((b, Some (if len b =? 0 then EOF else ErrUnexpectedEOF)), []).
Proof.
  intros Hn. unfold buf_Read. pose proof (len_nonneg b) as Hb.
  rewrite firstn_all2, skipn_all2 by (unfold len in *; lia).
  unfold read_full_err. destruct (Z.eqb_spec (len b) n); [lia|].
  destruct (len b =? 0); reflexivity.
Qed.

Section FormHeader.
Context `{lib : AudioLib}.

(** X5: [readHeaders], on a decoder that has no FORM size yet, accepts the
    stream exactly when the twelve bytes at the cursor are "FORM", any four
    bytes, and "AIFF" or "AIFC". It then records the identifier, the four
    bytes read big-endian as the size, and the form type, with no error,
    and has made one request for twelve bytes. *)
Theorem readHeaders_accepts_iff d :
  Size d = 0 ->
  let src := stream_peek 12 (r d) in
  (fst (readHeaders d) = None <->
   exists szb form,
     src = formID ++ szb ++ form /\ len szb = 4 /\ (form = aiffID \/ form = aifcID)) /\
  (forall szb form,
     src = formID ++ szb ++ form -> len szb = 4 -> form = aiffID \/ form = aifcID ->
     readHeaders d =
       (None, at_pos (set_Form form (set_Size (be_uint szb) (set_ID formID d)))
                (pos (r d) + 12) (IORead 12 :: trace (r d)))).
Proof.
  intros Hsz src.
  assert (Hok : forall szb form,
     src = formID ++ szb ++ form -> len szb = 4 -> form = aiffID \/ form = aifcID ->
     readHeaders d =
       (None, at_pos (set_Form form (set_Size (be_uint szb) (set_ID formID d)))
                (pos (r d) + 12) (IORead 12 :: trace (r d)))).
  { intros szb form Hsrc Hszb Hform.
    assert (Hlenf : len form = 4) by (destruct Hform; subst form; reflexivity).
    unfold readHeaders. rewrite Hsz. change (0 <? 0) with false. cbv iota.
    unfold io_CopyN. change (12 <=? 0) with false. cbv iota.
    unfold stream_read. fold src. rewrite Hsrc.
    rewrite !len_app, Hszb, Hlenf. change (len formID + (4 + 4) =? 12) with true.
    cbv iota.
    change 4 with (len formID) at 1. rewrite buf_Read_app.
    cbn [set_ID ID set_err]. rewrite bytes_eqb_refl. cbn [negb].
    rewrite <- Hszb at 1. rewrite buf_Read_app.
    rewrite <- Hlenf at 1. rewrite <- (app_nil_r form) at 2. rewrite buf_Read_app.
    cbn [set_Form Form set_Size set_err].
    assert (Hf : negb (bytes_eqb form aiffID) && negb (bytes_eqb form aifcID) = false).
    { destruct Hform; subst form; reflexivity. }
    rewrite Hf. reflexivity. }
  split; [|exact Hok]. split.
  - intros Hnone.
    assert (Hmax : len src <= 12).
    { pose proof (stream_peek_at_most 12 (r d)). unfold src. lia. }
    revert Hnone. unfold readHeaders. rewrite Hsz. change (0 <? 0) with false. cbv iota.
    unfold io_CopyN. change (12 <=? 0) with false. cbv iota.
    unfold stream_read. fold src.
    destruct (Z.ltb_spec (len src) 4) as [H1|H1].
    { rewrite buf_Read_short by lia. cbn. discriminate. }
    rewrite buf_Read_enough by lia. change (Z.to_nat 4) with 4%nat.
    cbn [set_ID ID set_err].
    destruct (bytes_eqb (firstn 4 src) formID) eqn:E1; [|cbn; discriminate].
    cbn [negb]. apply bytes_eqb_eq in E1.
    assert (H2len : len (skipn 4 src) = len src - 4) by (rewrite len_skipn; lia).
    destruct (Z.ltb_spec (len (skipn 4 src)) 4) as [H2|H2].
    { rewrite buf_Read_short by lia. cbn. discriminate. }
    rewrite buf_Read_enough by lia. change (Z.to_nat 4) with 4%nat.
    assert (H3len : len (skipn 4 (skipn 4 src)) = len src - 8) by (rewrite !len_skipn; lia).
    destruct (Z.ltb_spec (len (skipn 4 (skipn 4 src))) 4) as [H3|H3].
    { rewrite buf_Read_short by lia. cbn. discriminate. }
    rewrite buf_Read_enough by lia. change (Z.to_nat 4) with 4%nat.
    cbn [set_Form Form set_Size set_err].
    set (form := firstn 4 (skipn 4 (skipn 4 src))).
    destruct (bytes_eqb form aiffID) eqn:Ea.
    + intros _. apply bytes_eqb_eq in Ea.
      exists (firstn 4 (skipn 4 src)), form. split; [|split].
      * rewrite <- E1.
        rewrite <- (firstn_skipn 4 src) at 1. f_equal.
        rewrite <- (firstn_skipn 4 (skipn 4 src)) at 1. f_equal.
        unfold form. symmetry. apply firstn_all2. unfold len in *. lia.
      * rewrite len_firstn. lia.
      * left. exact Ea.
    + destruct (bytes_eqb form aifcID) eqn:Ec; [|cbn; discriminate].
      intros _. apply bytes_eqb_eq in Ec.
      exists (firstn 4 (skipn 4 src)), form. split; [|split].
      * rewrite <- E1.
        rewrite <- (firstn_skipn 4 src) at 1. f_equal.
        rewrite <- (firstn_skipn 4 (skipn 4 src)) at 1. f_equal.
        unfold form. symmetry. apply firstn_all2. unfold len in *. lia.
      * rewrite len_firstn. lia.
      * right. exact Ec.
  - intros (szb & form & Hsrc & Hszb & Hform).
    rewrite (Hok szb form Hsrc Hszb Hform). reflexivity.
Qed.

(** X6: How [readHeaders] rejects a stream, by the bytes [src] that a request
    for twelve finds at the cursor. Fewer than four: [io.EOF] if there is
    none, [io.ErrUnexpectedEOF] otherwise. Four bytes that are not "FORM":
    the format error naming them. "FORM" and fewer than twelve bytes:
    [io.EOF] when the bytes stop after the identifier or after the size,
    [io.ErrUnexpectedEOF] when they stop inside a field. Twelve bytes with
    another form type than "AIFF" and "AIFC": the format error naming the
    form type. The error is also recorded on the decoder. *)
Theorem readHeaders_rejects d :
  Size d = 0 ->
  let src := stream_peek 12 (r d) in
  let res := readHeaders d in
  (len src < 4 ->
   fst res = Some (if len src =? 0 then EOF else ErrUnexpectedEOF)) /\
  (4 <= len src -> firstn 4 src <> formID ->
   fst res = Some (ErrFmtNotSupported (firstn 4 src))) /\
  (4 <= len src < 12 -> firstn 4 src = formID ->
   fst res = Some (if (len src =? 4) || (len src =? 8) then EOF else ErrUnexpectedEOF)) /\
  (len src = 12 -> firstn 4 src = formID ->
   skipn 8 src <> aiffID -> skipn 8 src <> aifcID ->
   fst res = Some (ErrFmtNotSupported (skipn 8 src))) /\
  err (snd res) = fst res.
Proof.
  intros Hsz src res. subst res.
  unfold readHeaders. rewrite Hsz. change (0 <? 0) with false. cbv iota.
  unfold io_CopyN. change (12 <=? 0) with false. cbv iota.
  unfold stream_read. fold src.
  assert (Hmax : len src <= 12).
  { pose proof (stream_peek_at_most 12 (r d)). unfold src. lia. }
  pose proof (len_nonneg src) as Hmin.
  destruct (Z.ltb_spec (len src) 4) as [H1|H1].
  { rewrite buf_Read_short by lia. cbn [fst snd err set_err].
    repeat split; try (intros; lia). }
  rewrite buf_Read_enough by lia. change (Z.to_nat 4) with 4%nat.
  cbn [set_ID ID set_err].
  destruct (bytes_eqb (firstn 4 src) formID) eqn:E1.
  2:{ cbn [negb fail fst snd err set_err].
      assert (firstn 4 src <> formID).
      { intros E. apply bytes_eqb_eq in E. congruence. }
      repeat split; try (intros; lia); intros; contradiction. }
  cbn [negb]. apply bytes_eqb_eq in E1.
  assert (H2len : len (skipn 4 src) = len src - 4) by (rewrite len_skipn; lia).
  destruct (Z.ltb_spec (len (skipn 4 src)) 4) as [H2|H2].
  { rewrite buf_Read_short by lia. cbn [fst snd err set_err]. rewrite H2len.
    repeat split; try (intros; lia); try (intros; contradiction).
    intros _ _.
    destruct (Z.eqb_spec (len src - 4) 0); destruct (Z.eqb_spec (len src) 4);
      destruct (Z.eqb_spec (len src) 8); try lia; reflexivity. }
  rewrite buf_Read_enough by lia. change (Z.to_nat 4) with 4%nat.
  assert (H3len : len (skipn 4 (skipn 4 src)) = len src - 8) by (rewrite !len_skipn; lia).
  destruct (Z.ltb_spec (len (skipn 4 (skipn 4 src))) 4) as [H3|H3].
  { rewrite buf_Read_short by lia. cbn [fst snd err set_err]. rewrite H3len.
    repeat split; try (intros; lia); try (intros; contradiction).
    intros _ _.
    destruct (Z.eqb_spec (len src - 8) 0); destruct (Z.eqb_spec (len src) 4);
      destruct (Z.eqb_spec (len src) 8); try lia; reflexivity. }
  rewrite buf_Read_enough by lia. change (Z.to_nat 4) with 4%nat.
  cbn [set_Form Form set_Size set_err].
  assert (Hform : firstn 4 (skipn 4 (skipn 4 src)) = skipn 8 src).
  { rewrite skipn_skipn. apply firstn_all2. rewrite length_skipn. unfold len in *. lia. }
  rewrite Hform.
  destruct (bytes_eqb (skipn 8 src) aiffID) eqn:Ea.
  { apply bytes_eqb_eq in Ea. cbn [negb andb fst snd err set_err].
    repeat split; try (intros; lia); intros; contradiction. }
  destruct (bytes_eqb (skipn 8 src) aifcID) eqn:Ec.
  { apply bytes_eqb_eq in Ec. cbn [negb andb fst snd err set_err].
    repeat split; try (intros; lia); intros; contradiction. }
  cbn [negb andb fail fst snd err set_err].
  repeat split; try (intros; lia); intros; contradiction.
Qed.

End FormHeader.

(** ** The COMM chunk *)

Lemma io_CopyN_at s pre x post :
  data s = pre ++ x ++ post -> pos s = len pre -> 0 < len x ->
  io_CopyN (len x) s =
    ((x, None), {| data := data s; pos := len pre + len x; trace := IORead (len x) :: trace s |}).
Proof.
  intros Hd Hp Hx. unfold io_CopyN, stream_read.
  destruct (Z.leb_spec (len x) 0); [lia|].
  rewrite (stream_peek_at s pre x post Hd Hp), Z.eqb_refl, Hp. reflexivity.
Qed.

Lemma len_comm_body chans frames bits rate :
  len (comm_body chans frames bits rate) = 8 + len rate.
Proof. unfold comm_body. rewrite !len_app, !len_be_bytes. lia. Qed.

Section CommChunk.
Context `{lib : AudioLib}.

(** The four fields of a COMM body read from a buffer. *)
Lemma comm_fields_read chans frames bits rate rest :
  0 <= chans < 2 ^ 16 -> 0 <= frames < 2 ^ 32 -> 0 <= bits < 2 ^ 16 -> len rate = 10 ->
  let src := comm_body chans frames bits rate ++ rest in
  buf_Read 2 src = ((be_bytes 2 chans, None), be_bytes 4 frames ++ be_bytes 2 bits ++ rate ++ rest) /\
  buf_Read 4 (be_bytes 4 frames ++ be_bytes 2 bits ++ rate ++ rest) =
    ((be_bytes 4 frames, None), be_bytes 2 bits ++ rate ++ rest) /\
  buf_Read 2 (be_bytes 2 bits ++ rate ++ rest) = ((be_bytes 2 bits, None), rate ++ rest) /\
  buf_Read 10 (rate ++ rest) = ((rate, None), rest).
Proof.
  intros Hc Hf Hb Hr src. unfold src, comm_body. rewrite <- !app_assoc.
  split; [|split; [|split]].
  - rewrite <- (len_be_bytes 2 chans) at 1. apply buf_Read_app.
  - rewrite <- (len_be_bytes 4 frames) at 1. apply buf_Read_app.
  - rewrite <- (len_be_bytes 2 bits) at 1. apply buf_Read_app.
  - rewrite <- Hr at 1. apply buf_Read_app.
Qed.

(** The decoder after the COMM chunk of an AIFF file has been parsed. *)
Lemma parseCommChunk_at d pre chans frames bits rate extra post tr :
  NumChans d = 0 -> Form d <> aifcID ->
  data (r d) = pre ++ (comm_body chans frames bits rate ++ extra) ++ post ->
  0 <= chans < 2 ^ 16 -> 0 <= frames < 2 ^ 32 -> 0 <= bits < 2 ^ 16 -> len rate = 10 ->
  let size := 18 + len extra in
  parseCommChunk size (at_pos d (len pre) tr) =
    (None,
     at_pos (set_SampleRate (IEEEFloatToInt rate) (set_BitDepth bits
               (set_NumSampleFrames frames (set_NumChans chans (set_commSize size d)))))
       (len pre + size) (IORead size :: tr)).
Proof.
  intros Hn Hform Hd Hc Hf Hb Hr size.
  pose proof (len_nonneg extra) as He0.
  assert (Hsize : size = len (comm_body chans frames bits rate ++ extra)).
  { rewrite len_app, len_comm_body, Hr. unfold size. lia. }
  destruct (comm_fields_read chans frames bits rate extra Hc Hf Hb Hr)
    as (R1 & R2 & R3 & R4).
  unfold parseCommChunk.
  change (NumChans (at_pos d (len pre) tr)) with (NumChans d). rewrite Hn.
  change (0 <? 0) with false. cbv iota.
  change (r (set_commSize size (at_pos d (len pre) tr)))
    with {| data := data (r d); pos := len pre; trace := tr |}.
  assert (Hcopy : io_CopyN size {| data := data (r d); pos := len pre; trace := tr |} =
            ((comm_body chans frames bits rate ++ extra, None),
             {| data := data (r d); pos := len pre + size; trace := IORead size :: tr |})).
  { rewrite Hsize.
    apply (io_CopyN_at {| data := data (r d); pos := len pre; trace := tr |} pre _ post);
      [exact Hd|reflexivity|lia]. }
  rewrite Hcopy.
  rewrite R1. cbv iota. rewrite R2. cbv iota. rewrite R3. cbv iota. rewrite R4. cbv iota.
  rewrite !be_uint_be_bytes by (simpl; lia).
  cbn [Form set_SampleRate set_BitDepth set_NumSampleFrames set_NumChans set_err set_r
       set_commSize at_pos err].
  rewrite (bytes_eqb_neq _ _ Hform). reflexivity.
Qed.

(** The decoder after the COMM chunk of an AIFC file has been parsed. *)
Lemma parseCommChunk_aifc_at d pre chans frames bits rate enc name extra post tr :
  NumChans d = 0 -> Form d = aifcID ->
  data (r d) =
    pre ++ (comm_body chans frames bits rate ++ aifc_comm_ext enc name ++ extra) ++ post ->
  0 <= chans < 2 ^ 16 -> 0 <= frames < 2 ^ 32 -> 0 <= bits < 2 ^ 16 -> len rate = 10 ->
  len enc = 4 -> len name < 256 ->
  let size := 23 + len name + len extra in
  parseCommChunk size (at_pos d (len pre) tr) =
    (None,
     at_pos
       (set_EncodingName (if len name =? 0 then EncodingName d else name)
          (set_byteOrder (if bytes_eqb enc encSowt then LittleEndian else byteOrder d)
             (set_Encoding enc
                (set_SampleRate (IEEEFloatToInt rate) (set_BitDepth bits
                   (set_NumSampleFrames frames (set_NumChans chans
                      (set_commSize size d))))))))
       (len pre + size) (IORead size :: tr)).
Proof.
  intros Hn Hform Hd Hc Hf Hb Hr Henc Hname size.
  pose proof (len_nonneg extra) as He0. pose proof (len_nonneg name) as Hn0.
  set (body := comm_body chans frames bits rate ++ aifc_comm_ext enc name ++ extra) in *.
  assert (Hsize : size = len body).
  { unfold body, aifc_comm_ext. rewrite !len_app, len_comm_body, Hr, Henc.
    unfold size, len. cbn [List.length]. lia. }
  destruct (comm_fields_read chans frames bits rate (aifc_comm_ext enc name ++ extra)
              Hc Hf Hb Hr) as (R1 & R2 & R3 & R4).
  fold body in R1.
  unfold parseCommChunk.
  change (NumChans (at_pos d (len pre) tr)) with (NumChans d). rewrite Hn.
  change (0 <? 0) with false. cbv iota.
  change (r (set_commSize size (at_pos d (len pre) tr)))
    with {| data := data (r d); pos := len pre; trace := tr |}.
  assert (Hcopy : io_CopyN size {| data := data (r d); pos := len pre; trace := tr |} =
            ((body, None),
             {| data := data (r d); pos := len pre + size; trace := IORead size :: tr |})).
  { rewrite Hsize.
    apply (io_CopyN_at {| data := data (r d); pos := len pre; trace := tr |} pre _ post);
      [exact Hd|reflexivity|lia]. }
  rewrite Hcopy.
  rewrite R1. cbv iota. rewrite R2. cbv iota. rewrite R3. cbv iota. rewrite R4. cbv iota.
  rewrite !be_uint_be_bytes by (simpl; lia).
  cbn [Form set_SampleRate set_BitDepth set_NumSampleFrames set_NumChans set_err set_r
       set_commSize at_pos err].
  rewrite Hform, bytes_eqb_refl.
  unfold parseCommChunk_aifc, aifc_comm_ext. rewrite <- app_assoc.
  rewrite <- Henc at 1. rewrite buf_Read_app. cbv iota.
  cbn [Encoding set_Encoding].
  change (byte_of_Z (len name) :: name) with ([byte_of_Z (len name)] ++ name).
  rewrite <- app_assoc.
  change 1 with (len [byte_of_Z (len name)]) at 1. rewrite buf_Read_app. cbv iota.
  assert (Hbyte : be_uint [byte_of_Z (len name)] = len name).
  { unfold be_uint. cbn [fold_left]. rewrite byte_val_of_Z, Z.mod_small; lia. }
  rewrite Hbyte.
  destruct (Z.ltb_spec 0 (len name)) as [Hpos|Hzero].
  - rewrite buf_Read_app. destruct (Z.eqb_spec (len name) 0); [lia|].
    destruct (bytes_eqb enc encSowt); reflexivity.
  - destruct (Z.eqb_spec (len name) 0); [|lia].
    destruct (bytes_eqb enc encSowt); reflexivity.
Qed.

(** X7: On a decoder that has no channel count yet and is not of form AIFC,
    [parseCommChunk] decodes the body of a COMM chunk found at the cursor:
    the channel count, the number of sample frames and the sample size are
    the big-endian fields, the sample rate is what the dependency makes of
    the ten bytes of the extended float. It consumes the declared size,
    extra bytes after the eighteen included, in one request, and records no
    error; the byte order, the encoding and the comments stay as they
    were. *)
Theorem parseCommChunk_decodes d pre chans frames bits rate extra post tr :
  NumChans d = 0 -> Form d <> aifcID ->
  data (r d) = pre ++ (comm_body chans frames bits rate ++ extra) ++ post ->
  0 <= chans < 2 ^ 16 -> 0 <= frames < 2 ^ 32 -> 0 <= bits < 2 ^ 16 -> len rate = 10 ->
  let size := 18 + len extra in
  let res := parseCommChunk size (at_pos d (len pre) tr) in
  fst res = None /\ err (snd res) = None /\
  NumChans (snd res) = chans /\ NumSampleFrames (snd res) = frames /\
  BitDepth (snd res) = bits /\ SampleRate (snd res) = IEEEFloatToInt rate /\
  commSize (snd res) = size /\
  pos (r (snd res)) = len pre + size /\ trace (r (snd res)) = IORead size :: tr /\
  byteOrder (snd res) = byteOrder d /\ Encoding (snd res) = Encoding d /\
  Comments (snd res) = Comments d.
Proof.
  intros Hn Hform Hd Hc Hf Hb Hr size res. subst res. unfold size.
  rewrite (parseCommChunk_at d pre chans frames bits rate extra post tr) by assumption.
  repeat split.
Qed.

(** X8: On a decoder of form AIFC that has no channel count yet, the body of
    the COMM chunk goes on, after the four format fields, with the
    compression type and its name behind a length byte: [parseCommChunk]
    decodes the format fields, records the four bytes as the encoding and
    the name (when it is not empty) as the encoding name, and switches the
    byte order to little-endian for the type "sowt" and for no other. *)
Theorem parseCommChunk_decodes_aifc d pre chans frames bits rate enc name extra post tr :
  NumChans d = 0 -> Form d = aifcID ->
  data (r d) =
    pre ++ (comm_body chans frames bits rate ++ aifc_comm_ext enc name ++ extra) ++ post ->
  0 <= chans < 2 ^ 16 -> 0 <= frames < 2 ^ 32 -> 0 <= bits < 2 ^ 16 -> len rate = 10 ->
  len enc = 4 -> len name < 256 ->
  let size := 23 + len name + len extra in
  let res := parseCommChunk size (at_pos d (len pre) tr) in
  fst res = None /\ err (snd res) = None /\
  NumChans (snd res) = chans /\ NumSampleFrames (snd res) = frames /\
  BitDepth (snd res) = bits /\ SampleRate (snd res) = IEEEFloatToInt rate /\
  Encoding (snd res) = enc /\
  EncodingName (snd res) = (if len name =? 0 then EncodingName d else name) /\
  (enc = encSowt -> byteOrder (snd res) = LittleEndian) /\
  (enc <> encSowt -> byteOrder (snd res) = byteOrder d) /\
  pos (r (snd res)) = len pre + size /\ trace (r (snd res)) = IORead size :: tr.
Proof.
  intros Hn Hform Hd Hc Hf Hb Hr Henc Hname size res. subst res. unfold size.
  rewrite (parseCommChunk_aifc_at d pre chans frames bits rate enc name extra post tr)
    by assumption.
  cbn [fst snd err at_pos set_err set_r r pos trace NumChans NumSampleFrames BitDepth
       SampleRate Encoding EncodingName byteOrder set_EncodingName set_byteOrder
       set_Encoding set_SampleRate set_BitDepth set_NumSampleFrames set_NumChans
       set_commSize].
  repeat split.
  - intros ->. reflexivity.
  - intros Hne. rewrite (bytes_eqb_neq _ _ Hne). reflexivity.
Qed.

Lemma io_CopyN_len size s :
  len (fst (fst (io_CopyN size s))) = Z.max 0 (Z.min size (remaining s)).
Proof.
  unfold io_CopyN. pose proof (remaining_nonneg s).
  destruct (Z.leb_spec size 0); cbn [fst stream_read].
  - unfold len. simpl. lia.
  - rewrite stream_peek_len by lia. lia.
Qed.

(** X9: A COMM chunk of which fewer than eighteen bytes can be copied, because
    it declares fewer or because the stream ends, is an error that names
    the first field that is not complete; the cause is [io.EOF] when the
    bytes stop at the start of that field and [io.ErrUnexpectedEOF] when
    they stop inside it. The error is recorded, and the sample rate stays as
    it was. *)
Theorem parseCommChunk_short_body size d :
  NumChans d = 0 ->
  let n := Z.max 0 (Z.min size (remaining (r d))) in
  n < 18 ->
  let res := parseCommChunk size d in
  fst res =
    Some (Errorf (if n <? 2 then "num of channels failed to parse"
                  else if n <? 6 then "num of sample frames failed to parse"
                  else if n <? 8 then "sample size failed to parse"
                  else "sample rate failed to parse")
            (if (n =? 0) || (n =? 2) || (n =? 6) || (n =? 8)
             then EOF else ErrUnexpectedEOF)) /\
  err (snd res) = fst res /\
  SampleRate (snd res) = SampleRate d /\
  commSize (snd res) = size.
Proof.
  intros Hn n Hshort res. subst res. unfold parseCommChunk.
  rewrite Hn. change (0 <? 0) with false. cbv iota.
  change (r (set_commSize size d)) with (r d).
  pose proof (io_CopyN_len size (r d)) as Hlen. fold n in Hlen.
  destruct (io_CopyN size (r d)) as [[src e0] s0]. cbn [fst] in Hlen.
  assert (Hn0 : 0 <= n) by (unfold n; lia).
  destruct (Z.ltb_spec n 2) as [H2|H2].
  { rewrite buf_Read_short by lia. rewrite Hlen.
    cbn [fail fst snd err set_err SampleRate commSize set_r set_commSize].
    destruct (Z.eqb_spec n 0); destruct (Z.eqb_spec n 2); destruct (Z.eqb_spec n 6);
      destruct (Z.eqb_spec n 8); try lia; repeat split. }
  rewrite buf_Read_enough by lia. change (Z.to_nat 2) with 2%nat.
  assert (L1 : len (skipn 2 src) = n - 2) by (rewrite len_skipn; lia).
  destruct (Z.ltb_spec n 6) as [H6|H6].
  { rewrite buf_Read_short by lia. rewrite L1.
    cbn [fail fst snd err set_err SampleRate commSize set_r set_commSize set_NumChans].
    destruct (Z.eqb_spec (n - 2) 0); destruct (Z.eqb_spec n 0); destruct (Z.eqb_spec n 2);
      destruct (Z.eqb_spec n 6); destruct (Z.eqb_spec n 8); try lia; repeat split. }
  rewrite buf_Read_enough by lia. change (Z.to_nat 4) with 4%nat.
  assert (L2 : len (skipn 4 (skipn 2 src)) = n - 6) by (rewrite !len_skipn; lia).
  destruct (Z.ltb_spec n 8) as [H8|H8].
  { rewrite buf_Read_short by lia. rewrite L2.
    cbn [fail fst snd err set_err SampleRate commSize set_r set_commSize set_NumChans
         set_NumSampleFrames].
    destruct (Z.eqb_spec (n - 6) 0); destruct (Z.eqb_spec n 0); destruct (Z.eqb_spec n 2);
      destruct (Z.eqb_spec n 6); destruct (Z.eqb_spec n 8); try lia; repeat split. }
  rewrite buf_Read_enough by lia. change (Z.to_nat 2) with 2%nat.
  assert (L3 : len (skipn 2 (skipn 4 (skipn 2 src))) = n - 8) by (rewrite !len_skipn; lia).
  rewrite buf_Read_short by lia. rewrite L3.
  cbn [fail fst snd err set_err SampleRate commSize set_r set_commSize set_NumChans
       set_NumSampleFrames set_BitDepth].
  destruct (Z.eqb_spec (n - 8) 0); destruct (Z.eqb_spec n 0); destruct (Z.eqb_spec n 2);
    destruct (Z.eqb_spec n 6); destruct (Z.eqb_spec n 8); try lia; repeat split.
Qed.

End CommChunk.

(** ** Comments *)

Lemma skipn_app_exact {A} (n : nat) (x rest : list A) :
  List.length x = n -> skipn n (x ++ rest) = rest.
Proof. intros <-. apply skipn_app_len. Qed.

Lemma firstn_app_exact {A} (n : nat) (x rest : list A) :
  List.length x = n -> firstn n (x ++ rest) = x.
Proof. intros <-. apply firstn_app_len. Qed.

(** One pass of the comment loop. *)
Lemma read_comments_S n br acc :
  read_comments (S n) br acc =
  let b := Z.to_nat (match skipn 8 br with [] => 0 | x :: _ => byte_val x end) in
  let got := firstn b (skipn 1 (skipn 8 br)) in
  read_comments n (skipn b (skipn 1 (skipn 8 br)))
    (acc ++ [trim_right_nul (got ++ repeat x00 (b - List.length got))]).
Proof. reflexivity. Qed.

Lemma read_comments_record n marker text more acc :
  len marker = 8 -> len text < 256 ->
  read_comments (S n) (comment_record marker text ++ more) acc =
  read_comments n more (acc ++ [trim_right_nul text]).
Proof.
  intros Hm Ht. pose proof (len_nonneg text) as Ht0.
  rewrite read_comments_S. cbv zeta.
  unfold comment_record. rewrite <- app_assoc.
  rewrite (skipn_app_exact 8 marker) by (unfold len in Hm; lia).
  change ((byte_of_Z (len text) :: text) ++ more)
    with (byte_of_Z (len text) :: text ++ more).
  change (skipn 1 (byte_of_Z (len text) :: text ++ more)) with (text ++ more).
  cbv iota.
  rewrite byte_val_of_Z, Z.mod_small by lia.
  replace (Z.to_nat (len text)) with (List.length text) by (unfold len; lia).
  rewrite firstn_app_len, skipn_app_len, Nat.sub_diag. cbn [repeat].
  rewrite app_nil_r. reflexivity.
Qed.

(** The comment loop on a buffer that starts with the records of [cs]. *)
Lemma read_comments_records cs : forall rest acc,
  Forall (fun c => len (fst c) = 8 /\ len (snd c) < 256) cs ->
  read_comments (List.length cs)
    (List.concat (map (fun c => comment_record (fst c) (snd c)) cs) ++ rest) acc =
  acc ++ map (fun c => trim_right_nul (snd c)) cs.
Proof.
  induction cs as [|[marker text] cs IH]; intros rest acc Hall.
  - simpl. rewrite app_nil_r. reflexivity.
  - inversion Hall as [|c cs' [Hm Ht] Hcs]; subst c cs'. cbn [fst snd] in *.
    cbn [List.length map List.concat fst snd]. rewrite <- app_assoc.
    rewrite read_comments_record by assumption.
    rewrite IH by exact Hcs.
    rewrite <- app_assoc. reflexivity.
Qed.

Section CommentsChunk.
Context `{lib : AudioLib}.

(** The decoder after a comment chunk laid out as [comments_body], with
    any bytes after the last comment, has been parsed. *)
Lemma parseCommentsChunk_records_at c d pre cs extra post tr :
  Chunk.ID c = COMTID -> Chunk.Size c = len (comments_body cs ++ extra) ->
  data (r d) = pre ++ (comments_body cs ++ extra) ++ post ->
  Forall (fun c => len (fst c) = 8 /\ len (snd c) < 256) cs ->
  len cs < 2 ^ 16 ->
  parseCommentsChunk c (at_pos d (len pre) tr) =
  (None,
   at_pos (set_Comments (Comments d ++ map (fun c => trim_right_nul (snd c)) cs) d)
     (len pre + Chunk.Size c) (IORead (Chunk.Size c) :: tr)).
Proof.
  intros Hid Hsz Hd Hall Hcount.
  pose proof (len_nonneg cs) as Hc0.
  assert (Hsize : 2 <= len (comments_body cs ++ extra)).
  { unfold comments_body. rewrite !len_app, len_be_bytes.
    pose proof (len_nonneg (List.concat (map (fun c => comment_record (fst c) (snd c)) cs))).
    pose proof (len_nonneg extra). lia. }
  unfold parseCommentsChunk. rewrite Hid, Hsz.
  rewrite bytes_eqb_refl. cbn [negb].
  change (r (at_pos d (len pre) tr))
    with {| data := data (r d); pos := len pre; trace := tr |}.
  rewrite (io_CopyN_at {| data := data (r d); pos := len pre; trace := tr |}
             pre (comments_body cs ++ extra) post Hd eq_refl) by lia.
  unfold comments_body at 1. rewrite <- app_assoc.
  rewrite <- (len_be_bytes 2 (len cs)) at 1. rewrite buf_Read_app. cbv iota.
  rewrite be_uint_be_bytes by (simpl; lia).
  replace (Z.to_nat (len cs)) with (List.length cs) by (unfold len; lia).
  rewrite (read_comments_records cs extra _ Hall).
  reflexivity.
Qed.

(** X10: [parseCommentsChunk] on a comment chunk whose body is laid out as it
    reads it (a 2-byte count, then per comment eight bytes, a length byte
    and the text; whatever follows the last comment is ignored) appends the
    texts to the comments of the decoder, in order and each without its
    trailing zero bytes. It consumes the size of the chunk in one request,
    returns and records no error, and leaves the format fields alone. *)
Theorem parseCommentsChunk_reads_comments c d pre cs extra post tr :
  Chunk.ID c = COMTID -> Chunk.Size c = len (comments_body cs ++ extra) ->
  data (r d) = pre ++ (comments_body cs ++ extra) ++ post ->
  Forall (fun c => len (fst c) = 8 /\ len (snd c) < 256) cs ->
  len cs < 2 ^ 16 ->
  let res := parseCommentsChunk c (at_pos d (len pre) tr) in
  fst res = None /\ err (snd res) = None /\
  Comments (snd res) = Comments d ++ map (fun c => trim_right_nul (snd c)) cs /\
  pos (r (snd res)) = len pre + Chunk.Size c /\
  trace (r (snd res)) = IORead (Chunk.Size c) :: tr /\
  SampleRate (snd res) = SampleRate d /\ NumChans (snd res) = NumChans d /\
  byteOrder (snd res) = byteOrder d.
Proof.
  intros Hid Hsz Hd Hall Hcount res. subst res.
  rewrite (parseCommentsChunk_records_at c d pre cs extra post tr) by assumption.
  repeat split.
Qed.

End CommentsChunk.

(** ** Texts *)

(** X11: [nullTermStr] returns the bytes before the first zero byte of its
    argument, and all of it when it has none: the result has no zero byte,
    is a prefix of the argument, and what it leaves out is empty or starts
    with a zero byte. [clen] is its length. *)
Theorem nullTermStr_cuts_at_first_nul (b : list byte) :
  ~ In x00 (nullTermStr b) /\
  List.length (nullTermStr b) = clen b /\
  exists rest, b = nullTermStr b ++ rest /\ (rest = [] \/ exists t, rest = x00 :: t).
Proof.
  unfold nullTermStr. induction b as [|x b IH].
  - split; [intros []|]. split; [reflexivity|]. exists []. split; [reflexivity|now left].
  - cbn [clen]. destruct (Byte.eqb x x00) eqn:E.
    + apply Byte.byte_dec_bl in E. subst x.
      split; [intros []|]. split; [reflexivity|].
      exists (x00 :: b). split; [reflexivity|]. right. exists b. reflexivity.
    + destruct IH as (Hno & Hlen & rest & Hb & Hrest).
      cbn [firstn]. split; [|split].
      * intros [Hx|Hin]; [|contradiction]. subst x. vm_compute in E. discriminate.
      * cbn [List.length]. rewrite Hlen. reflexivity.
      * exists rest. split; [|exact Hrest]. cbn [app]. rewrite <- Hb. reflexivity.
Qed.

(** ** Apple metadata as text *)

(** X12: [AppleNoteToPitch] names the twelve notes from 48 (C) to 59 (B), each
    with a name of its own, and returns the empty string for every other
    value; [AppleScaleToString] names the scales 1, 2 and 4 and returns the
    empty string for every other value. *)
Theorem Apple_names_defined_iff (note scale : Z) :
  (AppleNoteToPitch note <> EmptyString <-> 48 <= note <= 59) /\
  (forall note', 48 <= note <= 59 -> AppleNoteToPitch note' = AppleNoteToPitch note ->
                 note' = note) /\
  (AppleScaleToString scale <> EmptyString <-> scale = 1 \/ scale = 2 \/ scale = 4).
Proof.
  split; [|split].
  - split.
    + intros H. unfold AppleNoteToPitch in H.
      repeat match type of H with
      | context [?a =? ?b] => destruct (Z.eqb_spec a b); [lia|]
      end.
      contradiction.
    + intros H.
      assert (Hc : note = 48 \/ note = 49 \/ note = 50 \/ note = 51 \/ note = 52 \/
                   note = 53 \/ note = 54 \/ note = 55 \/ note = 56 \/ note = 57 \/
                   note = 58 \/ note = 59) by lia.
      repeat destruct Hc as [Hc|Hc]; subst note; vm_compute; discriminate.
  - intros note' H Heq.
    assert (Hc : note = 48 \/ note = 49 \/ note = 50 \/ note = 51 \/ note = 52 \/
                 note = 53 \/ note = 54 \/ note = 55 \/ note = 56 \/ note = 57 \/
                 note = 58 \/ note = 59) by lia.
    unfold AppleNoteToPitch in Heq at 1.
    repeat match type of Heq with
    | context [note' =? ?b] => destruct (Z.eqb_spec note' b)
    end;
    repeat destruct Hc as [Hc|Hc]; subst; try reflexivity; vm_compute in Heq; discriminate.
  - split.
    + intros H. unfold AppleScaleToString in H.
      repeat match type of H with
      | context [?a =? ?b] => destruct (Z.eqb_spec a b); [lia|]
      end.
      contradiction.
    + intros [-> | [-> | ->]]; vm_compute; discriminate.
Qed.

(** ** [ReadInfo] on whole files *)

Lemma remaining_at s pre post :
  data s = pre ++ post -> pos s = len pre -> remaining s = len post.
Proof.
  intros Hd Hp. unfold remaining. rewrite Hp, Hd.
  pose proof (len_nonneg pre).
  destruct (Z.ltb_spec (len pre) 0); [lia|].
  replace (Z.to_nat (len pre)) with (List.length pre) by (unfold len; lia).
  rewrite skipn_app_len. reflexivity.
Qed.

Lemma remaining_past_end s : len (data s) <= pos s -> remaining s = 0.
Proof.
  intros H. unfold remaining. destruct (Z.ltb_spec (pos s) 0); [reflexivity|].
  rewrite len_skipn. lia.
Qed.

Lemma stream_peek_rest s pre post n :
  data s = pre ++ post -> pos s = len pre -> len post <= n ->
  stream_peek n s = post.
Proof.
  intros Hd Hp Hn. rewrite stream_peek_eq, Hp, Hd.
  pose proof (len_nonneg pre).
  destruct (Z.ltb_spec (len pre) 0); [lia|].
  replace (Z.to_nat (len pre)) with (List.length pre) by (unfold len; lia).
  rewrite skipn_app_len. apply firstn_all2. unfold len in Hn. lia.
Qed.

Section WholeFiles.
Context `{lib : AudioLib}.

(** [ReadInfo] by a new decoder, once the FORM header is read. *)
Lemma ReadInfo_after_header fsize form rest :
  0 <= fsize < 2 ^ 32 -> form = aiffID \/ form = aifcID ->
  let file := form_header fsize form ++ rest in
  let dh := set_Form form (set_Size fsize (set_ID formID (NewDecoder (open_stream file)))) in
  ReadInfo (NewDecoder (open_stream file)) =
    match ReadInfo_scan (S (Z.to_nat (len rest))) 0 (at_pos dh 12 [IORead 12]) with
    | Some d' => d'
    | None => at_pos dh 12 [IORead 12]
    end.
Proof.
  intros Hfs Hform file dh.
  assert (Hlenf : len form = 4) by (destruct Hform; subst form; reflexivity).
  unfold ReadInfo. change (0 <? SampleRate (NewDecoder (open_stream file))) with false.
  cbv iota. unfold file at 1.
  rewrite (readHeaders_at fsize form _ Hfs Hform).
  fold file. fold dh. rewrite set_err_at_pos.
  replace (scan_fuel (at_pos dh 12 [IORead 12])) with (S (Z.to_nat (len rest))); [reflexivity|].
  unfold scan_fuel. cbn [r at_pos set_r set_err data pos].
  change (data (r dh)) with file. unfold file.
  rewrite len_app, (len_form_header _ _ Hlenf). f_equal. f_equal. lia.
Qed.

(** The decoder after [ReadInfo] on an AIFF file whose COMM chunk comes
    first. *)
Lemma ReadInfo_comm_first_at fsize chans frames bits rate extra rest :
  0 <= fsize < 2 ^ 32 ->
  0 <= chans < 2 ^ 16 -> 0 <= frames < 2 ^ 32 -> 0 <= bits < 2 ^ 16 -> len rate = 10 ->
  18 + len extra < 2 ^ 32 ->
  let file := form_header fsize aiffID ++
              chunk_bytes COMMID (comm_body chans frames bits rate ++ extra) ++ rest in
  let dh := set_Form aiffID (set_Size fsize (set_ID formID (NewDecoder (open_stream file)))) in
  ReadInfo (NewDecoder (open_stream file)) =
    at_pos (set_SampleRate (IEEEFloatToInt rate) (set_BitDepth bits
              (set_NumSampleFrames frames (set_NumChans chans
                 (set_commSize (18 + len extra) dh)))))
      (38 + len extra) [IORead (18 + len extra); IORead 4; IORead 4; IORead 12].
Proof.
  intros Hfs Hc Hf Hb Hr Hsz file dh.
  pose proof (len_nonneg extra) as He0.
  set (body := comm_body chans frames bits rate ++ extra).
  assert (Hbody : len body = 18 + len extra).
  { unfold body. rewrite len_app, len_comm_body, Hr. lia. }
  assert (Hd1 : data (r dh) = form_header fsize aiffID ++ COMMID ++
                              be_bytes 4 (len body) ++ (body ++ rest)).
  { unfold dh, file, chunk_bytes. fold body.
    cbn [r set_Form set_Size set_ID NewDecoder open_stream data].
    rewrite <- !app_assoc. reflexivity. }
  assert (Hd2 : data (r dh) = (form_header fsize aiffID ++ COMMID ++ be_bytes 4 (len body)) ++
                              body ++ rest).
  { rewrite Hd1, <- !app_assoc. reflexivity. }
  assert (Hpre : len (form_header fsize aiffID ++ COMMID ++ be_bytes 4 (len body)) = 20).
  { rewrite !len_app, len_form_header, len_be_bytes by reflexivity. reflexivity. }
  unfold file.
  rewrite (ReadInfo_after_header fsize aiffID _ Hfs (or_introl eq_refl)).
  fold file. fold dh. cbn [ReadInfo_scan].
  change (is_EOF (err (at_pos dh 12 [IORead 12]))) with false. cbv iota.
  rewrite (iDnSize_at dh (form_header fsize aiffID) COMMID (len body) _ 12 [IORead 12] Hd1);
    [|reflexivity|reflexivity|lia].
  rewrite set_err_at_pos, bytes_eqb_refl.
  change (12 + 8) with 20. rewrite <- Hpre, Hbody.
  rewrite (parseCommChunk_at dh _ chans frames bits rate extra rest _ eq_refl
             ltac:(discriminate) Hd2 Hc Hf Hb Hr).
  change (0 <? 0) with false. cbv iota. rewrite Hpre.
  replace (20 + (18 + len extra)) with (38 + len extra) by lia. reflexivity.
Qed.

(** X13: A new decoder runs [ReadInfo] on an AIFF file whose FORM header is
    followed by the COMM chunk: it ends with no error, the header fields and
    the four format fields decoded, the cursor right after the COMM chunk.
    It has made four requests (the header, the identifier, the size, the
    body) and no seek. *)
Theorem ReadInfo_decodes_format fsize chans frames bits rate extra rest :
  0 <= fsize < 2 ^ 32 ->
  0 <= chans < 2 ^ 16 -> 0 <= frames < 2 ^ 32 -> 0 <= bits < 2 ^ 16 -> len rate = 10 ->
  18 + len extra < 2 ^ 32 ->
  let file := form_header fsize aiffID ++
              chunk_bytes COMMID (comm_body chans frames bits rate ++ extra) ++ rest in
  let d := ReadInfo (NewDecoder (open_stream file)) in
  err d = None /\ ID d = formID /\ Size d = fsize /\ Form d = aiffID /\
  NumChans d = chans /\ NumSampleFrames d = frames /\ BitDepth d = bits /\
  SampleRate d = IEEEFloatToInt rate /\
  Format (Some d) =
    Some {| NumChannels := chans; FormatSampleRate := IEEEFloatToInt rate |} /\
  byteOrder d = BigEndian /\
  pos (r d) = 38 + len extra /\
  trace (r d) = [IORead (18 + len extra); IORead 4; IORead 4; IORead 12].
Proof.
  intros Hfs Hc Hf Hb Hr Hsz file d. subst d. unfold file.
  rewrite (ReadInfo_comm_first_at fsize chans frames bits rate extra rest) by assumption.
  repeat split.
Qed.

(** X14: A new decoder runs [ReadInfo] on a file that has a FORM header and
    chunks but no COMM chunk, and at most the start of a further header
    after them: the scan passes the chunks and fails on the next header
    read. The decoder ends with the error of that read recorded, wrapped as
    "error reading chunk header" ([io.EOF] when nothing or exactly an
    identifier was left), and without a format. *)
Theorem ReadInfo_without_COMM fsize form cs tail :
  0 <= fsize < 2 ^ 32 -> form = aiffID \/ form = aifcID ->
  Forall scanned_chunk cs -> len tail < 8 -> chunks_size cs < 2 ^ 63 ->
  let file := form_header fsize form ++ chunks_bytes cs ++ tail in
  let d := ReadInfo (NewDecoder (open_stream file)) in
  let e := Errorf "error reading chunk header"
             (if (len tail =? 0) || (len tail =? 4) then EOF else ErrUnexpectedEOF) in
  err d = Some e /\ Err d = Some e /\
  SampleRate d = 0 /\ NumChans d = 0 /\ BitDepth d = 0.
Proof.
  intros Hfs Hform Hcs Htail Hmax file d e.
  assert (Hlenf : len form = 4) by (destruct Hform; subst form; reflexivity).
  pose proof (len_nonneg tail) as Ht0.
  pose proof (chunks_size_length cs) as Hszl.
  set (dh := set_Form form (set_Size fsize (set_ID formID (NewDecoder (open_stream file))))).
  assert (Hdata : data (r dh) = form_header fsize form ++ chunks_bytes cs ++ tail)
    by reflexivity.
  assert (Hfuel : exists k, S (Z.to_nat (len (chunks_bytes cs ++ tail))) =
                            (List.length cs + S k)%nat).
  { exists (Z.to_nat (len (chunks_bytes cs ++ tail)) - List.length cs)%nat.
    rewrite len_app, (len_chunks_bytes _ Hcs). lia. }
  destruct Hfuel as (k & Hfuel).
  destruct (scan_prefix cs (S k) 0 dh (form_header fsize form) tail [IORead 12]
              Hcs Hdata eq_refl ltac:(lia) ltac:(lia)) as (cm & tr & Hskip & _).
  rewrite (len_form_header _ _ Hlenf) in Hskip.
  assert (Hrem : remaining (r (at_pos (set_Comments cm dh) (12 + chunks_size cs) tr)) =
                 len tail).
  { apply (remaining_at _ (form_header fsize form ++ chunks_bytes cs) tail).
    - cbn [r at_pos set_r set_err data]. change (data (r (set_Comments cm dh))) with (data (r dh)).
      rewrite Hdata, <- app_assoc. reflexivity.
    - cbn [r at_pos set_r set_err pos].
      rewrite len_app, (len_form_header _ _ Hlenf), (len_chunks_bytes _ Hcs). reflexivity. }
  destruct (iDnSize_fails (at_pos (set_Comments cm dh) (12 + chunks_size cs) tr)
              ltac:(lia)) as (id & e1 & s1 & Hi & He1 & _ & _).
  rewrite Hrem in He1.
  assert (Hrun : d = set_err (Some e)
                       (set_r s1 (at_pos (set_Comments cm dh) (12 + chunks_size cs) tr))).
  { unfold d, file.
    rewrite (ReadInfo_after_header fsize form _ Hfs Hform).
    fold file. fold dh. rewrite Hfuel, Hskip.
    cbn [ReadInfo_scan].
    change (is_EOF (err (at_pos (set_Comments cm dh) (12 + chunks_size cs) tr))) with false.
    cbv iota. rewrite Hi. unfold e. rewrite <- He1. reflexivity. }
  rewrite Hrun. repeat split.
Qed.

(** X15: A chunk that declares more bytes than the file holds, met before the
    COMM chunk: the scan of [ReadInfo] seeks past the end of the data
    without an error, and fails on the next header read. The decoder ends
    with "error reading chunk header", caused by [io.EOF], recorded, the
    cursor beyond the data, and no format. *)
Theorem ReadInfo_oversize_chunk fsize form id size body :
  0 <= fsize < 2 ^ 32 -> form = aiffID \/ form = aifcID ->
  len id = 4 -> id <> COMMID -> id <> COMTID ->
  len body <= size < 2 ^ 32 ->
  let file := form_header fsize form ++ id ++ be_bytes 4 size ++ body in
  let d := ReadInfo (NewDecoder (open_stream file)) in
  err d = Some (Errorf "error reading chunk header" EOF) /\
  pos (r d) = 20 + size /\ len file <= pos (r d) /\
  SampleRate d = 0 /\ NumChans d = 0.
Proof.
  intros Hfs Hform Hid Hncomm Hncomt Hsize file d.
  assert (Hlenf : len form = 4) by (destruct Hform; subst form; reflexivity).
  pose proof (len_nonneg body) as Hb0.
  set (dh := set_Form form (set_Size fsize (set_ID formID (NewDecoder (open_stream file))))).
  assert (Hdata : data (r dh) = form_header fsize form ++ id ++ be_bytes 4 size ++ body)
    by reflexivity.
  assert (Hflen : len file = 20 + len body).
  { unfold file. rewrite !len_app, (len_form_header _ _ Hlenf), len_be_bytes, Hid. lia. }
  assert (Hfuel : exists k, S (Z.to_nat (len (id ++ be_bytes 4 size ++ body))) = S (S k)).
  { exists (Z.to_nat (len (id ++ be_bytes 4 size ++ body)) - 1)%nat.
    rewrite !len_app, len_be_bytes, Hid. lia. }
  destruct Hfuel as (k & Hfuel).
  destruct (jumpTo_at dh (12 + 8) size (IORead 4 :: IORead 4 :: [IORead 12]))
    as (tr1 & Hjump); [lia|lia|].
  assert (Hrem : remaining (r (at_pos dh (12 + 8 + size) tr1)) = 0).
  { apply remaining_past_end. cbn [r at_pos set_r set_err data pos].
    change (data (r dh)) with file. lia. }
  destruct (iDnSize_fails (at_pos dh (12 + 8 + size) tr1) ltac:(lia))
    as (id1 & e1 & s1 & Hi & He1 & Hs1 & Hpos).
  rewrite Hrem in He1, Hpos. cbn in He1. subst e1.
  cbn [r at_pos set_r set_err pos] in Hpos.
  assert (Hrun : d = set_err (Some (Errorf "error reading chunk header" EOF))
                       (set_r s1 (at_pos dh (12 + 8 + size) tr1))).
  { unfold d, file.
    rewrite (ReadInfo_after_header fsize form _ Hfs Hform).
    fold file. fold dh. rewrite Hfuel.
    cbn [ReadInfo_scan].
    change (is_EOF (err (at_pos dh 12 [IORead 12]))) with false. cbv iota.
    rewrite (iDnSize_at dh (form_header fsize form) id size body 12 [IORead 12] Hdata);
      [|rewrite (len_form_header _ _ Hlenf); reflexivity|exact Hid|lia].
    rewrite set_err_at_pos, (bytes_eqb_neq _ _ Hncomm), (bytes_eqb_neq _ _ Hncomt).
    rewrite Hjump, set_err_at_pos.
    change (is_EOF (err (at_pos dh (12 + 8 + size) tr1))) with false. cbv iota.
    rewrite Hi. reflexivity. }
  rewrite Hrun. cbn [err set_err r set_r pos SampleRate NumChans at_pos].
  rewrite Hpos, Hflen. repeat split; lia.
Qed.

(** X16: A comment chunk that is cut off (it declares more bytes than are
    left), met before the COMM chunk: the copy of its body records
    [io.EOF], on which the scan of [ReadInfo] stops. The decoder ends
    without a format and without an error that [Err] reports, [EOF]
    returns true, and [Duration] returns no error for a quotient of two
    zeros. *)
Theorem ReadInfo_truncated_comment_chunk fsize form size body :
  0 <= fsize < 2 ^ 32 -> form = aiffID \/ form = aifcID ->
  len body < size < 2 ^ 32 ->
  let file := form_header fsize form ++ COMTID ++ be_bytes 4 size ++ body in
  let d := ReadInfo (NewDecoder (open_stream file)) in
  err d = Some EOF /\ Err d = None /\ Decoder_EOF (Some d) = true /\
  SampleRate d = 0 /\ NumChans d = 0 /\ Comments d = [] /\
  fst (Duration (Some (NewDecoder (open_stream file)))) = (FramesPerRate 0 0, None).
Proof.
  intros Hfs Hform Hsize file d.
  assert (Hlenf : len form = 4) by (destruct Hform; subst form; reflexivity).
  pose proof (len_nonneg body) as Hb0.
  set (dh := set_Form form (set_Size fsize (set_ID formID (NewDecoder (open_stream file))))).
  assert (Hdata : data (r dh) = form_header fsize form ++ COMTID ++ be_bytes 4 size ++ body)
    by reflexivity.
  assert (Hfuel : exists k, S (Z.to_nat (len (COMTID ++ be_bytes 4 size ++ body))) = S (S k)).
  { exists (Z.to_nat (len (COMTID ++ be_bytes 4 size ++ body)) - 1)%nat.
    rewrite !len_app, len_be_bytes. change (len COMTID) with 4. lia. }
  destruct Hfuel as (k & Hfuel).
  set (s1 := {| data := file; pos := 20 + len body;
                trace := IORead size :: IORead 4 :: IORead 4 :: [IORead 12] |}).
  assert (Hrun : d = set_err (Some EOF) (set_r s1 dh)).
  { unfold d, file.
    rewrite (ReadInfo_after_header fsize form _ Hfs Hform).
    fold file. fold dh. rewrite Hfuel.
    cbn [ReadInfo_scan].
    change (is_EOF (err (at_pos dh 12 [IORead 12]))) with false. cbv iota.
    rewrite (iDnSize_at dh (form_header fsize form) COMTID size body 12 [IORead 12] Hdata);
      [|rewrite (len_form_header _ _ Hlenf); reflexivity|reflexivity|lia].
    rewrite set_err_at_pos.
    change (bytes_eqb COMTID COMMID) with false. rewrite bytes_eqb_refl. cbv iota.
    unfold parseCommentsChunk. cbn [Chunk.ID Chunk.Size].
    rewrite bytes_eqb_refl. cbn [negb]. unfold io_CopyN.
    destruct (Z.leb_spec size 0); [lia|]. unfold stream_read.
    rewrite (stream_peek_rest _ (form_header fsize form ++ COMTID ++ be_bytes 4 size) body);
      [| cbn [r at_pos set_r set_err data]; rewrite Hdata, <- !app_assoc; reflexivity
       | cbn [r at_pos set_r set_err pos];
         rewrite !len_app, (len_form_header _ _ Hlenf), len_be_bytes; reflexivity
       | lia].
    destruct (Z.eqb_spec (len body) size); [lia|].
    cbn [err set_err is_EOF]. reflexivity. }
  split; [rewrite Hrun; reflexivity|]. split; [rewrite Hrun; reflexivity|].
  split; [rewrite Hrun; reflexivity|]. split; [rewrite Hrun; reflexivity|].
  split; [rewrite Hrun; reflexivity|]. split; [rewrite Hrun; reflexivity|].
  unfold Duration. fold d. rewrite Hrun. reflexivity.
Qed.

(** X17: The scan of [ReadInfo] terminates on every decoder state: it returns
    within [scan_fuel] passes, that is one more than the bytes left in the
    stream, and what it returns does not depend on the passes granted
    beyond that. *)
Theorem ReadInfo_scan_total rewind d :
  exists d', forall k, ReadInfo_scan (scan_fuel d + k) rewind d = Some d'.
Proof.
  destruct (ReadInfo_scan (scan_fuel d) rewind d) as [d'|] eqn:E.
  - exists d'. intros k. apply ReadInfo_scan_more. exact E.
  - exfalso. revert E. apply ReadInfo_scan_enough. unfold scan_fuel. lia.
Qed.

End WholeFiles.

(** ** Decoding samples *)

Section Samples.
Context `{lib : AudioLib}.

(** The decode functions of the table, by bit depth. *)
Lemma sampleDecodeFunc_cases bitDepth o f :
  sampleDecodeFunc bitDepth o = (Some f, None) ->
  (bitDepth = 8 /\ f = decode8) \/
  (bitDepth = 16 /\ f = decode16 o) \/
  (bitDepth = 24 /\
   f = decode24 (match o with BigEndian => Int24BETo32 | LittleEndian => Int24LETo32 end)) \/
  (bitDepth = 32 /\ f = decode32 o).
Proof.
  unfold sampleDecodeFunc.
  destruct (Z.eqb_spec bitDepth 8); [intros H; injection H as <-; auto|].
  destruct (Z.eqb_spec bitDepth 16); [intros H; injection H as <-; auto|].
  destruct (Z.eqb_spec bitDepth 24).
  { destruct o; intros H; injection H as <-; auto. }
  destruct (Z.eqb_spec bitDepth 32); [intros H; injection H as <-; auto 6|].
  discriminate.
Qed.

(** What a decode function does to its reader: it consumes up to the bytes
    of one sample, and fails, with [io.EOF], on an empty reader only. *)
Lemma decodeF_outcome bitDepth o f :
  sampleDecodeFunc bitDepth o = (Some f, None) ->
  forall rd buf, exists v buf',
    f rd buf =
      ((v, match rd with [] => Some EOF | _ => None end),
       (skipn (Z.to_nat (bitDepth / 8)) rd, buf')).
Proof.
  intros Hf rd buf.
  destruct (sampleDecodeFunc_cases _ _ _ Hf) as [[-> ->]|[[-> ->]|[[-> ->]|[-> ->]]]];
    unfold decode8, decode16, decode24, decode32, reader_Read;
    destruct rd as [|b0 rd]; eexists _, _; reflexivity.
Qed.

(** On a reader that holds a whole sample and with a scratch buffer of the
    sample's width, a decode function yields the sample the bytes encode
    and leaves those bytes in the scratch buffer. *)
Lemma decodeF_full bitDepth o f :
  sampleDecodeFunc bitDepth o = (Some f, None) ->
  forall rd buf, bitDepth / 8 <= len rd -> len buf = bitDepth / 8 ->
  exists v,
    let n := Z.to_nat (bitDepth / 8) in
    f rd buf = ((v, None), (skipn n rd, firstn n rd)) /\
    decoded_sample bitDepth o (firstn n rd) v.
Proof.
  intros Hf rd buf Hr Hb.
  assert (Hb' : bitDepth / 8 <= len buf) by lia.
  destruct (sampleDecodeFunc_cases _ _ _ Hf) as [[-> ->]|[[-> ->]|[[-> ->]|[-> ->]]]].
  - change (8 / 8) with 1 in *. take_byte rd Hr b0. take_byte buf Hb' c0.
    destruct buf; [|unfold len in Hb; simpl in Hb; lia].
    eexists. split; [reflexivity|].
    unfold decoded_sample. simpl. split; [reflexivity|].
    pose proof (byte_val_range b0). lia.
  - change (16 / 8) with 2 in *. take_byte rd Hr b0. take_byte rd Hr b1.
    take_byte buf Hb' c0. take_byte buf Hb' c1.
    destruct buf; [|unfold len in Hb; simpl in Hb; lia].
    eexists. split; [reflexivity|].
    unfold decoded_sample. simpl (_ =? _). cbv iota.
    split; [reflexivity|]. apply (to_signed_range 16). lia.
  - change (24 / 8) with 3 in *.
    take_byte rd Hr b0. take_byte rd Hr b1. take_byte rd Hr b2.
    take_byte buf Hb' c0. take_byte buf Hb' c1. take_byte buf Hb' c2.
    destruct buf; [|unfold len in Hb; simpl in Hb; lia].
    eexists. split; [reflexivity|].
    unfold decoded_sample. simpl (_ =? _). cbv iota.
    split; [reflexivity|]. destruct o; [apply Int24BETo32_int32|apply Int24LETo32_int32].
  - change (32 / 8) with 4 in *.
    take_byte rd Hr b0. take_byte rd Hr b1. take_byte rd Hr b2. take_byte rd Hr b3.
    take_byte buf Hb' c0. take_byte buf Hb' c1. take_byte buf Hb' c2. take_byte buf Hb' c3.
    destruct buf; [|unfold len in Hb; simpl in Hb; lia].
    eexists. split; [reflexivity|].
    unfold decoded_sample. simpl (_ =? _). cbv iota.
    split; [reflexivity|]. apply (to_signed_range 32). lia.
Qed.

(** X18: A decode function never reports a short read. On a reader that is not
    empty it returns no error, whatever the number of bytes, and consumes up
    to the bytes of one sample; [io.EOF] is the error of an empty reader.
    From a reader that holds fewer bytes than the sample takes it yields the
    value of those bytes followed by what the scratch buffer held behind
    them, the bytes of the sample decoded before. *)
Theorem decodeF_accepts_short_read bitDepth o f :
  sampleDecodeFunc bitDepth o = (Some f, None) ->
  forall rd buf, len buf = bitDepth / 8 ->
    let res := f rd buf in
    snd (fst res) = (if len rd =? 0 then Some EOF else None) /\
    fst (snd res) = skipn (Z.to_nat (bitDepth / 8)) rd /\
    (0 < len rd < bitDepth / 8 ->
     res = ((fst (fst (f (rd ++ skipn (List.length rd) buf) buf)), None),
            ([], rd ++ skipn (List.length rd) buf))).
Proof.
  intros Hf rd buf Hb.
  destruct (sampleDecodeFunc_cases _ _ _ Hf) as [[-> ->]|[[-> ->]|[[-> ->]|[-> ->]]]].
  - change (8 / 8) with 1 in *.
    destruct rd as [|b0 rd]; cbn; repeat split; unfold len; cbn [List.length]; lia.
  - change (16 / 8) with 2 in *.
    destruct buf as [|c0 [|c1 [|c2 buf]]]; try (unfold len in Hb; simpl in Hb; lia).
    destruct rd as [|b0 [|b1 rd]]; cbn; repeat split;
      unfold len; cbn [List.length]; try lia; reflexivity.
  - change (24 / 8) with 3 in *.
    destruct buf as [|c0 [|c1 [|c2 [|c3 buf]]]]; try (unfold len in Hb; simpl in Hb; lia).
    destruct rd as [|b0 [|b1 [|b2 rd]]]; cbn; repeat split;
      unfold len; cbn [List.length]; try lia; reflexivity.
  - change (32 / 8) with 4 in *.
    destruct buf as [|c0 [|c1 [|c2 [|c3 [|c4 buf]]]]]; try (unfold len in Hb; simpl in Hb; lia).
    destruct rd as [|b0 [|b1 [|b2 [|b3 rd]]]]; cbn; repeat split;
      unfold len; cbn [List.length]; try lia; reflexivity.
Qed.

(** ** What [PCMBuffer] returns *)

Lemma samples_started_next k m :
  0 < k -> 0 < m -> samples_started k (Z.max 0 (m - k)) = samples_started k m - 1.
Proof.
  intros Hk Hm. unfold samples_started.
  destruct (Z.le_gt_cases k m) as [H|H].
  - rewrite Z.max_r by lia.
    replace (m + k - 1) with (m - k + k - 1 + 1 * k) by lia.
    rewrite Z.div_add by lia. lia.
  - rewrite Z.max_l by lia.
    rewrite (Z.div_small (0 + k - 1) k) by lia.
    replace (m + k - 1) with (m - 1 + 1 * k) by lia.
    rewrite Z.div_add by lia. rewrite Z.div_small by lia. lia.
Qed.

Lemma samples_started_split k m :
  0 < k -> 0 <= m ->
  samples_started k m = m / k + (if 0 <? m mod k then 1 else 0).
Proof.
  intros Hk Hm. unfold samples_started.
  pose proof (Z.div_mod m k ltac:(lia)) as Hdm.
  pose proof (Z.mod_pos_bound m k Hk) as Hmod.
  destruct (Z.ltb_spec 0 (m mod k)).
  - replace (m + k - 1) with (m mod k - 1 + (m / k + 1) * k) by lia.
    rewrite Z.div_add by lia. rewrite Z.div_small by lia. lia.
  - replace (m + k - 1) with (k - 1 + (m / k) * k) by lia.
    rewrite Z.div_add by lia. rewrite Z.div_small by lia. lia.
Qed.

(** The decode loop: it fills [todo] slots when the reader holds a byte for
    each of them, and otherwise stops on the first empty read, having
    counted the samples started, less one if the bytes are misaligned. *)
Lemma PCMBuffer_loop_count bitDepth o f :
  sampleDecodeFunc bitDepth o = (Some f, None) ->
  forall todo n misaligned bufR sampleBuf dat,
    let cnt := samples_started (bitDepth / 8) (len bufR) in
    fst (PCMBuffer_loop todo n f misaligned bufR sampleBuf dat) =
      if Z.of_nat todo <=? cnt then (n + Z.of_nat todo, None)
      else (n + cnt - (if misaligned then 1 else 0), Some EOF).
Proof.
  intros Hf.
  assert (Hk : 0 < bitDepth / 8).
  { destruct (sampleDecodeFunc_cases _ _ _ Hf) as [[-> _]|[[-> _]|[[-> _]|[-> _]]]];
      reflexivity. }
  induction todo as [|todo IH]; intros n misaligned bufR sampleBuf dat cnt.
  - cbn [PCMBuffer_loop fst].
    assert (0 <= cnt).
    { unfold cnt, samples_started. pose proof (len_nonneg bufR).
      apply Z.div_pos; lia. }
    destruct (Z.leb_spec (Z.of_nat 0) cnt); [|lia]. f_equal. lia.
  - cbn [PCMBuffer_loop].
    destruct (decodeF_outcome _ _ _ Hf bufR sampleBuf) as (v & buf' & Hrun).
    rewrite Hrun. destruct bufR as [|b0 bufR].
    + cbn [fst]. unfold cnt, samples_started.
      change (len []) with 0. rewrite Z.div_small by lia.
      destruct (Z.leb_spec (Z.of_nat (S todo)) 0); [lia|].
      destruct misaligned; f_equal; lia.
    + rewrite IH.
      assert (Hlen : 0 < len (b0 :: bufR)) by (unfold len; cbn [List.length]; lia).
      rewrite len_skipn, Z2Nat.id by lia.
      rewrite samples_started_next by lia. fold cnt.
      destruct (Z.leb_spec (Z.of_nat todo) (cnt - 1));
        destruct (Z.leb_spec (Z.of_nat (S todo)) cnt); try lia; f_equal; lia.
Qed.

Lemma store_length n v l : List.length (store n v l) = List.length l.
Proof.
  revert n. induction l as [|x l IH]; intros n; [destruct n; reflexivity|].
  destruct n; cbn [store List.length]; [reflexivity|]. rewrite IH. reflexivity.
Qed.

Lemma PCMBuffer_loop_length todo : forall n f misaligned bufR sampleBuf dat,
  List.length (snd (PCMBuffer_loop todo n f misaligned bufR sampleBuf dat)) =
  List.length dat.
Proof.
  induction todo as [|todo IH]; intros n f misaligned bufR sampleBuf dat; [reflexivity|].
  cbn [PCMBuffer_loop]. destruct (f bufR sampleBuf) as [[v e] [bufR' sampleBuf']].
  destruct e; [cbn [snd]; apply store_length|].
  rewrite IH. apply store_length.
Qed.

(** X19: [PCMBuffer] on a located PCM chunk, for the bit depths of the table. It
    reads [m] raw bytes in one request: as many as the buffer has room
    for, the chunk's reader still lets through and the stream holds. It
    returns no error, and the count it returns is the number of whole
    samples in [m] bytes, plus one for a partial last sample when that one
    fills the last slot of the buffer. *)
Theorem PCMBuffer_read_count buf d c :
  In (BitDepth d) [8; 16; 24; 32] -> PCMChunk d = Some c ->
  let bps := bytesPerSample (BitDepth d) in
  let L := len (Data buf) in
  let m := Z.max 0 (Z.min (Z.min (L * bps) (Chunk.R c)) (remaining (r d))) in
  let n := m / bps + (if (0 <? m mod bps) && (m / bps + 1 =? L) then 1 else 0) in
  exists b d',
    PCMBuffer_read buf d = Returns (((n, None), m), (b, d')) /\
    pos (r d') = pos (r d) + m /\
    PCMChunk d' = Some (Chunk_set_R (Chunk.R c - m) c) /\
    List.length (Data b) = List.length (Data buf).
Proof.
  intros Hin Hc bps L m n.
  destruct (sampleDecodeFunc_supported (BitDepth d) (byteOrder d) Hin) as (f & Hf).
  assert (Hbps : 0 < bps).
  { unfold bps, bytesPerSample. simpl in Hin.
    destruct Hin as [<-|[<-|[<-|[<-|[]]]]]; reflexivity. }
  assert (HL : 0 <= L) by apply len_nonneg.
  pose proof (remaining_nonneg (r d)) as Hrem0.
  unfold PCMBuffer_read. cbn [SourceBitDepth Data]. rewrite Hf, Hc.
  fold bps. fold L. unfold Chunk_R_Read, limited_Read.
  destruct (Z.leb_spec (Chunk.R c) 0) as [Hlim|Hlim].
  { (* the reader lets nothing through *)
    assert (Hm : m = 0) by (unfold m; nia).
    assert (Hn : n = 0) by (unfold n; rewrite Hm; reflexivity).
    cbn [is_EOF]. change (len []) with 0. rewrite Hn, Hm.
    eexists _, _. split; [reflexivity|].
    cbn [r set_r set_PCMChunk PCMChunk Data].
    rewrite ?Z.add_0_r, ?Z.sub_0_r. destruct c. repeat split. }
  unfold stream_read.
  set (tmpBuf := stream_peek (Z.min (L * bps) (Chunk.R c)) (r d)).
  assert (Hlen : len tmpBuf = m).
  { unfold tmpBuf. rewrite stream_peek_len by nia. unfold m. nia. }
  destruct (Z.leb_spec (len (data (r d))) (pos (r d))) as [Hend|Hmore].
  { (* the stream is exhausted *)
    assert (Hm : m = 0).
    { unfold m. rewrite (remaining_past_end _ Hend). nia. }
    assert (Hn : n = 0) by (unfold n; rewrite Hm; reflexivity).
    cbn [is_EOF]. change (len []) with 0. rewrite Hn, Hm.
    eexists _, _. split; [reflexivity|].
    cbn [r set_r set_PCMChunk PCMChunk Data pos].
    rewrite ?Hlen, ?Hm, ?Z.sub_0_r. destruct c. repeat split. }
  rewrite Hlen.
  destruct (Z.eqb_spec m 0) as [Hm|Hm].
  { assert (Hn : n = 0) by (unfold n; rewrite Hm; reflexivity).
    rewrite Hn, Hm. eexists _, _. split; [reflexivity|].
    cbn [r set_r set_PCMChunk PCMChunk Data pos].
    rewrite ?Hlen, ?Hm. repeat split. }
  (* the decode loop *)
  pose proof (PCMBuffer_loop_count _ _ _ Hf (List.length (Data buf)) 0
                (0 <? m mod bps) tmpBuf (repeat x00 (Z.to_nat bps)) (Data buf)) as Hloop.
  pose proof (PCMBuffer_loop_length (List.length (Data buf)) 0 f
                (0 <? m mod bps) tmpBuf (repeat x00 (Z.to_nat bps)) (Data buf)) as Hdat.
  cbv zeta in Hloop. rewrite Hlen in Hloop.
  change (BitDepth d / 8) with bps in Hloop.
  change (Z.of_nat (List.length (Data buf))) with L in Hloop.
  destruct (PCMBuffer_loop _ _ _ _ _ _ _) as [[n1 e1] dat].
  cbn [fst snd] in Hloop, Hdat.
  assert (Hm0 : 0 < m) by (unfold m in *; lia).
  assert (HmL : m <= L * bps) by (unfold m; lia).
  rewrite (samples_started_split bps m Hbps ltac:(lia)) in Hloop.
  pose proof (Z.div_mod m bps ltac:(lia)) as Hdm.
  pose proof (Z.mod_pos_bound m bps Hbps) as Hmod.
  assert (Hres : n1 = n /\ (if is_EOF e1 then None else e1) = None).
  { unfold n. destruct (Z.ltb_spec 0 (m mod bps)) as [Hmis|Hal]; cbn [andb].
    - assert (m / bps + 1 <= L) by nia.
      destruct (Z.leb_spec L (m / bps + 1)); injection Hloop as -> ->.
      + destruct (Z.eqb_spec (m / bps + 1) L); [|lia]. split; [lia|reflexivity].
      + destruct (Z.eqb_spec (m / bps + 1) L); [lia|]. split; [lia|reflexivity].
    - assert (m / bps <= L) by nia.
      destruct (Z.leb_spec L (m / bps + 0)); injection Hloop as -> ->;
        split; try reflexivity; lia. }
  destruct Hres as (-> & ->).
  eexists _, _. split; [reflexivity|].
  cbn [r set_r set_PCMChunk PCMChunk Data pos].
  rewrite ?Hlen. repeat split. exact Hdat.
Qed.

(** *** The samples in the buffer *)

Lemma nth_store_same n v l :
  (n < List.length l)%nat -> nth n (store n v l) 0 = v.
Proof.
  revert n. induction l as [|x l IH]; intros n Hn; [simpl in Hn; lia|].
  destruct n; cbn [store nth]; [reflexivity|]. apply IH. simpl in Hn. lia.
Qed.

Lemma nth_store_other n j v l : j <> n -> nth j (store n v l) 0 = nth j l 0.
Proof.
  revert n j. induction l as [|x l IH]; intros n j Hj; [destruct n; reflexivity|].
  destruct n; destruct j; cbn [store nth]; try reflexivity; try lia.
  apply IH. lia.
Qed.

(** The loop leaves the slots before its first index as they are. *)
Lemma PCMBuffer_loop_keeps_before todo : forall n f misaligned bufR sampleBuf dat j,
  0 <= n -> (j < Z.to_nat n)%nat ->
  nth j (snd (PCMBuffer_loop todo n f misaligned bufR sampleBuf dat)) 0 = nth j dat 0.
Proof.
  induction todo as [|todo IH]; intros n f misaligned bufR sampleBuf dat j Hn Hj;
    [reflexivity|].
  cbn [PCMBuffer_loop]. destruct (f bufR sampleBuf) as [[v e] [bufR' sampleBuf']].
  destruct e; cbn [snd].
  - apply nth_store_other. lia.
  - rewrite IH by lia. apply nth_store_other. lia.
Qed.

(** It leaves the slots after the pass that finds the reader empty as they
    are. *)
Lemma PCMBuffer_loop_keeps_after bitDepth o f :
  sampleDecodeFunc bitDepth o = (Some f, None) ->
  forall todo n misaligned bufR sampleBuf dat j,
    0 <= n -> n + samples_started (bitDepth / 8) (len bufR) < Z.of_nat j ->
    nth j (snd (PCMBuffer_loop todo n f misaligned bufR sampleBuf dat)) 0 = nth j dat 0.
Proof.
  intros Hf.
  assert (Hk : 0 < bitDepth / 8).
  { destruct (sampleDecodeFunc_cases _ _ _ Hf) as [[-> _]|[[-> _]|[[-> _]|[-> _]]]];
      reflexivity. }
  induction todo as [|todo IH]; intros n misaligned bufR sampleBuf dat j Hn Hj;
    [reflexivity|].
  assert (Hcnt : 0 <= samples_started (bitDepth / 8) (len bufR)).
  { unfold samples_started. pose proof (len_nonneg bufR). apply Z.div_pos; lia. }
  cbn [PCMBuffer_loop].
  destruct (decodeF_outcome _ _ _ Hf bufR sampleBuf) as (v & buf' & Hrun).
  rewrite Hrun. destruct bufR as [|b0 bufR]; cbn [snd].
  - apply nth_store_other. lia.
  - assert (Hlen : 0 < len (b0 :: bufR)) by (unfold len; cbn [List.length]; lia).
    rewrite IH.
    + apply nth_store_other. lia.
    + lia.
    + rewrite len_skipn, Z2Nat.id by lia.
      rewrite samples_started_next by lia. lia.
Qed.

(** Each whole sample the reader holds ends up decoded in its slot. *)
Lemma PCMBuffer_loop_samples bitDepth o f :
  sampleDecodeFunc bitDepth o = (Some f, None) ->
  forall todo n misaligned bufR sampleBuf dat i,
    0 <= n -> len sampleBuf = bitDepth / 8 ->
    (i < todo)%nat -> (Z.of_nat i + 1) * (bitDepth / 8) <= len bufR ->
    (Z.to_nat n + i < List.length dat)%nat ->
    decoded_sample bitDepth o (sample_bytes (bitDepth / 8) i bufR)
      (nth (Z.to_nat n + i)
         (snd (PCMBuffer_loop todo n f misaligned bufR sampleBuf dat)) 0).
Proof.
  intros Hf.
  assert (Hk : 0 < bitDepth / 8).
  { destruct (sampleDecodeFunc_cases _ _ _ Hf) as [[-> _]|[[-> _]|[[-> _]|[-> _]]]];
      reflexivity. }
  induction todo as [|todo IH]; intros n misaligned bufR sampleBuf dat i Hn Hsb Hi Hwhole Hdat;
    [lia|].
  cbn [PCMBuffer_loop].
  assert (Hfull : bitDepth / 8 <= len bufR) by nia.
  destruct (decodeF_full _ _ _ Hf bufR sampleBuf Hfull Hsb) as (v & Hrun & Hv).
  cbv zeta in Hrun, Hv. rewrite Hrun.
  destruct i as [|i].
  - rewrite Nat.add_0_r, PCMBuffer_loop_keeps_before by lia.
    rewrite nth_store_same by lia.
    unfold sample_bytes. exact Hv.
  - assert (Hlen' : len (skipn (Z.to_nat (bitDepth / 8)) bufR) = len bufR - bitDepth / 8).
    { rewrite len_skipn, Z2Nat.id by lia. lia. }
    specialize (IH (n + 1) misaligned (skipn (Z.to_nat (bitDepth / 8)) bufR)
                  (firstn (Z.to_nat (bitDepth / 8)) bufR) (store (Z.to_nat n) v dat) i).
    replace (Z.to_nat (n + 1) + i)%nat with (Z.to_nat n + S i)%nat in IH by lia.
    replace (sample_bytes (bitDepth / 8) i (skipn (Z.to_nat (bitDepth / 8)) bufR))
      with (sample_bytes (bitDepth / 8) (S i) bufR) in IH.
    + apply IH; try lia.
      * rewrite len_firstn, Z2Nat.id by lia. lia.
      * rewrite store_length. exact Hdat.
    + unfold sample_bytes. rewrite skipn_skipn. f_equal. f_equal. lia.
Qed.

(** X20: The samples [PCMBuffer] leaves in the buffer. Of the raw bytes the
    request finds, each whole sample is decoded, in order, into the slot of
    its index; the slots after the one where the decode loop found the
    bytes exhausted are as the caller passed them. *)
Theorem PCMBuffer_read_samples buf d c :
  In (BitDepth d) [8; 16; 24; 32] -> PCMChunk d = Some c ->
  let bps := bytesPerSample (BitDepth d) in
  let L := len (Data buf) in
  let raw := stream_peek (Z.min (L * bps) (Chunk.R c)) (r d) in
  exists res b d',
    PCMBuffer_read buf d = Returns (res, (b, d')) /\
    (forall i, (Z.of_nat i + 1) * bps <= len raw ->
       decoded_sample (BitDepth d) (byteOrder d) (sample_bytes bps i raw)
         (nth i (Data b) 0)) /\
    (forall j, samples_started bps (len raw) < Z.of_nat j ->
       nth j (Data b) 0 = nth j (Data buf) 0).
Proof.
  intros Hin Hc bps L raw.
  destruct (sampleDecodeFunc_supported (BitDepth d) (byteOrder d) Hin) as (f & Hf).
  assert (Hbps : 0 < bps).
  { unfold bps, bytesPerSample. simpl in Hin.
    destruct Hin as [<-|[<-|[<-|[<-|[]]]]]; reflexivity. }
  assert (HL : 0 <= L) by apply len_nonneg.
  pose proof (len_nonneg raw) as Hraw0.
  unfold PCMBuffer_read. cbn [SourceBitDepth Data]. rewrite Hf, Hc.
  fold bps. fold L. unfold Chunk_R_Read, limited_Read.
  destruct (Z.leb_spec (Chunk.R c) 0) as [Hlim|Hlim].
  { cbn [is_EOF]. eexists _, _, _. split; [reflexivity|]. cbn [Data]. split; [|reflexivity].
    intros i Hi. exfalso.
    pose proof (stream_peek_at_most (Z.min (L * bps) (Chunk.R c)) (r d)). fold raw in H.
    nia. }
  unfold stream_read. fold raw.
  destruct (Z.leb_spec (len (data (r d))) (pos (r d))) as [Hend|Hmore].
  { cbn [is_EOF]. eexists _, _, _. split; [reflexivity|]. cbn [Data]. split; [|reflexivity].
    intros i Hi. exfalso.
    assert (len raw = 0); [|nia].
    unfold raw. rewrite stream_peek_len by nia.
    rewrite (remaining_past_end _ Hend). nia. }
  destruct (Z.eqb_spec (len raw) 0) as [Hm|Hm].
  { eexists _, _, _. split; [reflexivity|]. cbn [Data]. split; [|reflexivity].
    intros i Hi. nia. }
  pose proof (PCMBuffer_loop_samples _ _ _ Hf (List.length (Data buf)) 0
                (0 <? len raw mod bps) raw (repeat x00 (Z.to_nat bps)) (Data buf)) as Hs.
  pose proof (PCMBuffer_loop_keeps_after _ _ _ Hf (List.length (Data buf)) 0
                (0 <? len raw mod bps) raw (repeat x00 (Z.to_nat bps)) (Data buf)) as Hk.
  destruct (PCMBuffer_loop _ _ _ _ _ _ _) as [[n1 e1] dat].
  cbn [snd] in Hs, Hk.
  eexists _, _, _. split; [reflexivity|]. cbn [Data]. split.
  - intros i Hi.
    assert (HrawL : len raw <= L * bps).
    { pose proof (stream_peek_at_most (Z.min (L * bps) (Chunk.R c)) (r d)). fold raw in H.
      nia. }
    assert (HiL : Z.of_nat i < L) by nia.
    apply (Hs i).
    + lia.
    + unfold len. rewrite repeat_length. unfold bps, bytesPerSample in *. lia.
    + unfold L, len in HiL. lia.
    + exact Hi.
    + unfold L, len in HiL. lia.
  - intros j Hj. apply Hk; [lia|]. exact Hj.
Qed.

End Samples.

(** ** A second pass after [Reset] *)

Section SecondPass.
Context `{lib : AudioLib}.

Ltac open_same d1 d2 H :=
  destruct d1 as [[dat1 p1 t1] ? ? ? ? ? ? ? ? ? ? ? ? ? ? ? ? ? ? ?];
  destruct d2 as [[dat2 p2 t2] ? ? ? ? ? ? ? ? ? ? ? ? ? ? ? ? ? ? ?];
  unfold same_format in H; cbn in H;
  destruct H as (? & ? & ? & ? & ? & ? & ? & ? & ? & ? & ? & ? & ?); subst.

Ltac cases :=
  repeat match goal with
  | |- context [match ?x with _ => _ end] =>
      lazymatch x with
      | context [match _ with _ => _ end] => fail
      | _ => destruct x
      end
  end.

Lemma readHeaders_same d1 d2 :
  same_format d1 d2 ->
  fst (readHeaders d1) = fst (readHeaders d2) /\
  same_format (snd (readHeaders d1)) (snd (readHeaders d2)).
Proof.
  intros H. open_same d1 d2 H.
  unfold readHeaders, io_CopyN, stream_read, stream_peek, buf_Read, fail, same_format.
  change (12 <=? 0) with false.
  cbn [Size r data pos set_err set_r set_ID set_Size set_Form ID Form err fst snd].
  cases; cbn; repeat split.
Qed.

Lemma iDnSize_same d1 d2 :
  same_format d1 d2 ->
  fst (iDnSize d1) = fst (iDnSize d2) /\
  same_format (snd (iDnSize d1)) (snd (iDnSize d2)).
Proof.
  intros H. open_same d1 d2 H.
  unfold iDnSize, binary_Read, stream_read, stream_peek, same_format.
  cbn [r data pos set_err set_r err fst snd].
  cases; cbn; repeat split.
Qed.

Lemma jumpTo_same n d1 d2 :
  same_format d1 d2 ->
  fst (jumpTo n d1) = fst (jumpTo n d2) /\
  same_format (snd (jumpTo n d1)) (snd (jumpTo n d2)).
Proof.
  intros H. open_same d1 d2 H.
  unfold jumpTo, stream_Seek, same_format.
  change (SeekCurrent =? SeekStart) with false.
  change (SeekCurrent =? SeekCurrent) with true.
  cbn [r data pos set_err set_r err fst snd].
  cases; cbn; repeat split.
Qed.

Lemma seek_same off d1 d2 :
  same_format d1 d2 ->
  same_format (set_r (snd (stream_Seek off SeekCurrent (r d1))) d1)
              (set_r (snd (stream_Seek off SeekCurrent (r d2))) d2).
Proof.
  intros H. open_same d1 d2 H.
  unfold stream_Seek, same_format.
  change (SeekCurrent =? SeekStart) with false.
  change (SeekCurrent =? SeekCurrent) with true.
  cbn [r data pos set_err set_r err fst snd].
  cases; cbn; repeat split.
Qed.

Lemma parseCommentsChunk_same c d1 d2 :
  same_format d1 d2 ->
  fst (parseCommentsChunk c d1) = fst (parseCommentsChunk c d2) /\
  same_format (snd (parseCommentsChunk c d1)) (snd (parseCommentsChunk c d2)).
Proof.
  intros H. open_same d1 d2 H.
  unfold parseCommentsChunk, io_CopyN, stream_read, stream_peek, buf_Read, same_format.
  destruct (negb (bytes_eqb (Chunk.ID c) COMTID)); [cbn; repeat split|].
  destruct (Chunk.Size c <=? 0);
    cbn [r data pos set_err set_r set_Comments err fst snd];
    cases; cbn; repeat split.
Qed.

Lemma parseCommChunk_same size d1 d2 :
  same_format d1 d2 ->
  fst (parseCommChunk size d1) = fst (parseCommChunk size d2) /\
  same_format (snd (parseCommChunk size d1)) (snd (parseCommChunk size d2)).
Proof.
  intros H. open_same d1 d2 H.
  unfold parseCommChunk, parseCommChunk_aifc, io_CopyN, stream_read, stream_peek,
    buf_Read, fail, same_format.
  cbn [NumChans r data pos set_commSize].
  destruct (0 <? _); [cbn; repeat split|].
  destruct (size <=? 0);
    cbn [r data pos set_err set_r set_NumChans set_NumSampleFrames set_BitDepth
         set_SampleRate set_Encoding set_EncodingName set_byteOrder set_commSize
         Form Encoding err fst snd];
    cases; cbn; repeat split.
Qed.

Lemma set_err_same e d1 d2 :
  same_format d1 d2 -> same_format (set_err e d1) (set_err e d2).
Proof.
  intros H. open_same d1 d2 H. unfold same_format. cbn. repeat split.
Qed.

Lemma same_format_refl d : same_format d d.
Proof. unfold same_format. repeat split. Qed.

(** The scan takes the same course on two such states. *)
Lemma ReadInfo_scan_same fuel : forall rewind d1 d2,
  same_format d1 d2 ->
  match ReadInfo_scan fuel rewind d1, ReadInfo_scan fuel rewind d2 with
  | Some a, Some b => same_format a b
  | None, None => True
  | _, _ => False
  end.
Proof.
  induction fuel as [|fuel IH]; intros rewind d1 d2 H.
  - cbn [ReadInfo_scan].
    assert (He : err d1 = err d2) by (unfold same_format in H; tauto).
    rewrite He. destruct (is_EOF (err d2)); [exact H|exact I].
  - cbn [ReadInfo_scan].
    assert (He : err d1 = err d2) by (unfold same_format in H; tauto).
    rewrite He. destruct (is_EOF (err d2)); [exact H|].
    destruct (iDnSize_same d1 d2 H) as (Hfst & Hsnd).
    destruct (iDnSize d1) as [[[id size] e] a1].
    destruct (iDnSize d2) as [[[id2 size2] e2] a2].
    cbn [fst snd] in Hfst, Hsnd. injection Hfst as <- <- <-.
    pose proof (set_err_same e _ _ Hsnd) as Hs.
    destruct e as [x|].
    { apply set_err_same. exact Hs. }
    destruct (bytes_eqb id COMMID).
    { destruct (parseCommChunk_same size _ _ Hs) as (_ & Hp).
      destruct (parseCommChunk size (set_err None a1)) as [e1 b1].
      destruct (parseCommChunk size (set_err None a2)) as [e2 b2].
      cbn [snd] in Hp. destruct (0 <? rewind); [|exact Hp].
      apply seek_same. exact Hp. }
    destruct (bytes_eqb id COMTID).
    { match goal with |- context [parseCommentsChunk ?c (set_err None a1)] =>
        destruct (parseCommentsChunk_same c _ _ Hs) as (_ & Hp);
        destruct (parseCommentsChunk c (set_err None a1)) as [e1 b1];
        destruct (parseCommentsChunk c (set_err None a2)) as [e2 b2]
      end.
      cbn [snd] in Hp. apply IH. exact Hp. }
    assert (Hsr : SampleRate (set_err None a1) = SampleRate (set_err None a2))
      by (unfold same_format in Hs; tauto).
    rewrite Hsr.
    destruct (jumpTo_same size _ _ Hs) as (Hje & Hjd).
    destruct (jumpTo size (set_err None a1)) as [e1 b1].
    destruct (jumpTo size (set_err None a2)) as [e2 b2].
    cbn [fst snd] in Hje, Hjd. subst e2.
    pose proof (set_err_same e1 _ _ Hjd) as Hj.
    destruct e1; [exact Hj|]. apply IH. exact Hj.
Qed.

Lemma ReadInfo_same d1 d2 :
  same_format d1 d2 -> same_format (ReadInfo d1) (ReadInfo d2).
Proof.
  intros H. unfold ReadInfo.
  assert (Hsr : SampleRate d1 = SampleRate d2) by (unfold same_format in H; tauto).
  rewrite Hsr. destruct (0 <? SampleRate d2); [exact H|].
  destruct (readHeaders_same d1 d2 H) as (Hfst & Hsnd).
  destruct (readHeaders d1) as [e a1]. destruct (readHeaders d2) as [e2 a2].
  cbn [fst snd] in Hfst, Hsnd. subst e2.
  pose proof (set_err_same e _ _ Hsnd) as Hs.
  destruct e as [x|]; [apply set_err_same; exact Hs|].
  assert (Hfuel : scan_fuel (set_err None a1) = scan_fuel (set_err None a2)).
  { unfold scan_fuel. unfold same_format in Hs.
    destruct Hs as (_ & _ & _ & _ & _ & _ & _ & _ & _ & _ & _ & Hd & Hp).
    rewrite Hd, Hp. reflexivity. }
  rewrite Hfuel.
  pose proof (ReadInfo_scan_same (scan_fuel (set_err None a2)) 0 _ _ Hs) as Hscan.
  destruct (ReadInfo_scan _ 0 (set_err None a1));
    destruct (ReadInfo_scan _ 0 (set_err None a2)); try contradiction; assumption.
Qed.

(** X21: [ReadInfo] after [Reset] decodes what a new decoder on the same data
    decodes: whatever the decoder has been through, the two end with the
    same FORM fields, the same format fields, the same recorded error and
    the same cursor. (What [Reset] leaves on the decoder, the comments or
    the byte order, has no part in it.) *)
Theorem ReadInfo_after_Reset_as_new d :
  same_format (ReadInfo (Reset d)) (ReadInfo (NewDecoder (open_stream (data (r d))))).
Proof.
  apply ReadInfo_same. unfold same_format. repeat split.
Qed.

End SecondPass.

(** ** Errors on the way to the samples *)

Section PCMErrors.
Context `{lib : AudioLib}.

Lemma sampleDecodeFunc_unsupported bitDepth o :
  ~ In bitDepth [8; 16; 24; 32] ->
  sampleDecodeFunc bitDepth o = (None, Some (ErrBitDepth bitDepth)).
Proof.
  intros Hnot. simpl in Hnot. unfold sampleDecodeFunc.
  destruct (Z.eqb_spec bitDepth 8); [exfalso; apply Hnot; auto|].
  destruct (Z.eqb_spec bitDepth 16); [exfalso; apply Hnot; auto|].
  destruct (Z.eqb_spec bitDepth 24); [exfalso; apply Hnot; auto|].
  destruct (Z.eqb_spec bitDepth 32); [exfalso; apply Hnot; auto 6|].
  reflexivity.
Qed.

(** X22: A header that [readHeaders] rejects, on a decoder that has not reached
    the PCM data: [FwdToPCM] records the failure, wrapped as "failed to
    read header", and returns nil all the same. [PCMBuffer], which goes on
    after a nil, then fails on the bit depth, which was never read: the
    error it returns names the depth, and the failure of the header is what
    [Err] reports. *)
Theorem PCMBuffer_after_rejected_header fuel buf d x :
  pcmDataAccessed d = false -> ~ In (BitDepth d) [8; 16; 24; 32] ->
  fst (readHeaders d) = Some x ->
  exists d',
    FwdToPCM fuel d = Returns (None, d') /\
    Err d' = Some (Errorf "failed to read header" x) /\
    PCMBuffer fuel (Some buf) d =
      Returns ((0, Some (Errorf "could not get sample decode func"
                           (ErrBitDepth (BitDepth d)))),
               (Some {| BufFormat := BufFormat buf; Data := Data buf;
                        SourceBitDepth := BitDepth d |}, d')).
Proof.
  intros Hacc Hnot Hx.
  assert (Hkeep : BitDepth (snd (readHeaders d)) = BitDepth d /\
                  byteOrder (snd (readHeaders d)) = byteOrder d).
  { unfold readHeaders, io_CopyN, stream_read, buf_Read, fail.
    repeat match goal with
    | |- context [match ?x with _ => _ end] =>
        lazymatch x with
        | context [match _ with _ => _ end] => fail
        | _ => destruct x
        end
    end; cbn; split; reflexivity. }
  destruct Hkeep as (Hbd & Hbo).
  unfold PCMBuffer, WasPCMAccessed. rewrite Hacc. unfold FwdToPCM.
  destruct (readHeaders d) as [e d1]. cbn [fst snd] in Hx, Hbd, Hbo. subst e.
  eexists. split; [reflexivity|]. split; [reflexivity|].
  unfold PCMBuffer_read. cbn [SourceBitDepth BitDepth set_err byteOrder].
  rewrite Hbd, Hbo, (sampleDecodeFunc_unsupported _ _ Hnot). reflexivity.
Qed.

End PCMErrors.

(** ** A comment chunk that is cut off *)

Section CutOffComment.
Context `{lib : AudioLib}.

(** X23: With the format known, [Drain] meets a comment chunk whose size, made
    even, exceeds what is left of the stream (a chunk that is cut off, or
    an odd-sized last chunk without its pad byte). The copy of the body
    records [io.EOF], [parseChunk] drops the error, and the loop of [Drain]
    ends on the recorded error: [Drain] returns [io.EOF] itself, where the
    end of the data between two chunks makes it return nil. No comment is
    added. *)
Theorem Drain_cut_off_comment_chunk fuel d pre size body :
  0 < SampleRate d -> err d = None ->
  data (r d) = pre ++ COMTID ++ be_bytes 4 size ++ body -> pos (r d) = len pre ->
  0 <= size < 2 ^ 32 - 1 -> len body < size + size mod 2 ->
  exists d',
    Drain (S fuel) d = Returns (Some EOF, d') /\
    Err d' = None /\ Decoder_EOF (Some d') = true /\
    Comments d' = Comments d /\ pos (r d') = len pre + 8 + len body.
Proof.
  intros Hsr Herr Hd Hp Hs Hbody.
  pose proof (len_nonneg body) as Hb0. pose proof (len_nonneg pre) as Hpre0.
  pose proof (Z.mod_pos_bound size 2 ltac:(lia)) as Hmod.
  set (size' := if size mod 2 =? 0 then size else wrap32 (size + 1)).
  assert (Hsize' : size' = size + size mod 2).
  { unfold size'. destruct (Z.eqb_spec (size mod 2) 0) as [E|E]; [lia|].
    rewrite wrap32_small by lia. lia. }
  cbn [Drain]. rewrite Herr.
  rewrite (NextChunk_at d pre COMTID size body Hsr Herr Hd Hp eq_refl) by lia.
  fold size'. rewrite set_err_at_pos.
  unfold parseChunk. cbn [Chunk.ID].
  change (bytes_eqb COMTID COMMID) with false.
  change (bytes_eqb COMTID SSNDID) with false.
  rewrite bytes_eqb_refl. cbv iota.
  unfold parseCommentsChunk. cbn [Chunk.ID Chunk.Size].
  rewrite bytes_eqb_refl. cbn [negb]. unfold io_CopyN.
  destruct (Z.leb_spec size' 0); [lia|]. unfold stream_read.
  rewrite (stream_peek_rest _ (pre ++ COMTID ++ be_bytes 4 size) body);
    [| cbn [r at_pos set_r set_err data]; rewrite Hd, <- !app_assoc; reflexivity
     | cbn [r at_pos set_r set_err pos]; rewrite !len_app, len_be_bytes;
       change (len COMTID) with 4; lia
     | lia].
  destruct (Z.eqb_spec (len body) size'); [lia|].
  cbn [snd]. eexists. split.
  - destruct fuel; cbn [Drain err set_err]; reflexivity.
  - cbn [Err err set_err is_EOF Decoder_EOF Comments set_r at_pos r pos].
    repeat split.
Qed.

End CutOffComment.

(** ** The Apple chunks *)

Section AppleChunks.
Context `{lib : AudioLib}.

(** A read through the chunk's bounded reader that finds its bytes. *)
Lemma Chunk_R_Read_at c d pre x post :
  data (r d) = pre ++ x ++ post -> pos (r d) = len pre ->
  0 < len x <= Chunk.R c ->
  Chunk_R_Read (len x) c d =
    ((x, None),
     (Chunk_set_R (Chunk.R c - len x) c,
      set_r {| data := data (r d); pos := len pre + len x;
               trace := IORead (len x) :: trace (r d) |} d)).
Proof.
  intros Hd Hp Hx. unfold Chunk_R_Read, limited_Read.
  destruct (Z.leb_spec (Chunk.R c) 0); [lia|].
  rewrite Z.min_l by lia. unfold stream_read.
  rewrite (stream_peek_at (r d) pre x post Hd Hp).
  destruct (Z.leb_spec (len (data (r d))) (pos (r d))) as [Hend|Hmore].
  { rewrite Hd, Hp, !len_app in Hend. pose proof (len_nonneg post). lia. }
  rewrite Hp. reflexivity.
Qed.

Lemma Chunk_R_ReadFull_at c d pre x post :
  data (r d) = pre ++ x ++ post -> pos (r d) = len pre ->
  0 < len x <= Chunk.R c ->
  Chunk_R_ReadFull (len x) c d =
    ((x, None),
     (Chunk_set_R (Chunk.R c - len x) c,
      set_r {| data := data (r d); pos := len pre + len x;
               trace := IORead (len x) :: trace (r d) |} d)).
Proof.
  intros Hd Hp Hx. unfold Chunk_R_ReadFull, limited_ReadFull.
  destruct (Z.leb_spec (len x) 0); [lia|].
  destruct (Z.leb_spec (Chunk.R c) 0); [lia|].
  rewrite Z.min_l by lia. unfold stream_read.
  rewrite (stream_peek_at (r d) pre x post Hd Hp).
  unfold read_full_err. rewrite Z.eqb_refl, Hp. reflexivity.
Qed.

Lemma Chunk_Done_keeps c d :
  AppleInfo (snd (Chunk_Done c d)) = AppleInfo d /\
  HasAppleInfo (snd (Chunk_Done c d)) = HasAppleInfo d.
Proof.
  unfold Chunk_Done. destruct (_ && _); [|split; reflexivity].
  destruct (stream_read _ _). split; reflexivity.
Qed.

(** The tag loop of [parseCateChunk] on slots of fifty bytes found at the
    cursor, the chunk's reader letting them through. *)
Lemma read_tags_at slots : forall c d pre post tmp,
  Forall (fun sl => len sl = 50) slots -> len tmp = 50 ->
  data (r d) = pre ++ List.concat slots ++ post -> pos (r d) = len pre ->
  50 * len slots <= Chunk.R c ->
  let res := read_tags (List.length slots) tmp c d in
  fst res = None /\
  Tags (AppleInfo (snd (snd (snd res)))) =
    Tags (AppleInfo d) ++
    map nullTermStr (filter (fun sl => 0 <? byte_val (nth 0 sl x00)) slots) /\
  pos (r (snd (snd (snd res)))) = len pre + 50 * len slots /\
  Chunk.R (fst (snd (snd res))) = Chunk.R c - 50 * len slots /\
  data (r (snd (snd (snd res)))) = data (r d) /\
  HasAppleInfo (snd (snd (snd res))) = HasAppleInfo d.
Proof.
  induction slots as [|sl slots IH]; intros c d pre post tmp Hall Htmp Hd Hp HR.
  - cbn [List.length read_tags fst snd filter map]. change (len []) with 0.
    rewrite app_nil_r. repeat split; lia.
  - inversion Hall as [|x xs Hsl Hrest]; subst x xs.
    pose proof (len_nonneg slots) as Hs0. pose proof (len_nonneg pre) as Hpre0.
    assert (Hlen : len (sl :: slots) = len slots + 1)
      by (unfold len; cbn [List.length]; lia).
    rewrite Hlen in *.
    cbn [List.length read_tags].
    assert (Hd' : data (r d) = pre ++ sl ++ (List.concat slots ++ post)).
    { rewrite Hd. cbn [List.concat]. rewrite <- app_assoc. reflexivity. }
    rewrite Htmp, <- Hsl.
    rewrite (Chunk_R_Read_at c d pre sl _ Hd' Hp) by lia.
    assert (Htmp' : sl ++ skipn (List.length sl) tmp = sl).
    { rewrite skipn_all2; [apply app_nil_r|]. unfold len in *. lia. }
    rewrite Htmp'.
    match goal with |- context [read_tags _ sl ?c1 ?d1] =>
      specialize (IH c1 d1 (pre ++ sl) post sl Hrest Hsl)
    end.
    cbv zeta in IH.
    destruct (0 <? byte_val (nth 0 sl x00)) eqn:Efirst.
    + destruct IH as (I1 & I2 & I3 & I4 & I5 & I6).
      * cbn [r set_r on_AppleInfo set_AppleInfo data]. rewrite Hd', <- app_assoc. reflexivity.
      * cbn [r set_r on_AppleInfo set_AppleInfo pos]. rewrite len_app. reflexivity.
      * cbn [Chunk.R Chunk_set_R]. lia.
      * cbn [filter]. rewrite Efirst. cbn [map].
        split; [exact I1|]. split; [|split; [|split; [|split]]].
        -- rewrite I2. cbn [AppleInfo on_AppleInfo set_AppleInfo set_r Tags set_Tags].
           rewrite <- app_assoc. reflexivity.
        -- rewrite I3, len_app. lia.
        -- rewrite I4. cbn [Chunk.R Chunk_set_R]. lia.
        -- rewrite I5. reflexivity.
        -- rewrite I6. reflexivity.
    + destruct IH as (I1 & I2 & I3 & I4 & I5 & I6).
      * cbn [r set_r data]. rewrite Hd', <- app_assoc. reflexivity.
      * cbn [r set_r pos]. rewrite len_app. reflexivity.
      * cbn [Chunk.R Chunk_set_R]. lia.
      * cbn [filter]. rewrite Efirst.
        split; [exact I1|]. split; [|split; [|split; [|split]]].
        -- rewrite I2. reflexivity.
        -- rewrite I3, len_app. lia.
        -- rewrite I4. cbn [Chunk.R Chunk_set_R]. lia.
        -- rewrite I5. reflexivity.
        -- rewrite I6. reflexivity.
Qed.

(** X24: [parseCateChunk] on a categorization chunk whose body, found at the
    cursor, has the layout it reads: four bytes, four slots of fifty bytes,
    sixteen bytes, a 2-byte count and that many slots of fifty bytes. It
    returns no error, marks the decoder as having Apple metadata, and
    appends a tag for each slot whose first byte is not zero, the four main
    slots first: the bytes of the slot before its first zero byte. A slot
    that starts with a zero byte gives no tag. *)
Theorem parseCateChunk_reads_tags c d pre skip4 main skip16 more post :
  Chunk.ID c = cateID ->
  len skip4 = 4 -> len main = 4 -> len skip16 = 16 ->
  Forall (fun sl => len sl = 50) main -> Forall (fun sl => len sl = 50) more ->
  len more < 2 ^ 15 ->
  data (r d) =
    pre ++ (skip4 ++ List.concat main ++ skip16 ++ be_bytes 2 (len more) ++
            List.concat more) ++ post ->
  pos (r d) = len pre ->
  222 + 50 * len more <= Chunk.R c ->
  let res := parseCateChunk c d in
  fst res = None /\
  HasAppleInfo (snd (snd res)) = true /\
  Tags (AppleInfo (snd (snd res))) =
    Tags (AppleInfo d) ++
    map nullTermStr (filter (fun sl => 0 <? byte_val (nth 0 sl x00)) (main ++ more)).
Proof.
  intros Hid H4 Hmain H16 Hslots Hmore Hcount Hd Hp HR res.
  pose proof (len_nonneg more) as Hm0. pose proof (len_nonneg pre) as Hpre0.
  assert (Hgen : forall P : option error * (Chunk.t * Decoder) -> Prop,
    (forall c5 d5,
       HasAppleInfo d5 = true ->
       Tags (AppleInfo d5) =
         Tags (AppleInfo d) ++
         map nullTermStr (filter (fun sl => 0 <? byte_val (nth 0 sl x00)) (main ++ more)) ->
       P (None, Chunk_Done c5 d5)) ->
    P (parseCateChunk c d)).
  2:{ unfold res. apply Hgen. intros c5 d5 Ha Ht. cbn [fst snd].
      destruct (Chunk_Done_keeps c5 d5) as (Hk1 & Hk2).
      rewrite Hk1, Hk2. auto. }
  intros P HP.
  assert (Hlmain : List.length main = 4%nat) by (unfold len in Hmain; lia).
  assert (Hcmain : len (List.concat main) = 200).
  { destruct main as [|a [|b [|c0 [|e [|? ?]]]]]; try discriminate.
    inversion Hslots as [|? ? Ha Hs1]; subst. inversion Hs1 as [|? ? Hb Hs2]; subst.
    inversion Hs2 as [|? ? Hc Hs3]; subst. inversion Hs3 as [|? ? He _]; subst.
    cbn [List.concat]. rewrite !len_app, Ha, Hb, Hc, He. reflexivity. }
  unfold parseCateChunk. rewrite Hid, bytes_eqb_refl. cbn [negb].
  (* the four bytes that are skipped *)
  set (d0 := set_HasAppleInfo true d).
  assert (Hd0 : data (r d0) = pre ++ skip4 ++
            (List.concat main ++ skip16 ++ be_bytes 2 (len more) ++ List.concat more ++ post)).
  { change (data (r d0)) with (data (r d)). rewrite Hd, <- !app_assoc. reflexivity. }
  rewrite <- H4 at 1.
  rewrite (Chunk_R_Read_at c d0 pre skip4 _ Hd0 Hp) by lia.
  cbv iota.
  (* the four main slots *)
  match goal with |- context [read_tags 4 ?tmp ?c1 ?d1] =>
    pose proof (read_tags_at main c1 d1 (pre ++ skip4)
                  (skip16 ++ be_bytes 2 (len more) ++ List.concat more ++ post) tmp Hslots
                  eq_refl) as Hmainrun;
    rewrite Hlmain in Hmainrun;
    destruct (read_tags 4 tmp c1 d1) as [e1 [tmp1 [c2 d2]]]
  end.
  cbv zeta in Hmainrun. cbn [fst snd] in Hmainrun.
  destruct Hmainrun as (-> & Htags1 & Hpos1 & HR1 & Hdata1 & Happle1).
  { cbn [r set_r data]. rewrite Hd0, <- !app_assoc. reflexivity. }
  { cbn [r set_r pos]. rewrite len_app. reflexivity. }
  { cbn [Chunk.R Chunk_set_R]. lia. }
  cbn [r set_r data Chunk.R Chunk_set_R AppleInfo HasAppleInfo] in Htags1, Hpos1, HR1, Hdata1, Happle1.
  (* the sixteen bytes that are skipped *)
  assert (Hd2 : data (r d2) = (pre ++ skip4 ++ List.concat main) ++ skip16 ++
            (be_bytes 2 (len more) ++ List.concat more ++ post)).
  { rewrite Hdata1, Hd0, <- !app_assoc. reflexivity. }
  assert (Hp2 : pos (r d2) = len (pre ++ skip4 ++ List.concat main)).
  { rewrite Hpos1, !len_app, Hmain, H4, Hcmain. lia. }
  rewrite <- H16 at 1.
  rewrite (Chunk_R_Read_at c2 d2 _ skip16 _ Hd2 Hp2) by lia.
  cbv iota.
  (* the count *)
  match goal with |- context [Chunk_R_ReadFull 2 ?c3 ?d3] =>
    assert (Hd3 : data (r d3) = (pre ++ skip4 ++ List.concat main ++ skip16) ++
              be_bytes 2 (len more) ++ (List.concat more ++ post))
      by (cbn [r set_r data]; rewrite Hd2, <- !app_assoc; reflexivity);
    assert (Hp3 : pos (r d3) = len (pre ++ skip4 ++ List.concat main ++ skip16))
      by (cbn [r set_r pos]; rewrite !len_app; lia);
    rewrite <- (len_be_bytes 2 (len more)) at 1;
    rewrite (Chunk_R_ReadFull_at c3 d3 _ (be_bytes 2 (len more)) _ Hd3 Hp3)
      by (rewrite len_be_bytes; cbn [Chunk.R Chunk_set_R]; lia)
  end.
  try (rewrite be_uint_be_bytes by (simpl; lia)).
  assert (Hsigned : to_signed 16 (len more) = len more).
  { unfold to_signed. rewrite Z.mod_small by lia.
    destruct (Z.ltb_spec (len more) (2 ^ (16 - 1))); [reflexivity|simpl in *; lia]. }
  rewrite Hsigned.
  replace (Z.to_nat (len more)) with (List.length more) by (unfold len; lia).
  (* the further slots *)
  match goal with |- context [read_tags (List.length more) ?tmp ?c4 ?d4] =>
    pose proof (read_tags_at more c4 d4
                  (pre ++ skip4 ++ List.concat main ++ skip16 ++ be_bytes 2 (len more))
                  post tmp Hmore eq_refl) as Hmorerun;
    destruct (read_tags (List.length more) tmp c4 d4) as [e2 [tmp2 [c5 d5]]]
  end.
  cbv zeta in Hmorerun. cbn [fst snd] in Hmorerun.
  destruct Hmorerun as (-> & Htags2 & _ & _ & _ & Happle2).
  { cbn [r set_r data]. rewrite Hd2, <- !app_assoc. reflexivity. }
  { cbn [r set_r pos]. rewrite !len_app, len_be_bytes in *. lia. }
  { cbn [Chunk.R Chunk_set_R]. rewrite len_be_bytes. lia. }
  cbn [r set_r AppleInfo HasAppleInfo] in Htags2, Happle2.
  apply HP.
  - rewrite Happle2, Happle1. reflexivity.
  - rewrite Htags2, Htags1. cbn [d0 AppleInfo set_HasAppleInfo].
    rewrite filter_app, map_app, app_assoc. reflexivity.
Qed.

Lemma read_field_at n store c d pre x post :
  data (r d) = pre ++ x ++ post -> pos (r d) = len pre ->
  len x = n -> 0 < n <= Chunk.R c ->
  read_field n store c d =
    (Chunk_set_R (Chunk.R c - n) c,
     store (be_uint x)
       (set_r {| data := data (r d); pos := len pre + n;
                 trace := IORead n :: trace (r d) |} d)).
Proof.
  intros Hd Hp Hn Hx. subst n. unfold read_field.
  rewrite (Chunk_R_ReadFull_at c d pre x post Hd Hp Hx). reflexivity.
Qed.

(** What follows the five fields in [parseBascChunk] (a byte, the loop
    flag, the rest of the chunk) leaves them as they are. *)
Lemma parseBascChunk_tail_keeps c d :
  let d' :=
    snd (let '(_, (c, d)) := Chunk_ReadByte c d in
         let '(c, d) :=
           read_field 2 (fun loopFlag d =>
             if loopFlag =? 1 then on_AppleInfo (set_IsLooping true) d else d) c d in
         Chunk_Done c d) in
  HasAppleInfo d' = HasAppleInfo d /\
  Beats (AppleInfo d') = Beats (AppleInfo d) /\
  Note (AppleInfo d') = Note (AppleInfo d) /\
  Scale (AppleInfo d') = Scale (AppleInfo d) /\
  Numerator (AppleInfo d') = Numerator (AppleInfo d) /\
  Denominator (AppleInfo d') = Denominator (AppleInfo d) /\
  Tags (AppleInfo d') = Tags (AppleInfo d).
Proof.
  cbv zeta.
  unfold Chunk_ReadByte, Chunk_ReadBE, read_field, Chunk_R_ReadFull, limited_ReadFull,
    Chunk_Done, stream_read, on_AppleInfo.
  repeat match goal with
  | |- context [match ?x with _ => _ end] =>
      lazymatch x with
      | context [match _ with _ => _ end] => fail
      | _ => destruct x
      end
  end; cbn; repeat split.
Qed.

(** X25: [parseBascChunk] on a chunk whose body, found at the cursor, starts
    with the sixteen bytes of a version, the number of beats, the note, the
    scale and the numerator and denominator of the time signature, all
    big-endian: it returns no error, marks the decoder as having Apple
    metadata and records the five values; the tags stay as they were. *)
Theorem parseBascChunk_decodes_fields c d pre version beats note scale num den post :
  Chunk.ID c = bascID ->
  0 <= version < 2 ^ 32 -> 0 <= beats < 2 ^ 32 -> 0 <= note < 2 ^ 16 ->
  0 <= scale < 2 ^ 16 -> 0 <= num < 2 ^ 16 -> 0 <= den < 2 ^ 16 ->
  data (r d) =
    pre ++ (be_bytes 4 version ++ be_bytes 4 beats ++ be_bytes 2 note ++
            be_bytes 2 scale ++ be_bytes 2 num ++ be_bytes 2 den) ++ post ->
  pos (r d) = len pre ->
  16 <= Chunk.R c ->
  let res := parseBascChunk c d in
  fst res = None /\
  HasAppleInfo (snd (snd res)) = true /\
  Beats (AppleInfo (snd (snd res))) = beats /\
  Note (AppleInfo (snd (snd res))) = note /\
  Scale (AppleInfo (snd (snd res))) = scale /\
  Numerator (AppleInfo (snd (snd res))) = num /\
  Denominator (AppleInfo (snd (snd res))) = den /\
  Tags (AppleInfo (snd (snd res))) = Tags (AppleInfo d).
Proof.
  intros Hid Hv Hb Hn Hs Hnum Hden Hd Hp HR res.
  pose proof (len_nonneg pre) as Hpre0.
  assert (Hgen : forall P : option error * (Chunk.t * Decoder) -> Prop,
    (forall c6 d6,
       HasAppleInfo d6 = true -> Beats (AppleInfo d6) = beats ->
       Note (AppleInfo d6) = note -> Scale (AppleInfo d6) = scale ->
       Numerator (AppleInfo d6) = num -> Denominator (AppleInfo d6) = den ->
       Tags (AppleInfo d6) = Tags (AppleInfo d) ->
       P (let '(_, (c, d)) := Chunk_ReadByte c6 d6 in
          let '(c, d) :=
            read_field 2 (fun loopFlag d =>
              if loopFlag =? 1 then on_AppleInfo (set_IsLooping true) d else d) c d in
          (None, Chunk_Done c d))) ->
    P (parseBascChunk c d)).
  2:{ unfold res. apply Hgen. intros c6 d6 H1 H2 H3 H4 H5 H6 H7.
      pose proof (parseBascChunk_tail_keeps c6 d6) as Hk. cbv zeta in Hk.
      destruct (Chunk_ReadByte c6 d6) as [[v e] [c7 d7]].
      destruct (read_field 2 _ c7 d7) as [c8 d8].
      cbn [fst snd] in *. destruct Hk as (K1 & K2 & K3 & K4 & K5 & K6 & K7).
      rewrite K1, K2, K3, K4, K5, K6, K7. auto 10. }
  intros P HP.
  unfold parseBascChunk. rewrite Hid, bytes_eqb_refl. cbn [negb].
  set (d0 := set_HasAppleInfo true d).
  assert (Hd0 : data (r d0) = pre ++ be_bytes 4 version ++
            be_bytes 4 beats ++ be_bytes 2 note ++ be_bytes 2 scale ++ be_bytes 2 num ++
             be_bytes 2 den ++ post).
  { change (data (r d0)) with (data (r d)). rewrite Hd, <- !app_assoc. reflexivity. }
  assert (Hp0 : pos (r d0) = len pre) by exact Hp.
  match goal with |- context [read_field 4 ?st ?c1 ?d1] =>
    rewrite (read_field_at 4 st c1 d1 (pre) (be_bytes 4 version)
               (be_bytes 4 beats ++ be_bytes 2 note ++ be_bytes 2 scale ++ be_bytes 2 num ++ be_bytes 2 den ++ post))
  end;
    [| cbn [r set_r data on_AppleInfo set_AppleInfo]; rewrite Hd0, <- ?app_assoc; reflexivity
     | cbn [r set_r pos on_AppleInfo set_AppleInfo]; rewrite ?len_app, ?len_be_bytes; try rewrite Hp; lia
     | apply len_be_bytes
     | cbn [Chunk.R Chunk_set_R]; lia].
  try (rewrite be_uint_be_bytes by (simpl; lia)).
  cbn [Chunk.R Chunk_set_R r set_r on_AppleInfo set_AppleInfo data trace pos].
  match goal with |- context [read_field 4 ?st ?c1 ?d1] =>
    rewrite (read_field_at 4 st c1 d1 (pre ++ be_bytes 4 version) (be_bytes 4 beats)
               (be_bytes 2 note ++ be_bytes 2 scale ++ be_bytes 2 num ++ be_bytes 2 den ++ post))
  end;
    [| cbn [r set_r data on_AppleInfo set_AppleInfo]; rewrite Hd0, <- ?app_assoc; reflexivity
     | cbn [r set_r pos on_AppleInfo set_AppleInfo]; rewrite ?len_app, ?len_be_bytes; try rewrite Hp; lia
     | apply len_be_bytes
     | cbn [Chunk.R Chunk_set_R]; lia].
  try (rewrite be_uint_be_bytes by (simpl; lia)).
  cbn [Chunk.R Chunk_set_R r set_r on_AppleInfo set_AppleInfo data trace pos].
  match goal with |- context [read_field 2 ?st ?c1 ?d1] =>
    rewrite (read_field_at 2 st c1 d1 (pre ++ be_bytes 4 version ++ be_bytes 4 beats) (be_bytes 2 note)
               (be_bytes 2 scale ++ be_bytes 2 num ++ be_bytes 2 den ++ post))
  end;
    [| cbn [r set_r data on_AppleInfo set_AppleInfo]; rewrite Hd0, <- ?app_assoc; reflexivity
     | cbn [r set_r pos on_AppleInfo set_AppleInfo]; rewrite ?len_app, ?len_be_bytes; try rewrite Hp; lia
     | apply len_be_bytes
     | cbn [Chunk.R Chunk_set_R]; lia].
  try (rewrite be_uint_be_bytes by (simpl; lia)).
  cbn [Chunk.R Chunk_set_R r set_r on_AppleInfo set_AppleInfo data trace pos].
  match goal with |- context [read_field 2 ?st ?c1 ?d1] =>
    rewrite (read_field_at 2 st c1 d1 (pre ++ be_bytes 4 version ++ be_bytes 4 beats ++ be_bytes 2 note) (be_bytes 2 scale)
               (be_bytes 2 num ++ be_bytes 2 den ++ post))
  end;
    [| cbn [r set_r data on_AppleInfo set_AppleInfo]; rewrite Hd0, <- ?app_assoc; reflexivity
     | cbn [r set_r pos on_AppleInfo set_AppleInfo]; rewrite ?len_app, ?len_be_bytes; try rewrite Hp; lia
     | apply len_be_bytes
     | cbn [Chunk.R Chunk_set_R]; lia].
  try (rewrite be_uint_be_bytes by (simpl; lia)).
  cbn [Chunk.R Chunk_set_R r set_r on_AppleInfo set_AppleInfo data trace pos].
  match goal with |- context [read_field 2 ?st ?c1 ?d1] =>
    rewrite (read_field_at 2 st c1 d1 (pre ++ be_bytes 4 version ++ be_bytes 4 beats ++ be_bytes 2 note ++ be_bytes 2 scale) (be_bytes 2 num)
               (be_bytes 2 den ++ post))
  end;
    [| cbn [r set_r data on_AppleInfo set_AppleInfo]; rewrite Hd0, <- ?app_assoc; reflexivity
     | cbn [r set_r pos on_AppleInfo set_AppleInfo]; rewrite ?len_app, ?len_be_bytes; try rewrite Hp; lia
     | apply len_be_bytes
     | cbn [Chunk.R Chunk_set_R]; lia].
  try (rewrite be_uint_be_bytes by (simpl; lia)).
  cbn [Chunk.R Chunk_set_R r set_r on_AppleInfo set_AppleInfo data trace pos].
  match goal with |- context [read_field 2 ?st ?c1 ?d1] =>
    rewrite (read_field_at 2 st c1 d1 (pre ++ be_bytes 4 version ++ be_bytes 4 beats ++ be_bytes 2 note ++ be_bytes 2 scale ++ be_bytes 2 num) (be_bytes 2 den)
               (post))
  end;
    [| cbn [r set_r data on_AppleInfo set_AppleInfo]; rewrite Hd0, <- ?app_assoc; reflexivity
     | cbn [r set_r pos on_AppleInfo set_AppleInfo]; rewrite ?len_app, ?len_be_bytes; try rewrite Hp; lia
     | apply len_be_bytes
     | cbn [Chunk.R Chunk_set_R]; lia].
  try (rewrite be_uint_be_bytes by (simpl; lia)).
  cbn [Chunk.R Chunk_set_R r set_r on_AppleInfo set_AppleInfo data trace pos].
  apply HP; reflexivity.
Qed.

End AppleChunks.

(** ** Draining a file with a comment chunk *)

Section DrainComments.
Context `{lib : AudioLib}.

(** One pass of the loop of [Drain] over a whole comment chunk: the header,
    the body with its pad byte, the comments added. *)
Lemma Drain_comment_chunk_step fuel d pre size cs extra post :
  0 < SampleRate d -> err d = None ->
  data (r d) = pre ++ COMTID ++ be_bytes 4 size ++ (comments_body cs ++ extra) ++ post ->
  pos (r d) = len pre ->
  0 <= size < 2 ^ 32 - 1 ->
  len (comments_body cs ++ extra) = size + size mod 2 ->
  Forall (fun c => len (fst c) = 8 /\ len (snd c) < 256) cs ->
  len cs < 2 ^ 16 ->
  Drain (S fuel) d =
  Drain fuel
    (at_pos (set_Comments (Comments d ++ map (fun c => trim_right_nul (snd c)) cs) d)
       (len pre + 8 + (size + size mod 2))
       (IORead (size + size mod 2) :: IORead 4 :: IORead 4 :: trace (r d))).
Proof.
  intros Hsr Herr Hd Hp Hs Hlen Hall Hcount.
  pose proof (Z.mod_pos_bound size 2 ltac:(lia)) as Hmod.
  set (size' := if size mod 2 =? 0 then size else wrap32 (size + 1)).
  assert (Hsize' : size' = size + size mod 2).
  { unfold size'. destruct (Z.eqb_spec (size mod 2) 0) as [E|E]; [lia|].
    rewrite wrap32_small by lia. lia. }
  cbn [Drain]. rewrite Herr.
  rewrite (NextChunk_at d pre COMTID size _ Hsr Herr Hd Hp eq_refl) by lia.
  fold size'. rewrite set_err_at_pos.
  unfold parseChunk. cbn [Chunk.ID].
  change (bytes_eqb COMTID COMMID) with false.
  change (bytes_eqb COMTID SSNDID) with false.
  rewrite bytes_eqb_refl. cbv iota.
  replace (len pre + 8) with (len (pre ++ COMTID ++ be_bytes 4 size))
    by (rewrite !len_app, len_be_bytes; change (len COMTID) with 4; lia).
  rewrite (parseCommentsChunk_records_at _ d (pre ++ COMTID ++ be_bytes 4 size) cs extra post);
    [| reflexivity
     | cbn [Chunk.Size]; lia
     | rewrite Hd, <- !app_assoc; reflexivity
     | exact Hall
     | exact Hcount].
  cbn [snd Chunk.Size].
  rewrite !len_app, len_be_bytes. change (len COMTID) with 4.
  rewrite Hsize'.
  replace (len pre + (4 + Z.of_nat 4)) with (len pre + 8) by lia.
  reflexivity.
Qed.

(** X26: With the format known, a file whose last chunk is a well-formed
    comment chunk (the count, the records, any further bytes of the body
    and the pad byte of an odd size), followed by fewer than eight bytes:
    [Drain] returns nil, the texts of the comments, without their trailing
    zero bytes, are appended to [Comments] in the order of the file, and the
    decoder has reached the end: [Err] returns nil and [EOF] true. *)
Theorem Drain_reads_comment_chunk fuel d pre size cs extra post :
  0 < SampleRate d -> err d = None ->
  data (r d) = pre ++ COMTID ++ be_bytes 4 size ++ (comments_body cs ++ extra) ++ post ->
  pos (r d) = len pre ->
  0 <= size < 2 ^ 32 - 1 ->
  len (comments_body cs ++ extra) = size + size mod 2 ->
  Forall (fun c => len (fst c) = 8 /\ len (snd c) < 256) cs ->
  len cs < 2 ^ 16 ->
  len post < 8 ->
  exists d',
    Drain (S (S fuel)) d = Returns (None, d') /\
    Comments d' = Comments d ++ map (fun c => trim_right_nul (snd c)) cs /\
    Err d' = None /\ Decoder_EOF (Some d') = true.
Proof.
  intros Hsr Herr Hd Hp Hs Hlen Hall Hcount Hpost.
  rewrite (Drain_comment_chunk_step (S fuel) d pre size cs extra post
             Hsr Herr Hd Hp Hs Hlen Hall Hcount).
  set (d2 := at_pos _ _ _).
  assert (Hrem : remaining (r d2) < 8).
  { rewrite (remaining_at (r d2)
               (pre ++ COMTID ++ be_bytes 4 size ++ comments_body cs ++ extra) post).
    - exact Hpost.
    - cbn [d2 r at_pos set_r set_err set_Comments data]. rewrite Hd, <- !app_assoc.
      reflexivity.
    - cbn [d2 r at_pos set_r set_err set_Comments pos].
      rewrite (len_app pre), (len_app COMTID), (len_app (be_bytes 4 size)), len_be_bytes.
      change (len COMTID) with 4. rewrite Hlen. lia. }
  cbn [Drain]. change (err d2) with (@None error). cbv iota.
  unfold NextChunk. rewrite (ReadInfo_known d2 Hsr).
  change (err d2) with (@None error). cbv iota.
  destruct (iDnSize_fails d2 Hrem) as (id & e & s & Hi & He & _ & _).
  rewrite Hi. eexists. split.
  - destruct (_ || _); subst e; reflexivity.
  - destruct (_ || _); subst e; repeat split.
Qed.

End DrainComments.

(** ** Runs of the further properties *)

(** Witness of [NextChunk_end_of_data]: [tail_file] once its format is
    read; three bytes of a header are left. *)
Lemma NextChunk_end_of_data_witness :
  let d := ReadInfo (lib := go_audio) (NewDecoder (open_stream tail_file)) in
  (0 < SampleRate d /\ err d = None /\ remaining (r d) < 8) /\
  fst (NextChunk d) = (None, Some EOF) /\
  Err (snd (NextChunk d)) = Some ErrUnexpectedEOF.
Proof.
  cbv zeta.
  assert (H1 : 0 < SampleRate (ReadInfo (lib := go_audio) (NewDecoder (open_stream tail_file))))
    by (vm_compute; reflexivity).
  assert (H2 : err (ReadInfo (lib := go_audio) (NewDecoder (open_stream tail_file))) = None)
    by (vm_compute; reflexivity).
  assert (H3 : remaining (r (ReadInfo (lib := go_audio) (NewDecoder (open_stream tail_file)))) < 8)
    by (vm_compute; reflexivity).
  split; [auto|].
  destruct (NextChunk_end_of_data (lib := go_audio) _ H1 H2 H3) as (Ha & Hb & _).
  split; [exact Ha|exact Hb].
Defined.

(** Witness of [Drain_end_of_data]: the same state. *)
Lemma Drain_end_of_data_witness :
  let d := ReadInfo (lib := go_audio) (NewDecoder (open_stream tail_file)) in
  (0 < SampleRate d /\ err d = None /\ remaining (r d) < 8) /\
  exists d', Drain 1 d = Returns (None, d') /\ Err d' = None.
Proof.
  cbv zeta.
  assert (H1 : 0 < SampleRate (ReadInfo (lib := go_audio) (NewDecoder (open_stream tail_file))))
    by (vm_compute; reflexivity).
  assert (H2 : err (ReadInfo (lib := go_audio) (NewDecoder (open_stream tail_file))) = None)
    by (vm_compute; reflexivity).
  assert (H3 : remaining (r (ReadInfo (lib := go_audio) (NewDecoder (open_stream tail_file)))) < 8)
    by (vm_compute; reflexivity).
  split; [auto|].
  destruct (Drain_end_of_data (lib := go_audio) _ 0%nat H1 H2 H3) as (s & Ha & Hb & _).
  eexists. split; [exact Ha|exact Hb].
Defined.

(** Witness of [NextChunk_returns_header]: [comment_file] once its format
    is read; the comment chunk, of size 14, is next. *)
Lemma NextChunk_returns_header_witness :
  let d := ReadInfo (lib := go_audio) (NewDecoder (open_stream comment_file)) in
  let pre := form_header 52 aiffID ++ comm_16bit in
  let body := bytes_of [0; 1; 0; 0; 0; 0; 0; 0; 0; 0; 3; 104; 101; 121] in
  (0 < SampleRate d /\ err d = None /\
   data (r d) = pre ++ COMTID ++ be_bytes 4 14 ++ body /\ pos (r d) = len pre) /\
  fst (NextChunk d) =
    (Some {| Chunk.ID := COMTID; Chunk.Size := 14; Chunk.R := 14; Chunk.Pos := 0 |}, None).
Proof.
  cbv zeta.
  set (d := ReadInfo (lib := go_audio) (NewDecoder (open_stream comment_file))).
  set (pre := form_header 52 aiffID ++ comm_16bit).
  set (body := bytes_of [0; 1; 0; 0; 0; 0; 0; 0; 0; 0; 3; 104; 101; 121]).
  assert (H1 : 0 < SampleRate d) by (vm_compute; reflexivity).
  assert (H2 : err d = None) by (vm_compute; reflexivity).
  assert (H3 : data (r d) = pre ++ COMTID ++ be_bytes 4 14 ++ body) by (vm_compute; reflexivity).
  assert (H4 : pos (r d) = len pre) by (vm_compute; reflexivity).
  split; [auto|].
  destruct (NextChunk_returns_header (lib := go_audio) d pre COMTID 14 body H1 H2 H3 H4
              eq_refl ltac:(lia)) as (size' & Hrun & Heven & _).
  rewrite Hrun, (Heven eq_refl). reflexivity.
Defined.

(** Witness of [readHeaders_accepts_iff]: the header of [comment_file]. *)
Lemma readHeaders_accepts_iff_witness :
  Size (NewDecoder (open_stream comment_file)) = 0 /\
  fst (readHeaders (NewDecoder (open_stream comment_file))) = None /\
  Size (snd (readHeaders (NewDecoder (open_stream comment_file)))) = 52.
Proof.
  split; [reflexivity|].
  destruct (readHeaders_accepts_iff (NewDecoder (open_stream comment_file)) eq_refl)
    as (Hiff & Hrun).
  split.
  - apply Hiff. exists (be_bytes 4 52), aiffID.
    split; [vm_compute; reflexivity|]. split; [reflexivity|]. left. reflexivity.
  - rewrite (Hrun (be_bytes 4 52) aiffID); [reflexivity|vm_compute; reflexivity|reflexivity|].
    left. reflexivity.
Defined.

(** Witness of [readHeaders_rejects]: a WAV file is rejected by its first
    four bytes. *)
Lemma readHeaders_rejects_witness :
  Size (NewDecoder (open_stream wav_file)) = 0 /\
  fst (readHeaders (NewDecoder (open_stream wav_file))) =
    Some (ErrFmtNotSupported (list_byte_of_string "RIFF")).
Proof.
  split; [reflexivity|].
  destruct (readHeaders_rejects (NewDecoder (open_stream wav_file)) eq_refl)
    as (_ & Hbad & _).
  apply Hbad; [vm_compute; discriminate|vm_compute; discriminate].
Defined.

(** Witness of [parseCommChunk_decodes]: the COMM chunk of [comment_file],
    whose body starts at byte 20. *)
Lemma parseCommChunk_decodes_witness :
  let d := NewDecoder (open_stream comment_file) in
  let pre := form_header 52 aiffID ++ COMMID ++ be_bytes 4 18 in
  let post := chunk_bytes COMTID (bytes_of [0; 1; 0; 0; 0; 0; 0; 0; 0; 0; 3; 104; 101; 121]) in
  (NumChans d = 0 /\ Form d <> aifcID /\
   data (r d) = pre ++ (comm_body 1 10 16 rate_44100 ++ []) ++ post /\ len rate_44100 = 10) /\
  SampleRate (snd (parseCommChunk (lib := go_audio) 18 (at_pos d 20 []))) = 44100 /\
  BitDepth (snd (parseCommChunk (lib := go_audio) 18 (at_pos d 20 []))) = 16.
Proof.
  cbv zeta.
  set (d := NewDecoder (open_stream comment_file)).
  set (pre := form_header 52 aiffID ++ COMMID ++ be_bytes 4 18).
  set (post := chunk_bytes COMTID _).
  assert (H1 : NumChans d = 0) by reflexivity.
  assert (H2 : Form d <> aifcID) by (vm_compute; discriminate).
  assert (H3 : data (r d) = pre ++ (comm_body 1 10 16 rate_44100 ++ []) ++ post)
    by (vm_compute; reflexivity).
  assert (H4 : len rate_44100 = 10) by reflexivity.
  split; [auto|].
  destruct (parseCommChunk_decodes (lib := go_audio) d pre 1 10 16 rate_44100 [] post []
              H1 H2 H3 ltac:(lia) ltac:(lia) ltac:(lia) H4)
    as (_ & _ & _ & _ & Hbits & Hrate & _).
  split; [exact Hrate|exact Hbits].
Defined.

(** Witness of [parseCommChunk_decodes_aifc]: the COMM chunk of
    [sowt_file]. *)
Lemma parseCommChunk_decodes_aifc_witness :
  let d := set_Form aifcID (NewDecoder (open_stream sowt_file)) in
  let pre := form_header 36 aifcID ++ COMMID ++ be_bytes 4 23 in
  (NumChans d = 0 /\ Form d = aifcID /\
   data (r d) = pre ++ (comm_body 1 10 16 rate_44100 ++ aifc_comm_ext encSowt [] ++ []) ++ [] /\
   len rate_44100 = 10 /\ len encSowt = 4) /\
  Encoding (snd (parseCommChunk (lib := go_audio) 23 (at_pos d 20 []))) = encSowt /\
  byteOrder (snd (parseCommChunk (lib := go_audio) 23 (at_pos d 20 []))) = LittleEndian.
Proof.
  cbv zeta.
  set (d := set_Form aifcID (NewDecoder (open_stream sowt_file))).
  set (pre := form_header 36 aifcID ++ COMMID ++ be_bytes 4 23).
  assert (H1 : NumChans d = 0) by reflexivity.
  assert (H2 : Form d = aifcID) by reflexivity.
  assert (H3 : data (r d) =
               pre ++ (comm_body 1 10 16 rate_44100 ++ aifc_comm_ext encSowt [] ++ []) ++ [])
    by (vm_compute; reflexivity).
  assert (H4 : len rate_44100 = 10) by reflexivity.
  assert (H5 : len encSowt = 4) by reflexivity.
  split; [auto 6|].
  destruct (parseCommChunk_decodes_aifc (lib := go_audio) d pre 1 10 16 rate_44100 encSowt []
              [] [] [] H1 H2 H3 ltac:(lia) ltac:(lia) ltac:(lia) H4 H5 ltac:(reflexivity))
    as (_ & _ & _ & _ & _ & _ & Henc & _ & Hle & _).
  split; [exact Henc|exact (Hle eq_refl)].
Defined.

(** Witness of [parseCommChunk_short_body]: five bytes where a COMM body
    of eighteen is declared. *)
Lemma parseCommChunk_short_body_witness :
  let d := NewDecoder (open_stream (bytes_of [0; 1; 0; 0; 0])) in
  (NumChans d = 0 /\ Z.max 0 (Z.min 18 (remaining (r d))) < 18) /\
  fst (parseCommChunk (lib := go_audio) 18 d) =
    Some (Errorf "num of sample frames failed to parse" ErrUnexpectedEOF).
Proof.
  cbv zeta.
  set (d := NewDecoder (open_stream (bytes_of [0; 1; 0; 0; 0]))).
  assert (H1 : NumChans d = 0) by reflexivity.
  assert (H2 : Z.max 0 (Z.min 18 (remaining (r d))) < 18) by (vm_compute; reflexivity).
  split; [auto|].
  destruct (parseCommChunk_short_body (lib := go_audio) 18 d H1 H2) as (Hrun & _).
  exact Hrun.
Defined.

(** Witness of [parseCommentsChunk_reads_comments]: the comment chunk of
    [comment_file], with the one comment "hey". *)
Lemma parseCommentsChunk_reads_comments_witness :
  let d := NewDecoder (open_stream comment_file) in
  let c := {| Chunk.ID := COMTID; Chunk.Size := 14; Chunk.R := 14; Chunk.Pos := 0 |} in
  let pre := form_header 52 aiffID ++ comm_16bit ++ COMTID ++ be_bytes 4 14 in
  let cs := [(bytes_of [0; 0; 0; 0; 0; 0; 0; 0], list_byte_of_string "hey")] in
  (Chunk.Size c = len (comments_body cs ++ []) /\
   data (r d) = pre ++ (comments_body cs ++ []) ++ [] /\
   Forall (fun c => len (fst c) = 8 /\ len (snd c) < 256) cs /\ len cs < 2 ^ 16) /\
  Comments (snd (parseCommentsChunk c (at_pos d 46 []))) = [list_byte_of_string "hey"].
Proof.
  cbv zeta.
  set (d := NewDecoder (open_stream comment_file)).
  set (c := {| Chunk.ID := COMTID; Chunk.Size := 14; Chunk.R := 14; Chunk.Pos := 0 |}).
  set (pre := form_header 52 aiffID ++ comm_16bit ++ COMTID ++ be_bytes 4 14).
  set (cs := [(bytes_of [0; 0; 0; 0; 0; 0; 0; 0], list_byte_of_string "hey")]).
  assert (H0 : Chunk.Size c = len (comments_body cs ++ [])) by reflexivity.
  assert (H1 : data (r d) = pre ++ (comments_body cs ++ []) ++ []) by (vm_compute; reflexivity).
  assert (H2 : Forall (fun c => len (fst c) = 8 /\ len (snd c) < 256) cs).
  { repeat constructor. }
  assert (H3 : len cs < 2 ^ 16) by reflexivity.
  split; [auto|].
  destruct (parseCommentsChunk_reads_comments c d pre cs [] [] [] eq_refl H0 H1 H2 H3)
    as (_ & _ & Hcm & _).
  change (len pre) with 46 in Hcm. rewrite Hcm. reflexivity.
Defined.

(** Witness of [ReadInfo_decodes_format]: [comment_file]. *)
Lemma ReadInfo_decodes_format_witness :
  len rate_44100 = 10 /\
  comment_file =
    form_header 52 aiffID ++ chunk_bytes COMMID (comm_body 1 10 16 rate_44100 ++ []) ++
    chunk_bytes COMTID (bytes_of [0; 1; 0; 0; 0; 0; 0; 0; 0; 0; 3; 104; 101; 121]) /\
  Format (Some (ReadInfo (lib := go_audio) (NewDecoder (open_stream comment_file)))) =
    Some {| NumChannels := 1; FormatSampleRate := 44100 |} /\
  pos (r (ReadInfo (lib := go_audio) (NewDecoder (open_stream comment_file)))) = 38.
Proof.
  assert (H1 : len rate_44100 = 10) by reflexivity.
  assert (H2 : comment_file =
    form_header 52 aiffID ++ chunk_bytes COMMID (comm_body 1 10 16 rate_44100 ++ []) ++
    chunk_bytes COMTID (bytes_of [0; 1; 0; 0; 0; 0; 0; 0; 0; 0; 3; 104; 101; 121]))
    by (vm_compute; reflexivity).
  split; [exact H1|]. split; [exact H2|].
  rewrite H2.
  destruct (ReadInfo_decodes_format (lib := go_audio) 52 1 10 16 rate_44100 []
              (chunk_bytes COMTID (bytes_of [0; 1; 0; 0; 0; 0; 0; 0; 0; 0; 3; 104; 101; 121]))
              ltac:(lia) ltac:(lia) ltac:(lia) ltac:(lia) H1 ltac:(vm_compute; reflexivity))
    as (_ & _ & _ & _ & _ & _ & _ & _ & Hfmt & _ & Hpos & _).
  split; [exact Hfmt|exact Hpos].
Defined.

(** Witness of [ReadInfo_without_COMM]: a header and the unknown chunk of
    [late_comm_chunks], and nothing else. *)
Lemma ReadInfo_without_COMM_witness :
  (Forall scanned_chunk late_comm_chunks /\ chunks_size late_comm_chunks < 2 ^ 63) /\
  err (ReadInfo (lib := go_audio)
         (NewDecoder (open_stream (form_header 20 aiffID ++ chunks_bytes late_comm_chunks ++ [])))) =
    Some (Errorf "error reading chunk header" EOF).
Proof.
  assert (H1 : Forall scanned_chunk late_comm_chunks).
  { repeat constructor; cbn; try discriminate. }
  assert (H2 : chunks_size late_comm_chunks < 2 ^ 63) by reflexivity.
  split; [auto|].
  destruct (ReadInfo_without_COMM (lib := go_audio) 20 aiffID late_comm_chunks []
              ltac:(lia) (or_introl eq_refl) H1 ltac:(reflexivity) H2) as (Herr & _).
  exact Herr.
Defined.

(** Witness of [ReadInfo_oversize_chunk]: [oversize_file]. *)
Lemma ReadInfo_oversize_chunk_witness :
  (list_byte_of_string "XXXX" <> COMMID /\ list_byte_of_string "XXXX" <> COMTID) /\
  err (ReadInfo (lib := go_audio) (NewDecoder (open_stream oversize_file))) =
    Some (Errorf "error reading chunk header" EOF) /\
  pos (r (ReadInfo (lib := go_audio) (NewDecoder (open_stream oversize_file)))) = 120.
Proof.
  assert (H1 : list_byte_of_string "XXXX" <> COMMID) by discriminate.
  assert (H2 : list_byte_of_string "XXXX" <> COMTID) by discriminate.
  split; [auto|].
  destruct (ReadInfo_oversize_chunk (lib := go_audio) 16 aiffID (list_byte_of_string "XXXX")
              100 (bytes_of [1; 2; 3; 4]) ltac:(lia) (or_introl eq_refl) eq_refl H1 H2
              ltac:(split; [vm_compute; discriminate|reflexivity]))
    as (Herr & Hpos & _).
  split; [exact Herr|exact Hpos].
Defined.

(** Witness of [ReadInfo_truncated_comment_chunk]:
    [cut_comment_first_file]. *)
Lemma ReadInfo_truncated_comment_chunk_witness :
  len (bytes_of [0; 1]) < 14 /\
  err (ReadInfo (lib := go_audio) (NewDecoder (open_stream cut_comment_first_file))) = Some EOF /\
  Err (ReadInfo (lib := go_audio) (NewDecoder (open_stream cut_comment_first_file))) = None /\
  SampleRate (ReadInfo (lib := go_audio) (NewDecoder (open_stream cut_comment_first_file))) = 0.
Proof.
  assert (H1 : len (bytes_of [0; 1]) < 14) by reflexivity.
  split; [exact H1|].
  destruct (ReadInfo_truncated_comment_chunk (lib := go_audio) 14 aiffID 14 (bytes_of [0; 1])
              ltac:(lia) (or_introl eq_refl) ltac:(split; [exact H1|reflexivity]))
    as (Herr & HErr & _ & Hsr & _).
  split; [exact Herr|]. split; [exact HErr|exact Hsr].
Defined.

(** Witness of [decodeF_accepts_short_read]: the 16-bit big-endian decode
    function on a reader that holds the one byte ff, the scratch buffer
    holding 12 fe from the sample before: no error, and the value -2 of the
    bytes ff fe. *)
Lemma decodeF_accepts_short_read_witness :
  (sampleDecodeFunc (lib := go_audio) 16 BigEndian = (Some (decode16 BigEndian), None) /\
   len (bytes_of [0x12; 0xfe]) = 16 / 8 /\ 0 < len (bytes_of [0xff]) < 16 / 8) /\
  decode16 BigEndian (bytes_of [0xff]) (bytes_of [0x12; 0xfe]) =
    ((-2, None), ([], bytes_of [0xff; 0xfe])).
Proof.
  assert (H1 : sampleDecodeFunc (lib := go_audio) 16 BigEndian =
               (Some (decode16 BigEndian), None)) by reflexivity.
  assert (H2 : len (bytes_of [0x12; 0xfe]) = 16 / 8) by reflexivity.
  assert (H3 : 0 < len (bytes_of [0xff]) < 16 / 8) by (split; reflexivity).
  split; [auto|].
  destruct (decodeF_accepts_short_read (lib := go_audio) 16 BigEndian _ H1
              (bytes_of [0xff]) (bytes_of [0x12; 0xfe]) H2) as (_ & _ & Hshort).
  rewrite (Hshort H3). vm_compute. reflexivity.
Defined.

(** Witness of [PCMBuffer_read_count]: the four PCM bytes of [file24] and a
    buffer of two samples; four bytes are read and two samples counted. *)
Lemma PCMBuffer_read_count_witness :
  (In (BitDepth file24_at_pcm) [8; 16; 24; 32] /\
   PCMChunk file24_at_pcm =
     Some {| Chunk.ID := SSNDID; Chunk.Size := 12; Chunk.R := 4; Chunk.Pos := 8 |}) /\
  exists b d',
    PCMBuffer_read (lib := go_audio) (buf_of 2) file24_at_pcm =
      Returns (((2, None), 4), (b, d')).
Proof.
  assert (H1 : In (BitDepth file24_at_pcm) [8; 16; 24; 32]) by (simpl; auto).
  assert (H2 : PCMChunk file24_at_pcm =
     Some {| Chunk.ID := SSNDID; Chunk.Size := 12; Chunk.R := 4; Chunk.Pos := 8 |})
    by reflexivity.
  split; [auto|].
  destruct (PCMBuffer_read_count (lib := go_audio) (buf_of 2) file24_at_pcm _ H1 H2)
    as (b & d' & Hrun & _).
  exists b, d'. exact Hrun.
Defined.

(** Witness of [PCMBuffer_read_samples]: the same call; the first slot
    holds the sample 01 02 03. *)
Lemma PCMBuffer_read_samples_witness :
  (In (BitDepth file24_at_pcm) [8; 16; 24; 32] /\
   PCMChunk file24_at_pcm =
     Some {| Chunk.ID := SSNDID; Chunk.Size := 12; Chunk.R := 4; Chunk.Pos := 8 |}) /\
  exists res b d',
    PCMBuffer_read (lib := go_audio) (buf_of 2) file24_at_pcm = Returns (res, (b, d')) /\
    nth 0 (Data b) 0 = 0x010203.
Proof.
  assert (H1 : In (BitDepth file24_at_pcm) [8; 16; 24; 32]) by (simpl; auto).
  assert (H2 : PCMChunk file24_at_pcm =
     Some {| Chunk.ID := SSNDID; Chunk.Size := 12; Chunk.R := 4; Chunk.Pos := 8 |})
    by reflexivity.
  split; [auto|].
  destruct (PCMBuffer_read_samples (lib := go_audio) (buf_of 2) file24_at_pcm _ H1 H2)
    as (res & b & d' & Hrun & Hval & _).
  exists res, b, d'. split; [exact Hrun|].
  destruct (Hval 0%nat ltac:(vm_compute; discriminate)) as (Hv & _).
  rewrite Hv. vm_compute. reflexivity.
Defined.

(** Witness of [PCMBuffer_after_rejected_header]: a new decoder on a WAV
    file. *)
Lemma PCMBuffer_after_rejected_header_witness :
  let d := NewDecoder (open_stream wav_file) in
  let x := ErrFmtNotSupported (list_byte_of_string "RIFF") in
  (pcmDataAccessed d = false /\ ~ In (BitDepth d) [8; 16; 24; 32] /\
   fst (readHeaders d) = Some x) /\
  exists b d',
    PCMBuffer (lib := go_audio) 10 (Some (buf_of 2)) d =
      Returns ((0, Some (Errorf "could not get sample decode func" (ErrBitDepth 0))),
               (Some b, d')) /\
    Err d' = Some (Errorf "failed to read header" x).
Proof.
  cbv zeta.
  set (d := NewDecoder (open_stream wav_file)).
  set (x := ErrFmtNotSupported (list_byte_of_string "RIFF")).
  assert (H1 : pcmDataAccessed d = false) by reflexivity.
  assert (H2 : ~ In (BitDepth d) [8; 16; 24; 32]).
  { simpl. intros [H|[H|[H|[H|[]]]]]; discriminate. }
  assert (H3 : fst (readHeaders d) = Some x) by (vm_compute; reflexivity).
  split; [auto|].
  destruct (PCMBuffer_after_rejected_header (lib := go_audio) 10%nat (buf_of 2) d x H1 H2 H3)
    as (d' & _ & HErr & Hrun).
  eexists _, d'. split; [exact Hrun|exact HErr].
Defined.

(** Witness of [Drain_cut_off_comment_chunk]: [cut_comment_file] once its
    format is read. *)
Lemma Drain_cut_off_comment_chunk_witness :
  let d := ReadInfo (lib := go_audio) (NewDecoder (open_stream cut_comment_file)) in
  let pre := form_header 47 aiffID ++ comm_16bit in
  let body := bytes_of [0; 1; 0; 0; 0; 0; 0; 0; 0; 0; 2; 104; 105] in
  (0 < SampleRate d /\ err d = None /\
   data (r d) = pre ++ COMTID ++ be_bytes 4 13 ++ body /\ pos (r d) = len pre /\
   len body < 13 + 13 mod 2) /\
  exists d', Drain 1 d = Returns (Some EOF, d') /\ Comments d' = [].
Proof.
  cbv zeta.
  set (d := ReadInfo (lib := go_audio) (NewDecoder (open_stream cut_comment_file))).
  set (pre := form_header 47 aiffID ++ comm_16bit).
  set (body := bytes_of [0; 1; 0; 0; 0; 0; 0; 0; 0; 0; 2; 104; 105]).
  assert (H1 : 0 < SampleRate d) by (vm_compute; reflexivity).
  assert (H2 : err d = None) by (vm_compute; reflexivity).
  assert (H3 : data (r d) = pre ++ COMTID ++ be_bytes 4 13 ++ body) by (vm_compute; reflexivity).
  assert (H4 : pos (r d) = len pre) by (vm_compute; reflexivity).
  assert (H5 : len body < 13 + 13 mod 2) by reflexivity.
  split; [auto 6|].
  destruct (Drain_cut_off_comment_chunk (lib := go_audio) 0%nat d pre 13 body H1 H2 H3 H4
              ltac:(lia) H5) as (d' & Hrun & _ & _ & Hcm & _).
  exists d'. split; [exact Hrun|]. rewrite Hcm. vm_compute. reflexivity.
Defined.

(** Witness of [parseCateChunk_reads_tags]: main categories "Drums" and
    "Rock" with two empty slots, then the descriptor "Drums" and an empty
    one, give the tags "Drums", "Rock", "Drums". *)
Lemma parseCateChunk_reads_tags_witness :
  let d := NewDecoder (open_stream cate_body) in
  let c := {| Chunk.ID := cateID; Chunk.Size := 322; Chunk.R := 322; Chunk.Pos := 0 |} in
  (Chunk.ID c = cateID /\ Forall (fun sl => len sl = 50) cate_main_slots /\
   Forall (fun sl => len sl = 50) tag_slots /\ 222 + 50 * len tag_slots <= Chunk.R c) /\
  fst (parseCateChunk c d) = None /\
  Tags (AppleInfo (snd (snd (parseCateChunk c d)))) =
    [list_byte_of_string "Drums"; list_byte_of_string "Rock"; list_byte_of_string "Drums"].
Proof.
  cbv zeta.
  set (d := NewDecoder (open_stream cate_body)).
  set (c := {| Chunk.ID := cateID; Chunk.Size := 322; Chunk.R := 322; Chunk.Pos := 0 |}).
  assert (H0 : Chunk.ID c = cateID) by reflexivity.
  assert (H1 : Forall (fun sl => len sl = 50) cate_main_slots) by (repeat constructor).
  assert (H2 : Forall (fun sl => len sl = 50) tag_slots) by (repeat constructor).
  assert (H3 : 222 + 50 * len tag_slots <= Chunk.R c) by (vm_compute; discriminate).
  split; [auto|].
  destruct (parseCateChunk_reads_tags c d [] (repeat x00 4)
              cate_main_slots (repeat x00 16) tag_slots [] H0 eq_refl eq_refl eq_refl
              H1 H2 ltac:(vm_compute; reflexivity)
              ltac:(vm_compute; reflexivity) eq_refl H3) as (Hn & _ & Htags).
  split; [exact Hn|]. rewrite Htags. vm_compute. reflexivity.
Defined.

(** Witness of [parseBascChunk_decodes_fields]: 8 beats, the note A, the
    major scale, 4/4. *)
Lemma parseBascChunk_decodes_fields_witness :
  let d := NewDecoder (open_stream (basc_fields ++ bytes_of [0; 0; 1])) in
  let c := {| Chunk.ID := bascID; Chunk.Size := 19; Chunk.R := 19; Chunk.Pos := 0 |} in
  (Chunk.ID c = bascID /\ 16 <= Chunk.R c) /\
  Beats (AppleInfo (snd (snd (parseBascChunk c d)))) = 8 /\
  AppleNoteToPitch (Note (AppleInfo (snd (snd (parseBascChunk c d))))) = "A"%string /\
  AppleScaleToString (Scale (AppleInfo (snd (snd (parseBascChunk c d))))) = "major"%string.
Proof.
  cbv zeta.
  set (d := NewDecoder (open_stream (basc_fields ++ bytes_of [0; 0; 1]))).
  set (c := {| Chunk.ID := bascID; Chunk.Size := 19; Chunk.R := 19; Chunk.Pos := 0 |}).
  assert (H0 : Chunk.ID c = bascID) by reflexivity.
  assert (H1 : 16 <= Chunk.R c) by (vm_compute; discriminate).
  split; [auto|].
  destruct (parseBascChunk_decodes_fields c d [] 1 8 57 2 4 4
              (bytes_of [0; 0; 1]) H0 ltac:(lia) ltac:(lia) ltac:(lia) ltac:(lia)
              ltac:(lia) ltac:(lia) ltac:(vm_compute; reflexivity) eq_refl H1)
    as (_ & _ & Hb & Hn & Hs & _).
  rewrite Hb, Hn, Hs. repeat split.
Defined.

(** Witness of [Drain_reads_comment_chunk]: [padded_comment_file] once its format
    is read. *)
Lemma Drain_reads_comment_chunk_witness :
  let d := ReadInfo (lib := go_audio) (NewDecoder (open_stream padded_comment_file)) in
  let pre := form_header 52 aiffID ++ comm_16bit in
  let cs := [(repeat x00 8, list_byte_of_string "hi")] in
  (0 < SampleRate d /\ err d = None /\
   data (r d) = pre ++ COMTID ++ be_bytes 4 13 ++ (comments_body cs ++ [x00]) ++ [] /\
   pos (r d) = len pre /\
   len (comments_body cs ++ [x00]) = 13 + 13 mod 2 /\
   Forall (fun c => len (fst c) = 8 /\ len (snd c) < 256) cs) /\
  exists d', Drain 2 d = Returns (None, d') /\
             Comments d' = [list_byte_of_string "hi"].
Proof.
  cbv zeta.
  set (d := ReadInfo (lib := go_audio) (NewDecoder (open_stream padded_comment_file))).
  set (pre := form_header 52 aiffID ++ comm_16bit).
  set (cs := [(repeat x00 8, list_byte_of_string "hi")]).
  assert (H1 : 0 < SampleRate d) by (vm_compute; reflexivity).
  assert (H2 : err d = None) by (vm_compute; reflexivity).
  assert (H3 : data (r d) =
               pre ++ COMTID ++ be_bytes 4 13 ++ (comments_body cs ++ [x00]) ++ [])
    by (vm_compute; reflexivity).
  assert (H4 : pos (r d) = len pre) by (vm_compute; reflexivity).
  assert (H5 : len (comments_body cs ++ [x00]) = 13 + 13 mod 2) by reflexivity.
  assert (H6 : Forall (fun c => len (fst c) = 8 /\ len (snd c) < 256) cs)
    by (repeat constructor).
  split; [auto 7|].
  destruct (Drain_reads_comment_chunk (lib := go_audio) 0%nat d pre 13 cs [x00] [] H1 H2 H3 H4
              ltac:(lia) H5 H6 ltac:(vm_compute; reflexivity) ltac:(vm_compute; reflexivity))
    as (d' & Hrun & Hcm & _).
  exists d'. split; [exact Hrun|]. rewrite Hcm. vm_compute. reflexivity.
Defined.
